(** * perplexity-opencode: keyword detector, message hook, configuration
      and installer, embedded from the TypeScript sources.

    Strings are JavaScript strings: finite sequences of UTF-16 code units,
    modelled as [list N].  Regular expressions are an abstract syntax with a
    backtracking semantics that lists every end position of a match in the
    priority order of the ECMAScript matcher. *)

From Stdlib Require Import String Ascii DecimalString DecimalZ.
From Stdlib Require Import NArith ZArith Bool Lia List.
Import ListNotations.

Set Implicit Arguments.
Set Warnings "-register-all".

(** ** JavaScript strings *)

Module JS.
Local Open Scope N_scope.

Definition str := list N.

(** A source-code literal (ASCII) as a sequence of code units. *)
Definition lit (s : string) : str := map N_of_ascii (list_ascii_of_string s).

Definition backtick : N := 96.
Definition dquote : N := 34.
Definition newline : N := 10.

(** WhiteSpace and LineTerminator code points: the set matched by [\s] and
    removed by [trim]. *)
Definition isSpace (c : N) : bool :=
  ((9 <=? c) && (c <=? 13)) || (c =? 32) || (c =? 160) || (c =? 5760)
  || ((8192 <=? c) && (c <=? 8202)) || (c =? 8232) || (c =? 8233)
  || (c =? 8239) || (c =? 8287) || (c =? 12288) || (c =? 65279).

Definition isLineTerminator (c : N) : bool :=
  (c =? 10) || (c =? 13) || (c =? 8232) || (c =? 8233).

(** [\w]: the basic Latin letters, the digits and the underscore. *)
Definition isWordChar (c : N) : bool :=
  ((97 <=? c) && (c <=? 122)) || ((65 <=? c) && (c <=? 90))
  || ((48 <=? c) && (c <=? 57)) || (c =? 95).

(** Canonicalize of the [i] flag, on the basic Latin letters.  A code unit
    outside ASCII never canonicalizes to an ASCII one, so comparisons
    against the ASCII characters of a pattern are decided by this map. *)
Definition canon (c : N) : N :=
  if (97 <=? c) && (c <=? 122) then c - 32 else c.

Definition str_eqb (a b : str) : bool :=
  if list_eq_dec N.eq_dec a b then true else false.

Fixpoint startsWith (s p : str) : bool :=
  match p, s with
  | [], _ => true
  | _ :: _, [] => false
  | c :: p', d :: s' => (c =? d) && startsWith s' p'
  end.

Fixpoint includes (s p : str) : bool :=
  startsWith s p ||
  match s with
  | [] => false
  | _ :: s' => includes s' p
  end.

Definition endsWith (s p : str) : bool := startsWith (rev s) (rev p).

Fixpoint trimStart (s : str) : str :=
  match s with
  | c :: s' => if isSpace c then trimStart s' else s
  | [] => []
  end.

Definition trimEnd (s : str) : str := rev (trimStart (rev s)).

Definition trim (s : str) : str := trimEnd (trimStart s).

(** [Array.prototype.join]. *)
Fixpoint join (sep : str) (l : list str) : str :=
  match l with
  | [] => []
  | [s] => s
  | s :: l' => s ++ sep ++ join sep l'
  end.

(** Truthiness of a string: the empty string is falsy. *)
Definition truthy (s : str) : bool :=
  match s with [] => false | _ => true end.

(** [a || b] on possibly-undefined strings. *)
Definition or_else (a : option str) (b : option str) : option str :=
  match a with
  | Some s => if truthy s then a else b
  | None => b
  end.

End JS.

(** ** Regular expressions *)

Module RegExp.
Import JS.
Local Open Scope N_scope.

Inductive citem : Type :=
| CChar (c : N)
| CSpace
| CNonSpace.

Inductive regex : Type :=
| REmpty
| RChar (c : N)
| RDot
| RSpace
| RClass (negated : bool) (items : list citem)
| RWordBoundary
| RBegin
| REnd
| RSeq (r1 r2 : regex)
| RAlt (r1 r2 : regex)
| ROpt (r : regex)
| RStar (greedy : bool) (r : regex)
| RPlus (greedy : bool) (r : regex).

Record flags : Type := { ignoreCase : bool; multiline : bool }.

Definition flags_none : flags := {| ignoreCase := false; multiline := false |}.
Definition flags_i : flags := {| ignoreCase := true; multiline := false |}.
Definition flags_m : flags := {| ignoreCase := false; multiline := true |}.

(** A position in the input: the code units already passed (nearest first)
    and those still ahead. *)
Record state : Type := { before : list N; after : list N }.

Definition char_eq (fl : flags) (c d : N) : bool :=
  if ignoreCase fl then canon c =? canon d else c =? d.

Definition item_has (fl : flags) (d : N) (i : citem) : bool :=
  match i with
  | CChar c => char_eq fl c d
  | CSpace => isSpace d
  | CNonSpace => negb (isSpace d)
  end.

Definition class_has (fl : flags) (negated : bool) (items : list citem) (d : N) : bool :=
  xorb negated (existsb (item_has fl d) items).

(** One code unit consumed when it satisfies [p]. *)
Definition step_if (p : N -> bool) (x : state) : list state :=
  match after x with
  | d :: rest => if p d then [{| before := d :: before x; after := rest |}] else []
  | [] => []
  end.

Definition word_at (l : list N) : bool :=
  match l with
  | c :: _ => isWordChar c
  | [] => false
  end.

Definition line_edge (l : list N) : bool :=
  match l with
  | c :: _ => isLineTerminator c
  | [] => true
  end.

Definition is_nil (l : list N) : bool :=
  match l with [] => true | _ => false end.

Definition guard (b : bool) (x : state) : list state := if b then [x] else [].

(** An iteration of a quantifier counts only when it consumed input. *)
Definition progress (x y : state) : bool :=
  Nat.ltb (length (after y)) (length (after x)).

(** The iterations of [*]: at most one per remaining code unit, since each
    must consume input.  Greedy repetition lists the longer matches first,
    lazy repetition the shorter ones. *)
Fixpoint repeat_loop (greedy : bool) (step : state -> list state)
         (fuel : nat) (x : state) : list state :=
  match fuel with
  | O => [x]
  | S n =>
      let more :=
        flat_map (fun y => if progress x y then repeat_loop greedy step n y else [])
                 (step x) in
      if greedy then more ++ [x] else x :: more
  end.

(** All end positions of a match of [r] started at [x], in the order the
    backtracking matcher tries them. *)
Fixpoint ends (fl : flags) (r : regex) (x : state) : list state :=
  match r with
  | REmpty => [x]
  | RChar c => step_if (char_eq fl c) x
  | RDot => step_if (fun d => negb (isLineTerminator d)) x
  | RSpace => step_if isSpace x
  | RClass negated items => step_if (class_has fl negated items) x
  | RWordBoundary => guard (xorb (word_at (before x)) (word_at (after x))) x
  | RBegin =>
      guard (if multiline fl then line_edge (before x) else is_nil (before x)) x
  | REnd =>
      guard (if multiline fl then line_edge (after x) else is_nil (after x)) x
  | RSeq r1 r2 => flat_map (ends fl r2) (ends fl r1 x)
  | RAlt r1 r2 => ends fl r1 x ++ ends fl r2 x
  | ROpt r1 => filter (progress x) (ends fl r1 x) ++ [x]
  | RStar greedy r1 => repeat_loop greedy (ends fl r1) (length (after x)) x
  | RPlus greedy r1 =>
      flat_map (fun y => repeat_loop greedy (ends fl r1) (length (after y)) y)
               (ends fl r1 x)
  end.

(** The text between two positions of the same input. *)
Definition matched_text (x y : state) : str :=
  firstn (length (after x) - length (after y))%nat (after x).

(** The leftmost match: the first start position at which the matcher
    succeeds, with the end position it prefers. *)
Fixpoint exec (fl : flags) (r : regex) (bef aft : list N) : option (state * state) :=
  let x := {| before := bef; after := aft |} in
  match ends fl r x with
  | y :: _ => Some (x, y)
  | [] =>
      match aft with
      | [] => None
      | c :: aft' => exec fl r (c :: bef) aft'
      end
  end.

(** [s.match(r)] for a regular expression without the [g] flag, reduced to
    element 0 of the result: the matched text, or [None] for [null]. *)
Definition String_match (fl : flags) (r : regex) (s : str) : option str :=
  match exec fl r [] s with
  | Some (x, y) => Some (matched_text x y)
  | None => None
  end.

(** [s.replace(r, repl)] for a regular expression with the [g] flag and a
    replacement string without [$] patterns.  [skip] counts the code units
    of the current match that are still to be dropped. *)
Fixpoint replace_loop (fl : flags) (r : regex) (repl : str)
         (skip : nat) (bef aft : list N) : str :=
  match skip with
  | S k =>
      match aft with
      | [] => []
      | c :: aft' => replace_loop fl r repl k (c :: bef) aft'
      end
  | O =>
      match ends fl r {| before := bef; after := aft |} with
      | y :: _ =>
          repl ++
          match aft with
          | [] => []
          | c :: aft' =>
              match (length aft - length (after y))%nat with
              | O => c :: replace_loop fl r repl 0%nat (c :: bef) aft'
              | S k => replace_loop fl r repl k (c :: bef) aft'
              end
          end
      | [] =>
          match aft with
          | [] => []
          | c :: aft' => c :: replace_loop fl r repl 0%nat (c :: bef) aft'
          end
      end
  end.

Definition String_replace_all (fl : flags) (r : regex) (repl : str) (s : str) : str :=
  replace_loop fl r repl 0%nat [] s.

(** [s.replace(r, f)] for a regular expression without the [g] flag and a
    replacement computed from the matched text: only the leftmost match is
    replaced. *)
Definition String_replace_first (fl : flags) (r : regex) (f : str -> str) (s : str) : str :=
  match exec fl r [] s with
  | Some (x, y) => rev (before x) ++ f (matched_text x y) ++ after y
  | None => s
  end.

(** A pattern made of three capture groups in sequence, [(g1)(g2)(g3)]:
    the end positions of the three groups, in the matcher's order. *)
Definition ends3 (fl : flags) (g1 g2 g3 : regex) (x : state)
  : list (state * state * state) :=
  flat_map
    (fun y1 =>
       flat_map (fun y2 => map (fun y3 => (y1, y2, y3)) (ends fl g3 y2))
                (ends fl g2 y1))
    (ends fl g1 x).

Fixpoint exec_groups (fl : flags) (g1 g2 g3 : regex) (bef aft : list N)
  : option (state * (state * state * state)) :=
  let x := {| before := bef; after := aft |} in
  match ends3 fl g1 g2 g3 x with
  | y :: _ => Some (x, y)
  | [] =>
      match aft with
      | [] => None
      | c :: aft' => exec_groups fl g1 g2 g3 (c :: bef) aft'
      end
  end.

(** [s.replace(/(g1)(g2)(g3)/, (_match, a, b, c) => f a b c)]. *)
Definition String_replace_groups (fl : flags) (g1 g2 g3 : regex)
           (f : str -> str -> str -> str) (s : str) : str :=
  match exec_groups fl g1 g2 g3 [] s with
  | Some (x, (y1, y2, y3)) =>
      rev (before x)
      ++ f (matched_text x y1) (matched_text y1 y2) (matched_text y2 y3)
      ++ after y3
  | None => s
  end.

(** Pattern syntax. *)
Definition letters (p : list N) : regex :=
  fold_right (fun c r => RSeq (RChar c) r) REmpty p.

Definition word (s : string) : regex := letters (lit s).

Fixpoint seq (l : list regex) : regex :=
  match l with
  | [] => REmpty
  | [r] => r
  | r :: l' => RSeq r (seq l')
  end.

Fixpoint alt (l : list regex) : regex :=
  match l with
  | [] => RClass false []
  | [r] => r
  | r :: l' => RAlt r (alt l')
  end.

Definition ws1 : regex := RPlus true RSpace.      (* \s+ *)
Definition ws0 : regex := RStar true RSpace.      (* \s* *)
Definition wb : regex := RWordBoundary.           (* \b  *)
Definition words (l : list string) : regex := alt (map word l).

End RegExp.

(** ** The host's message structures (from @opencode-ai/sdk) *)

Module Host.
Import JS.

(** A message segment.  [TextPart] is the member of the union whose type
    tag is ["text"]; [OtherPart] stands for every other member (files, tool
    calls, ...), none of which carries that tag. *)
Inductive Part : Type :=
| TextPart (id sessionID messageID : str) (text : str) (synthetic : option bool)
| OtherPart (kind : string) (id sessionID messageID : str).

Definition is_text (p : Part) : bool :=
  match p with TextPart _ _ _ _ _ => true | OtherPart _ _ _ _ => false end.

Definition part_text (p : Part) : str :=
  match p with TextPart _ _ _ t _ => t | OtherPart _ _ _ _ => [] end.

Definition part_id (p : Part) : str :=
  match p with TextPart i _ _ _ _ => i | OtherPart _ i _ _ => i end.

Record Input : Type := { sessionID : str }.

End Host.

(** ** Effects: console output, the output's segment array, exceptions *)

Module Effect.
Import JS Host.

Inductive match_type : Type := search | research.

(** Exceptions raised while a message is processed. *)
Inductive exn : Type :=
| TypeError_not_a_function (callee : string).

(** Lines written to the console, by the logger or directly. *)
Inductive console_line : Type :=
| LogNoTextParts
| LogEmptyMessage
| LogProcessing (messagePreview : str) (partsCount : nat)
| LogDetected (type : match_type) (matchedText : str)
| LogInjected (type : match_type) (duration : Z) (matchedText : str)
| LogError (error : exn)
| WarnInvalidPattern (pattern : str).

(** The mutable world of one hook invocation: what has been written to the
    console, and the segment array [output.parts]. *)
Record world : Type := { console : list console_line; parts : list Part }.

Inductive completion (A : Type) : Type :=
| Normal (a : A)
| Throw (e : exn).
Arguments Normal {A} a.
Arguments Throw {A} e.

(** Computations that act on the world and may throw. *)
Definition M (A : Type) : Type := world -> completion A * world.

Definition ret {A} (a : A) : M A := fun w => (Normal a, w).

Definition bind {A B} (m : M A) (f : A -> M B) : M B :=
  fun w =>
    match m w with
    | (Normal a, w') => f a w'
    | (Throw e, w') => (Throw e, w')
    end.

Definition throw {A} (e : exn) : M A := fun w => (Throw e, w).

(** [console.log], [console.warn]. *)
Definition write (l : console_line) : M unit :=
  fun w => (Normal tt, {| console := console w ++ [l]; parts := parts w |}).

(** Reading [output.parts]. *)
Definition get_parts : M (list Part) := fun w => (Normal (parts w), w).

(** [output.parts.push(p)]. *)
Definition push (p : Part) : M unit :=
  fun w => (Normal tt, {| console := console w; parts := parts w ++ [p] |}).

(** [try { body } catch (error) { handler(error) }]. *)
Definition try_catch {A} (body : M A) (handler : exn -> M A) : M A :=
  fun w =>
    match body w with
    | (Normal a, w') => (Normal a, w')
    | (Throw e, w') => handler e w'
    end.

Declare Scope eff_scope.
Delimit Scope eff_scope with eff.
Notation "x <- m ;; k" := (bind m (fun x => k))
  (at level 61, m at next level, right associativity) : eff_scope.
Notation "m ;;; k" := (bind m (fun _ => k))
  (at level 61, right associativity) : eff_scope.

End Effect.

(** ** src/config.ts *)

Module Config.
Import JS.

(** The value found under [keywords.customPatterns]: the configuration file
    is parsed without validation, so it may be an array of pattern sources
    or any other JSON value. *)
Inductive patterns_value : Type :=
| PatArray (l : list str)
| PatOther.

Record KeywordsConfig : Type := {
  enabled : option bool;
  customPatterns : option patterns_value
}.

(** [Partial<PerplexityConfig>]: what the configuration file provides. *)
Record PartialConfig : Type := {
  file_apiKey : option str;
  file_mcpUrl : option str;
  file_model : option str;
  file_keywords : option KeywordsConfig
}.

Record PerplexityConfig : Type := {
  apiKey : str;
  mcpUrl : option str;
  model : option str;
  keywords : option KeywordsConfig
}.

(** [process.env]. *)
Record Env : Type := {
  PERPLEXITY_API_KEY : option str;
  PERPLEXITY_MCP_URL : option str;
  PERPLEXITY_MODEL : option str;
  PERPLEXITY_DEBUG : option str
}.

Definition or_default (a : option str) (d : str) : str :=
  match or_else a None with
  | Some s => s
  | None => d
  end.

(** [x ?? d]. *)
Definition nullish {A} (x : option A) (d : A) : A :=
  match x with Some a => a | None => d end.

(** [o?.f]. *)
Definition opt_field {A B} (o : option A) (f : A -> option B) : option B :=
  match o with Some a => f a | None => None end.

Definition loadConfig (fileConfig : PartialConfig) (env : Env) : PerplexityConfig :=
  let apiKey :=
    or_default (or_else (file_apiKey fileConfig) (PERPLEXITY_API_KEY env)) [] in
  let mcpUrl :=
    or_default (or_else (file_mcpUrl fileConfig) (PERPLEXITY_MCP_URL env))
               (lit "stdio://perplexity-mcp") in
  let model :=
    or_default (or_else (file_model fileConfig) (PERPLEXITY_MODEL env)) (lit "sonar") in
  let keywords := {|
    enabled := Some (nullish (opt_field (file_keywords fileConfig) enabled) true);
    customPatterns :=
      Some (nullish (opt_field (file_keywords fileConfig) customPatterns) (PatArray []))
  |} in
  {| apiKey := apiKey; mcpUrl := Some mcpUrl; model := Some model;
     keywords := Some keywords |}.

Definition isConfigured (config : PerplexityConfig) : bool := truthy (apiKey config).

End Config.

(** ** src/services/logger.ts *)

Module Logger.
Import JS Effect Config.

(** [process.env.PERPLEXITY_DEBUG === "true"]. *)
Definition DEBUG (env : Env) : bool :=
  match PERPLEXITY_DEBUG env with
  | Some v => str_eqb v (lit "true")
  | None => false
  end.

Definition debug (DEBUG : bool) (l : console_line) : M unit :=
  if DEBUG then write l else ret tt.

End Logger.

(** ** src/keywords.ts *)

Module Keywords.
Import JS RegExp Effect Config.
Local Open Scope string_scope.
Local Open Scope list_scope.
Local Open Scope eff_scope.

Record KeywordMatch : Type := { type : match_type; matchedText : str }.

(** A compiled regular expression without the [g] flag, as seen through
    [String.prototype.match]: the matched text, if any. *)
Definition RegExpObject := str -> option str.

(** A regular expression literal with the [i] flag. *)
Definition literal_i (r : regex) : RegExpObject := String_match flags_i r.

Definition SEARCH_SOURCES : list regex := [
  (* Direct search requests *)
  seq [wb; word "search"; ws1; ROpt (seq [word "the"; ws1]);
       words ["web"; "internet"; "online"]; wb];
  seq [wb; word "web"; ws1; word "search"; wb];
  seq [wb; word "look"; ws1; word "up"; wb];
  seq [wb; word "find"; ws1; ROpt (seq [word "me"; ws1]);
       words ["information"; "info"; "details"]; ws1;
       words ["about"; "on"; "for"]; wb];
  seq [wb; word "what"; alt [word "'s"; seq [ws1; word "is"]]; ws1;
       ROpt (seq [word "the"; ws1]); words ["latest"; "current"; "recent"]; wb];
  (* Research-oriented *)
  seq [wb; word "research"; wb];
  seq [wb; word "investigate"; wb];
  seq [wb; word "find"; ws1; word "out"; wb];
  (* News and current events *)
  seq [wb; words ["latest"; "recent"; "current"]; ws1;
       words ["news"; "updates"; "developments"]; wb];
  seq [wb; word "what"; alt [word "'s"; seq [ws1; word "is"]]; ws1;
       word "happening"; wb];
  seq [wb; word "breaking"; ws1; word "news"; wb];
  (* Documentation and reference *)
  seq [wb; word "find"; ws1; ROpt (seq [word "the"; ws1]); word "doc";
       ROpt (word "s"); wb];
  seq [wb; word "documentation"; ws1; word "for"; wb];
  seq [wb; word "how"; ws1; word "do"; ws1; words ["I"; "you"; "we"]; wb];
  seq [wb; word "what"; ws1; word "is"; ws1; word "the"; ws1; word "best"; ws1;
       word "way"; wb];
  (* Factual queries *)
  seq [wb; word "who"; ws1; words ["is"; "was"; "are"; "were"]; wb];
  seq [wb; word "when"; ws1; words ["did"; "was"; "is"; "will"]; wb];
  seq [wb; word "where"; ws1; words ["is"; "are"; "can"; "do"]; wb];
  seq [wb; word "how"; ws1; words ["much"; "many"; "long"; "far"]; wb];
  (* Comparison and alternatives *)
  seq [wb; word "compare"; wb];
  seq [wb; word "alternative"; ROpt (word "s"); ws1; word "to"; wb];
  seq [wb; word "vs"; ROpt (word "."); wb];
  seq [wb; word "versus"; wb];
  (* Perplexity-specific triggers *)
  seq [wb; word "perplexity"; wb];
  seq [wb; word "ask"; ws1; word "perplexity"; wb];
  seq [wb; word "use"; ws1; word "perplexity"; wb]
].

(** More specific research patterns (deeper analysis). *)
Definition RESEARCH_SOURCES : list regex := [
  seq [wb; word "deep"; ws1; words ["dive"; "research"; "analysis"]; wb];
  seq [wb; word "comprehensive"; ws1; words ["search"; "research"; "analysis"]; wb];
  seq [wb; word "thorough"; ROpt (word "ly"); ws1;
       words ["research"; "investigate"; "search"]; wb];
  seq [wb; word "in"; RClass false [CChar 45; CChar 32]; word "depth"; ws1;
       words ["research"; "analysis"]; wb];
  seq [wb; word "detailed"; ws1; words ["research"; "analysis"; "report"]; wb]
].

Definition SEARCH_PATTERNS : list RegExpObject := map literal_i SEARCH_SOURCES.
Definition RESEARCH_PATTERNS : list RegExpObject := map literal_i RESEARCH_SOURCES.

Definition fenced_code : regex :=
  seq [word "```"; RStar false (RClass false [CSpace; CNonSpace]); word "```"].

Definition inline_code : regex :=
  seq [RChar backtick; RPlus true (RClass true [CChar backtick]); RChar backtick].

(** The character classes of the two patterns: [[^`]] and [[\s\S]]. *)
Definition code_unit : N -> bool := class_has flags_none true [CChar backtick].
Definition any_unit : N -> bool := class_has flags_none false [CSpace; CNonSpace].

Definition removeCodeBlocks (text : str) : str :=
  (* Remove fenced code blocks *)
  let result := String_replace_all flags_none fenced_code [] text in
  (* Remove inline code *)
  String_replace_all flags_none inline_code [] result.

(** The first pattern of a list that matches, as the [for ... of] loops
    with their early [return] find it. *)
Fixpoint first_match (patterns : list RegExpObject) (s : str) : option str :=
  match patterns with
  | [] => None
  | pattern :: rest =>
      match pattern s with
      | Some m => Some m
      | None => first_match rest s
      end
  end.

Section Detector.

(** [new RegExp(pattern, "i")] of the host engine: the compiled expression,
    or [None] when the constructor throws a SyntaxError. *)
Variable RegExp_new : str -> option RegExpObject.

(** The [map] callback followed by the [filter], pattern by pattern. *)
Fixpoint compile_each (patterns : list str) : M (list RegExpObject) :=
  match patterns with
  | [] => ret []
  | pattern :: rest =>
      match RegExp_new pattern with
      | Some r =>
          rs <- compile_each rest ;; ret (r :: rs)
      | None =>
          write (WarnInvalidPattern pattern) ;;; compile_each rest
      end
  end.

Definition compileCustomPatterns (config : PerplexityConfig) : M (list RegExpObject) :=
  match nullish (opt_field (keywords config) customPatterns) (PatArray []) with
  | PatArray customPatterns => compile_each customPatterns
  | PatOther => throw (TypeError_not_a_function "customPatterns.map")
  end.

Definition detection_enabled (config : PerplexityConfig) : bool :=
  nullish (opt_field (keywords config) enabled) false.

Definition detectKeywords (config : PerplexityConfig) (message : str)
  : M (option KeywordMatch) :=
  if negb (detection_enabled config) then ret None
  else
    let cleanedMessage := removeCodeBlocks message in
    customPatterns <- compileCustomPatterns config ;;
    (* Check research patterns first (more specific) *)
    match first_match RESEARCH_PATTERNS cleanedMessage with
    | Some m => ret (Some {| type := research; matchedText := m |})
    | None =>
        (* Check custom patterns *)
        match first_match customPatterns cleanedMessage with
        | Some m => ret (Some {| type := search; matchedText := m |})
        | None =>
            (* Check search patterns *)
            match first_match SEARCH_PATTERNS cleanedMessage with
            | Some m => ret (Some {| type := search; matchedText := m |})
            | None => ret None
            end
        end
    end.

(** The compiled custom patterns, and the warnings for the rejected ones,
    as [compileCustomPatterns] produces them. *)
Definition valid_patterns (patterns : list str) : list RegExpObject :=
  flat_map (fun p => match RegExp_new p with Some r => [r] | None => [] end) patterns.

Definition invalid_warnings (patterns : list str) : list console_line :=
  flat_map (fun p => match RegExp_new p with
                     | Some _ => []
                     | None => [WarnInvalidPattern p]
                     end) patterns.

End Detector.

(** The three loops of [detectKeywords], over the cleaned message. *)
Definition scan_patterns (customPatterns : list RegExpObject) (cleanedMessage : str)
  : option KeywordMatch :=
  match first_match RESEARCH_PATTERNS cleanedMessage with
  | Some m => Some {| type := research; matchedText := m |}
  | None =>
      match first_match customPatterns cleanedMessage with
      | Some m => Some {| type := search; matchedText := m |}
      | None =>
          match first_match SEARCH_PATTERNS cleanedMessage with
          | Some m => Some {| type := search; matchedText := m |}
          | None => None
          end
      end
  end.

(** The configuration with another list of custom pattern sources. *)
Definition with_customPatterns (config : PerplexityConfig) (patterns : list str)
  : PerplexityConfig :=
  {| apiKey := apiKey config; mcpUrl := mcpUrl config; model := model config;
     keywords := Some {| enabled := opt_field (keywords config) enabled;
                         customPatterns := Some (PatArray patterns) |} |}.

(** The custom pattern sources of a configuration that declares them as an
    array (or not at all), as the interface [PerplexityConfig] demands. *)
Definition declared_patterns (config : PerplexityConfig) : patterns_value :=
  nullish (opt_field (keywords config) customPatterns) (PatArray []).

(** The scan order the specification gives: research patterns, then the
    custom patterns, then the built-in search patterns, each with the
    category it reports. *)
Definition scan_order (customs : list RegExpObject) : list (match_type * RegExpObject) :=
  map (pair research) RESEARCH_PATTERNS
  ++ map (pair search) customs
  ++ map (pair search) SEARCH_PATTERNS.





End Keywords.

(** ** Messages with code spans *)

Module Markdown.
Import JS.

Inductive segment : Type :=
| Plain (text : str)
| InlineCode (code : str)
| FencedCode (code : str).

Definition fence : str := [backtick; backtick; backtick].

Definition render_segment (s : segment) : str :=
  match s with
  | Plain t => t
  | InlineCode c => [backtick] ++ c ++ [backtick]
  | FencedCode c => fence ++ c ++ fence
  end.

(** The message as typed. *)
Definition render (segs : list segment) : str := flat_map render_segment segs.

(** The text outside the code spans. *)
Definition plain_text (segs : list segment) : str :=
  flat_map (fun s => match s with Plain t => t | _ => [] end) segs.

Definition no_backtick (s : str) : bool := forallb (fun c => negb (N.eqb c backtick)) s.

Definition without_fences (segs : list segment) : list segment :=
  filter (fun s => match s with FencedCode _ => false | _ => true end) segs.

(** Plain text and code are free of backticks, an inline span is not
    empty, and the backtick closing an inline span is not followed by two
    more (which would open a fence). *)
Fixpoint well_formed (segs : list segment) : bool :=
  match segs with
  | [] => true
  | Plain t :: rest => no_backtick t && well_formed rest
  | InlineCode c :: rest =>
      negb (RegExp.is_nil c) && no_backtick c
      && negb (startsWith (render rest) [backtick; backtick])
      && well_formed rest
  | FencedCode c :: rest => no_backtick c && well_formed rest
  end.

End Markdown.

(** ** src/index.ts *)

Module Plugin.
Import JS RegExp Host Effect Config Keywords.
Local Open Scope string_scope.
Local Open Scope list_scope.
Local Open Scope eff_scope.

Definition quoted (s : string) : str := [dquote] ++ lit s ++ [dquote].

Definition getSearchNudge : str :=
  lit "<perplexity-hint>
The user's message suggests they want to search the web for information.

You have access to the Perplexity MCP server with the following tool:
- **perplexity_search_web**: Search the web using Perplexity AI
  - Parameters:
    - query (required): The search query
    - recency (optional): Filter by " ++ quoted "day" ++ lit ", " ++ quoted "week"
  ++ lit ", " ++ quoted "month" ++ lit ", or " ++ quoted "year" ++ lit "

Use this tool to find current, accurate information from the web. Perplexity provides AI-powered search with citations.

Example usage:
- For recent news: use recency=" ++ quoted "day" ++ lit " or recency=" ++ quoted "week"
  ++ lit "
- For general information: use recency=" ++ quoted "month" ++ lit " (default)
- For historical context: use recency=" ++ quoted "year" ++ lit "
</perplexity-hint>".

Definition getResearchNudge : str :=
  lit "<perplexity-hint>
The user wants comprehensive research on a topic.

You have access to the Perplexity MCP server with the **perplexity_search_web** tool.

For in-depth research:
1. Break the topic into multiple focused queries
2. Use different recency filters to get both recent and historical context
3. Cross-reference information from multiple searches
4. Synthesize findings into a comprehensive response with citations

The Perplexity API returns results with citations - always include these in your response to support your findings.
</perplexity-hint>".

Definition type_name (t : match_type) : str :=
  match t with search => lit "search" | research => lit "research" end.

(** Number-to-string conversion of an integral time value. *)
Definition decimal (z : Z) : str := lit (NilZero.string_of_int (Z.to_int z)).

(** [`perplexity-${match.type}-nudge-${Date.now()}`]. *)
Definition nudge_id (t : match_type) (now : Z) : str :=
  lit "perplexity-" ++ type_name t ++ lit "-nudge-" ++ decimal now.

(** The three readings of [Date.now()] one invocation can make. *)
Record Clock : Type := { at_start : Z; at_id : Z; at_end : Z }.

Section Hook.

Variable RegExp_new : str -> option RegExpObject.
Variable config : PerplexityConfig.
Variable env : Env.

Definition debug (l : console_line) : M unit := Logger.debug (Logger.DEBUG env) l.

Definition nudge_part (clock : Clock) (input : Input) (message_id : str)
           (m : KeywordMatch) : Part :=
  let nudgeText :=
    match type m with research => getResearchNudge | search => getSearchNudge end in
  TextPart (nudge_id (type m) (at_id clock)) (sessionID input) message_id
           nudgeText (Some true).

(** The body of the [try] block. *)
Definition process_message (clock : Clock) (input : Input) (message_id : str) : M unit :=
  all_parts <- get_parts ;;
  let textParts := filter is_text all_parts in
  if Nat.eqb (length textParts) 0 then
    debug LogNoTextParts
  else
    let userMessage := join [newline] (map part_text textParts) in
    if negb (truthy (trim userMessage)) then
      debug LogEmptyMessage
    else
      debug (LogProcessing (firstn 100 userMessage) (length all_parts)) ;;;
      found <- detectKeywords RegExp_new config userMessage ;;
      match found with
      | Some m =>
          debug (LogDetected (type m) (matchedText m)) ;;;
          push (nudge_part clock input message_id m) ;;;
          let duration := (at_end clock - at_start clock)%Z in
          debug (LogInjected (type m) duration (matchedText m))
      | None => ret tt
      end.

(** The ["chat.message"] handler. *)
Definition chat_message (clock : Clock) (input : Input) (message_id : str) : M unit :=
  if negb (isConfigured config) then ret tt
  else
    try_catch (process_message clock input message_id)
              (fun error => debug (LogError error)).

(** The answer of the detector on a message, when it completes normally. *)
Definition detected (message : str) : option KeywordMatch :=
  match fst (detectKeywords RegExp_new config message {| console := []; parts := [] |}) with
  | Normal found => found
  | Throw _ => None
  end.

(** What the specification lets the hook add to the segments [existing]:
    one nudge when the plugin is configured, the message has text and the
    detector matches it; nothing otherwise. *)
Definition appended (clock : Clock) (input : Input) (message_id : str)
           (existing : list Part) : list Part :=
  let textParts := filter is_text existing in
  let userMessage := join [newline] (map part_text textParts) in
  if isConfigured config && negb (Nat.eqb (length textParts) 0)
     && truthy (trim userMessage)
  then
    match detected userMessage with
    | Some m => [nudge_part clock input message_id m]
    | None => []
    end
  else [].

End Hook.

End Plugin.

(** ** JSON values and [JSON.stringify(v, null, 2)] *)

Module JSON.
Import JS.
Local Open Scope N_scope.

(** A parsed JSON document.  A number is carried by its rendering as a
    JavaScript number; the fields of an object are in enumeration order. *)
Inductive value : Type :=
| JNull
| JBool (b : bool)
| JNumber (text : str)
| JString (s : str)
| JArray (items : list value)
| JObject (fields : list (str * value)).

Definition hex_digit (n : N) : N := if n <? 10 then 48 + n else 87 + n.

Definition u_escape (c : N) : str :=
  [92; 117; hex_digit (c / 4096); hex_digit ((c / 256) mod 16);
   hex_digit ((c / 16) mod 16); hex_digit (c mod 16)].

Definition is_high_surrogate (c : N) : bool := (55296 <=? c) && (c <=? 56319).
Definition is_low_surrogate (c : N) : bool := (56320 <=? c) && (c <=? 57343).

Definition escape_unit (c : N) : str :=
  if c =? 8 then [92; 98]
  else if c =? 9 then [92; 116]
  else if c =? 10 then [92; 110]
  else if c =? 12 then [92; 102]
  else if c =? 13 then [92; 114]
  else if c =? 34 then [92; 34]
  else if c =? 92 then [92; 92]
  else if c <? 32 then u_escape c
  else [c].

Fixpoint quote_units (s : str) : str :=
  match s with
  | [] => []
  | c :: rest =>
      if is_high_surrogate c then
        match rest with
        | d :: rest' =>
            if is_low_surrogate d then c :: d :: quote_units rest'
            else u_escape c ++ quote_units rest
        | [] => u_escape c
        end
      else if is_low_surrogate c then u_escape c ++ quote_units rest
      else escape_unit c ++ quote_units rest
  end.

(** QuoteJSONString. *)
Definition quote (s : str) : str := [dquote] ++ quote_units s ++ [dquote].

Definition spaces (n : nat) : str := repeat 32 n.

Definition finite_number (text : str) : bool :=
  negb (str_eqb text (lit "Infinity") || str_eqb text (lit "-Infinity")
        || str_eqb text (lit "NaN")).

Definition block (open close : N) (indent : nat) (entries : list str) : str :=
  match entries with
  | [] => [open; close]
  | _ =>
      [open; newline] ++ spaces (indent + 2)
      ++ join ([44; newline] ++ spaces (indent + 2)) entries
      ++ [newline] ++ spaces indent ++ [close]
  end.

(** Serialization with a gap of two spaces, at nesting depth [indent]. *)
Fixpoint serialize (indent : nat) (v : value) : str :=
  match v with
  | JNull => lit "null"
  | JBool b => if b then lit "true" else lit "false"
  | JNumber text => if finite_number text then text else lit "null"
  | JString s => quote s
  | JArray items => block 91 93 indent (map (serialize (indent + 2)) items)
  | JObject fields =>
      block 123 125 indent
            (map (fun kv => quote (fst kv) ++ [58; 32] ++ serialize (indent + 2) (snd kv))
                 fields)
  end.

Definition stringify (v : value) : str := serialize 0 v.

(** ToBoolean. *)
Definition truthy (v : value) : bool :=
  match v with
  | JNull => false
  | JBool b => b
  | JNumber text => negb (str_eqb text (lit "0") || str_eqb text (lit "NaN"))
  | JString s => JS.truthy s
  | JArray _ | JObject _ => true
  end.

Fixpoint lookup (k : str) (fields : list (str * value)) : option value :=
  match fields with
  | [] => None
  | (k', v) :: rest => if str_eqb k' k then Some v else lookup k rest
  end.

(** Assignment to a property named by a non-numeric key: an existing
    property keeps its place, a new one goes last. *)
Fixpoint assign (k : str) (v : value) (fields : list (str * value)) : list (str * value) :=
  match fields with
  | [] => [(k, v)]
  | (k', v') :: rest =>
      if str_eqb k' k then (k, v) :: rest else (k', v') :: assign k v rest
  end.

(** Reading the property [k] of [v], for a name [k] that is neither an
    array index nor a built-in property: [undefined] is [Some None], and
    [None] is the TypeError raised on [null]. *)
Definition get (v : value) (k : str) : option (option value) :=
  match v with
  | JNull => None
  | JObject fields => Some (lookup k fields)
  | _ => Some None
  end.

(** [v[k] = x] in strict mode, as [JSON.stringify] later sees [v]: a named
    property set on an array is not serialized, and the assignment throws
    on a primitive ([None]). *)
Definition set (v : value) (k : str) (x : value) : option value :=
  match v with
  | JObject fields => Some (JObject (assign k x fields))
  | JArray items => Some (JArray items)
  | _ => None
  end.

End JSON.

(** ** src/cli.ts *)

Module Installer.
Import JS RegExp JSON.
Local Open Scope string_scope.
Local Open Scope list_scope.

(** The files of the file system, by path. *)
Definition fs := str -> option str.

Definition existsSync (path : str) (f : fs) : bool :=
  match f path with Some _ => true | None => false end.

Definition writeFileSync (path data : str) (f : fs) : fs :=
  fun q => if str_eqb q path then Some data else f q.

Definition quoted (s : str) : str := [dquote] ++ s ++ [dquote].

Definition PLUGIN_NAME : str := lit "perplexity-opencode@latest".

Definition bt (s : string) : str := [backtick] ++ lit s ++ [backtick].
Definition fence : str := [backtick; backtick; backtick].
Definition q (s : string) : str := quoted (lit s).

Definition PERPLEXITY_AGENTS_INSTRUCTIONS : str :=
  lit "
---
name: perplexity
description: Use Perplexity MCP server for web search and research. Invoke when needing to search the web for current information, news, documentation, or factual queries.
---

# How to use Perplexity

Perplexity provides AI-powered web search with citations. Use it when you need up-to-date information from the web.

## When to Use Perplexity

- **Current events and news**: Latest updates, breaking news, recent developments
- **Factual queries**: Who, what, when, where, how questions
- **Documentation lookups**: Finding official docs, API references, guides
- **Comparisons**: Comparing technologies, products, alternatives
- **Research**: Investigating topics, gathering information

## Available Tool

### perplexity_search_web

Search the web using Perplexity AI.

**Parameters:**
- " ++ bt "query" ++ lit " (required): The search query
- " ++ bt "recency" ++ lit " (optional): Filter by time period
  - " ++ bt "day" ++ lit ": Last 24 hours
  - " ++ bt "week" ++ lit ": Last 7 days
  - " ++ bt "month" ++ lit ": Last 30 days (default)
  - " ++ bt "year" ++ lit ": Last year

**Example Usage:**

" ++ fence ++ lit "
// For recent news
perplexity_search_web(query=" ++ q "latest TypeScript 5.4 features" ++ lit ", recency="
  ++ q "week" ++ lit ")

// For general information
perplexity_search_web(query=" ++ q "best practices for React error boundaries" ++ lit ")

// For historical context
perplexity_search_web(query=" ++ q "history of JavaScript frameworks" ++ lit ", recency="
  ++ q "year" ++ lit ")
" ++ fence ++ lit "

## Best Practices

1. **Be specific**: Use clear, focused queries for better results
2. **Use recency filters**: Match the filter to your needs
   - Breaking news: " ++ bt "day" ++ lit "
   - Recent developments: " ++ bt "week" ++ lit "
   - General info: " ++ bt "month" ++ lit "
   - Historical: " ++ bt "year" ++ lit "
3. **Include citations**: Perplexity returns sources - always cite them in your responses
4. **Multiple queries**: For comprehensive research, use multiple targeted searches
5. **Cross-reference**: For important facts, verify across multiple queries
".

Definition block_comment : regex :=
  seq [word "/*"; RStar false (RClass false [CSpace; CNonSpace]); word "*/"].

Definition line_comment : regex := seq [word "//"; RStar true RDot; REnd].

Definition stripJsoncComments (content : str) : str :=
  String_replace_all flags_m line_comment []
    (String_replace_all flags_none block_comment [] content).

(** The [perplexity] entry of the [mcp] table. *)
Definition mcp_entry (apiKey : str) : value :=
  JObject [
    (lit "type", JString (lit "local"));
    (lit "command", JArray [JString (lit "uv"); JString (lit "tool");
                            JString (lit "run"); JString (lit "perplexity-mcp")]);
    (lit "environment", JObject [(lit "PERPLEXITY_API_KEY", JString apiKey)])
  ].

(** The three statements
    [plugins = config.plugin || []; plugins.push(PLUGIN_NAME); config.plugin = plugins],
    with [None] for a TypeError. *)
Definition register_plugin (config : value) : option value :=
  match get config (lit "plugin") with
  | None => None
  | Some found =>
      let plugins :=
        match found with
        | Some v => if truthy v then v else JArray []
        | None => JArray []
        end in
      match plugins with
      | JArray items => set config (lit "plugin") (JArray (items ++ [JString PLUGIN_NAME]))
      | _ => None
      end
  end.

(** [("plugin"\s*:\s*\[)], [([^\]]*?)] and [(\])]. *)
Definition plugin_open : regex :=
  seq [RChar dquote; word "plugin"; RChar dquote; ws0; word ":"; ws0; word "["].
Definition plugin_items : regex := RStar false (RClass true [CChar 93%N]).
Definition plugin_close : regex := word "]".

Definition insert_plugin (start middle end_ : str) : str :=
  let trimmed := trim middle in
  if is_nil trimmed then
    start ++ [newline] ++ lit "    " ++ quoted PLUGIN_NAME ++ [newline] ++ lit "  " ++ end_
  else
    start ++ trimEnd middle ++ lit "," ++ [newline] ++ lit "    " ++ quoted PLUGIN_NAME
    ++ [newline] ++ lit "  " ++ end_.

(** [/^(\s*\{)/]. *)
Definition leading_brace : regex := seq [RBegin; ws0; word "{"].

Section Install.

(** [join(homedir(), ".config", "opencode")]. *)
Variable OPENCODE_CONFIG_DIR : str.

(** [JSON.parse], with [None] for a SyntaxError. *)
Variable JSON_parse : str -> option value.

Definition path_join (dir : str) (name : string) : str := dir ++ lit "/" ++ lit name.

Definition PERPLEXITY_CONFIG_PATH : str := path_join OPENCODE_CONFIG_DIR "perplexity.json".
Definition AGENTS_MD_PATH : str := path_join OPENCODE_CONFIG_DIR "AGENTS.md".

Definition findOpencodeConfig (f : fs) : option str :=
  let candidates := [path_join OPENCODE_CONFIG_DIR "opencode.jsonc";
                     path_join OPENCODE_CONFIG_DIR "opencode.json"] in
  find (fun path => existsSync path f) candidates.

Definition addPluginToConfig (configPath : str) (f : fs) : fs * bool :=
  match f configPath with
  | None => (f, false)
  | Some content =>
      if includes content (lit "perplexity-opencode") then (f, true)
      else
        let jsonContent := stripJsoncComments content in
        match JSON_parse jsonContent with
        | None => (f, false)
        | Some parsed =>
            match register_plugin parsed with
            | None => (f, false)
            | Some config =>
                if endsWith configPath (lit ".jsonc") then
                  if includes content (q "plugin") then
                    let newContent :=
                      String_replace_groups flags_none plugin_open plugin_items
                                            plugin_close insert_plugin content in
                    (writeFileSync configPath newContent f, true)
                  else
                    let newContent :=
                      String_replace_first flags_none leading_brace
                        (fun m => m ++ [newline] ++ lit "  " ++ q "plugin" ++ lit ": ["
                                    ++ quoted PLUGIN_NAME ++ lit "],")
                        content in
                    (writeFileSync configPath newContent f, true)
                else
                  (writeFileSync configPath (stringify config) f, true)
            end
        end
  end.

Definition addMcpServerToConfig (configPath apiKey : str) (f : fs) : fs * bool :=
  match f configPath with
  | None => (f, false)
  | Some content =>
      let jsonContent := stripJsoncComments content in
      match JSON_parse jsonContent with
      | None => (f, false)
      | Some config =>
          match get config (lit "mcp") with
          | None => (f, false)
          | Some found =>
              let mcp :=
                match found with
                | Some v => if truthy v then v else JObject []
                | None => JObject []
                end in
              match get mcp (lit "perplexity") with
              | None => (f, false)
              | Some present =>
                  if match present with Some v => truthy v | None => false end
                  then (f, true)
                  else
                    (* Perplexity uses local transport with uv *)
                    match set mcp (lit "perplexity") (mcp_entry apiKey) with
                    | None => (f, false)
                    | Some mcp' =>
                        match set config (lit "mcp") mcp' with
                        | None => (f, false)
                        | Some config' =>
                            (writeFileSync configPath (stringify config') f, true)
                        end
                    end
              end
          end
      end
  end.

Definition createNewConfig (apiKey : str) (f : fs) : fs * bool :=
  let configPath := path_join OPENCODE_CONFIG_DIR "opencode.json" in
  let config := JObject [
    (lit "plugin", JArray [JString PLUGIN_NAME]);
    (lit "mcp", JObject [(lit "perplexity", mcp_entry apiKey)])
  ] in
  (writeFileSync configPath (stringify config) f, true).

Definition createPerplexityConfig (apiKey : str) (f : fs) : fs * bool :=
  let config := JObject [
    (lit "apiKey", JString apiKey);
    (lit "keywords", JObject [(lit "enabled", JBool true)])
  ] in
  (writeFileSync PERPLEXITY_CONFIG_PATH (stringify config) f, true).

Definition updateAgentsMd (f : fs) : fs * bool :=
  match f AGENTS_MD_PATH with
  | Some content =>
      if includes content (lit "# How to use Perplexity") then (f, true)
      else
        let newContent :=
          trimEnd content ++ [newline; newline] ++ trim PERPLEXITY_AGENTS_INSTRUCTIONS
          ++ [newline] in
        (writeFileSync AGENTS_MD_PATH newContent f, true)
  | None =>
      (writeFileSync AGENTS_MD_PATH (trim PERPLEXITY_AGENTS_INSTRUCTIONS ++ [newline]) f,
       true)
  end.

Record InstallOptions : Type := { tui : bool; option_apiKey : option str }.

(** What the user types at the prompts of the interactive mode: the key,
    and whether each question is answered with yes. *)
Record Answers : Type := {
  typed_apiKey : str;
  modify_config : bool;
  create_config : bool;
  update_agents : bool
}.

Definition install (options : InstallOptions) (env_apiKey : option str)
           (answers : Answers) (f : fs) : fs * Z :=
  (* Step 1: Get API key *)
  let apiKey0 := Config.or_default (or_else (option_apiKey options) env_apiKey) [] in
  let apiKey :=
    if negb (JS.truthy apiKey0) && tui options then trim (typed_apiKey answers)
    else apiKey0 in
  (* Step 2: Create Perplexity config file *)
  let f2 := if JS.truthy apiKey then fst (createPerplexityConfig apiKey f) else f in
  (* Step 3: Register plugin and MCP server in OpenCode config *)
  let register (configPath : str) (g : fs) : fs :=
    let g1 := fst (addPluginToConfig configPath g) in
    if JS.truthy apiKey then fst (addMcpServerToConfig configPath apiKey g1) else g1 in
  let f3 :=
    match findOpencodeConfig f2 with
    | Some configPath =>
        if tui options then
          if modify_config answers then register configPath f2 else f2
        else register configPath f2
    | None =>
        if tui options then
          if create_config answers && JS.truthy apiKey
          then fst (createNewConfig apiKey f2) else f2
        else if JS.truthy apiKey then fst (createNewConfig apiKey f2) else f2
    end in
  (* Step 4: Add Perplexity instructions to AGENTS.md *)
  let f4 :=
    if tui options then
      if update_agents answers then fst (updateAgentsMd f3) else f3
    else fst (updateAgentsMd f3) in
  (f4, 0%Z).

(** The settings document [createPerplexityConfig] writes. *)
Definition settings_document (apiKey : str) : str :=
  stringify (JObject [
    (lit "apiKey", JString apiKey);
    (lit "keywords", JObject [(lit "enabled", JBool true)])
  ]).

(** The API key [install] works with. *)
Definition effective_apiKey (options : InstallOptions) (env_apiKey : option str)
           (answers : Answers) : str :=
  let apiKey0 := Config.or_default (or_else (option_apiKey options) env_apiKey) [] in
  if negb (JS.truthy apiKey0) && tui options then trim (typed_apiKey answers)
  else apiKey0.

(** [config.mcp.perplexity] is present. *)
Definition mcp_registered (config : value) : bool :=
  match get config (lit "mcp") with
  | Some (Some mcp) =>
      truthy mcp &&
      match get mcp (lit "perplexity") with
      | Some (Some entry) => truthy entry
      | _ => false
      end
  | _ => false
  end.

(** An environment the installer has already configured: the host
    configuration names the plugin and has the MCP entry, and AGENTS.md
    holds the usage instructions. *)
Definition configured (f : fs) : Prop :=
  exists configPath content parsed agents,
    findOpencodeConfig f = Some configPath
    /\ f configPath = Some content
    /\ includes content (lit "perplexity-opencode") = true
    /\ JSON_parse (stripJsoncComments content) = Some parsed
    /\ mcp_registered parsed = true
    /\ f AGENTS_MD_PATH = Some agents
    /\ includes agents (lit "# How to use Perplexity") = true.

End Install.

(** A host configuration document and its parsed form, and the parser cut
    down to that one document. *)
Definition sample_host_config : str :=
  lit "{ " ++ q "plugin" ++ lit ": [" ++ quoted PLUGIN_NAME ++ lit "], " ++ q "mcp"
  ++ lit ": { " ++ q "perplexity" ++ lit ": { " ++ q "type" ++ lit ": " ++ q "local"
  ++ lit " } } }".

Definition sample_host_value : value :=
  JObject [
    (lit "plugin", JArray [JString PLUGIN_NAME]);
    (lit "mcp", JObject [(lit "perplexity", JObject [(lit "type", JString (lit "local"))])])
  ].

Definition sample_parse (text : str) : option value :=
  if str_eqb text sample_host_config then Some sample_host_value else None.

End Installer.

(** ** Concrete inputs used to exercise the theorems *)

Module Samples.
Import JS RegExp Host Effect Config Keywords Markdown Plugin Installer.
Local Open Scope string_scope.
Local Open Scope list_scope.

(** The engine cut down to literal patterns: a pattern made of letters,
    digits, underscores and spaces compiles to the case-insensitive search
    for that text, as it does in the host; every other source is rejected
    here, as the host rejects ["("]. *)
Definition literal_engine (pattern : str) : option RegExpObject :=
  if forallb (fun c => isWordChar c || N.eqb c 32) pattern
  then Some (String_match flags_i (letters pattern))
  else None.

Definition no_env : Env :=
  {| PERPLEXITY_API_KEY := None; PERPLEXITY_MCP_URL := None;
     PERPLEXITY_MODEL := None; PERPLEXITY_DEBUG := None |}.

Definition debug_env : Env :=
  {| PERPLEXITY_API_KEY := None; PERPLEXITY_MCP_URL := None;
     PERPLEXITY_MODEL := None; PERPLEXITY_DEBUG := Some (lit "true") |}.

(** The configuration loaded from a settings file with the given key and
    the given [keywords] section. *)
Definition config_of (key : string) (section : option KeywordsConfig) : PerplexityConfig :=
  loadConfig {| file_apiKey := Some (lit key); file_mcpUrl := None;
                file_model := None; file_keywords := section |} no_env.

Definition plain_config : PerplexityConfig := config_of "pplx-1" None.

Definition custom_config (patterns : list string) : PerplexityConfig :=
  config_of "pplx-1"
    (Some {| enabled := Some true; customPatterns := Some (PatArray (map lit patterns)) |}).

Definition disabled_config : PerplexityConfig :=
  config_of "pplx-1" (Some {| enabled := Some false; customPatterns := None |}).

(** A settings file whose [customPatterns] is a string, not an array. *)
Definition ill_typed_config : PerplexityConfig :=
  config_of "pplx-1" (Some {| enabled := None; customPatterns := Some PatOther |}).

Definition empty_world : world := {| console := []; parts := [] |}.

Definition user_part (text : string) : Part :=
  TextPart (lit "prt_1") (lit "ses_1") (lit "msg_1") (lit text) None.

Definition world_with (text : string) : world :=
  {| console := []; parts := [OtherPart "file" (lit "prt_0") (lit "ses_1") (lit "msg_1");
                              user_part text] |}.

Definition sample_clock : Clock :=
  {| at_start := 1700000000000; at_id := 1700000000002; at_end := 1700000000003 |}.

Definition sample_input : Input := {| sessionID := lit "ses_1" |}.

(** The detector's answer on a message, with the literal engine. *)
Definition answer (config : PerplexityConfig) (message : string)
  : completion (option KeywordMatch) :=
  fst (detectKeywords literal_engine config (lit message) empty_world).

(** Settings files and environments for [loadConfig]. *)
Definition file_with_key : PartialConfig :=
  {| file_apiKey := Some (lit "pplx-file"); file_mcpUrl := None;
     file_model := None; file_keywords := None |}.

Definition file_without_key : PartialConfig :=
  {| file_apiKey := None; file_mcpUrl := None; file_model := None;
     file_keywords := None |}.

Definition env_with_key : Env :=
  {| PERPLEXITY_API_KEY := Some (lit "pplx-env"); PERPLEXITY_MCP_URL := None;
     PERPLEXITY_MODEL := None; PERPLEXITY_DEBUG := None |}.

(** A configured environment for the installer, whose settings file holds
    custom patterns. *)
Definition home : str := lit "/home/u/.config/opencode".

Definition old_settings : str :=
  lit "{ " ++ q "apiKey" ++ lit ": " ++ q "pplx-old" ++ lit ", " ++ q "keywords"
  ++ lit ": { " ++ q "customPatterns" ++ lit ": [" ++ q "weather" ++ lit "] } }".

Definition configured_fs : fs :=
  writeFileSync (PERPLEXITY_CONFIG_PATH home) old_settings
    (writeFileSync (path_join home "opencode.json") sample_host_config
       (writeFileSync (AGENTS_MD_PATH home) (lit "# How to use Perplexity")
          (fun _ => None))).

Definition rerun_options : InstallOptions :=
  {| tui := false; option_apiKey := Some (lit "pplx-new") |}.

Definition no_answers : Answers :=
  {| typed_apiKey := []; modify_config := false; create_config := false;
     update_agents := false |}.

End Samples.

(** ** Relations between a text and what an edit leaves of it *)

Module Text.
Import JS.

(** [s] is [t] with some code units deleted. *)
Inductive subsequence : str -> str -> Prop :=
| subsequence_nil : subsequence [] []
| subsequence_keep c s t : subsequence s t -> subsequence (c :: s) (c :: t)
| subsequence_drop c s t : subsequence s t -> subsequence s (c :: t).

(** [m] occurs in [s] as a run of consecutive code units. *)
Definition occurs_in (m s : str) : Prop := exists pre post, s = pre ++ m ++ post.

(** Two texts that differ only in the casing of the basic Latin letters. *)
Definition same_letters (s t : str) : Prop := map canon s = map canon t.

Definition slash : N := 47%N.
Definition star : N := 42%N.

Definition no_slash (s : str) : bool := forallb (fun c => negb (N.eqb c slash)) s.
Definition no_star (s : str) : bool := forallb (fun c => negb (N.eqb c star)) s.
Definition one_line (s : str) : bool := forallb (fun c => negb (isLineTerminator c)) s.
Definition blank (s : str) : bool := forallb isSpace s.
Definition no_bracket (s : str) : bool := forallb (fun c => negb (N.eqb c 93%N)) s.

End Text.

(** ** Positions of one input *)

Module Matching.
Import JS RegExp.

(** [y] lies ahead of [x] in the same input: [x] reaches [y] by passing
    over some code units [m]. *)
Definition ahead (x y : state) : Prop :=
  exists m, after x = m ++ after y /\ before y = rev m ++ before x.

(** Two positions of inputs that differ in letter casing only. *)
Definition same_state (x y : state) : Prop :=
  Text.same_letters (before x) (before y) /\ Text.same_letters (after x) (after y).

Definition is_letter (c : N) : bool :=
  ((97 <=? c) && (c <=? 122))%N || ((65 <=? c) && (c <=? 90))%N.

(** A pattern that cannot tell the casing of the subject: it carries the
    [i] flag, or it names no letter. *)
Definition item_blind (fl : flags) (i : citem) : bool :=
  match i with
  | CChar c => ignoreCase fl || negb (is_letter c)
  | CSpace | CNonSpace => true
  end.

Fixpoint case_blind (fl : flags) (r : regex) : bool :=
  match r with
  | RChar c => ignoreCase fl || negb (is_letter c)
  | RClass _ items => forallb (item_blind fl) items
  | RSeq r1 r2 | RAlt r1 r2 => case_blind fl r1 && case_blind fl r2
  | ROpt r1 | RStar _ r1 | RPlus _ r1 => case_blind fl r1
  | REmpty | RDot | RSpace | RWordBoundary | RBegin | REnd => true
  end.

(** The results of [match] on two such inputs: both [null], or the same
    text up to casing. *)
Definition same_match (a b : option str) : Prop :=
  match a, b with
  | Some m, Some m' => Text.same_letters m m'
  | None, None => True
  | _, _ => False
  end.

End Matching.

(** ** What the host observes of the engine and of the hook *)

Module Observed.
Import JS RegExp Host Effect Config Keywords Plugin Text.

(** The host engine returns, as the text of a match, a piece of the
    subject. *)
Definition engine_sound (RegExp_new : str -> option RegExpObject) : Prop :=
  forall pattern r s m, RegExp_new pattern = Some r -> r s = Some m -> occurs_in m s.

(** The host engine, compiling with the [i] flag, gives expressions that
    cannot tell the casing of the subject. *)
Definition engine_caseless (RegExp_new : str -> option RegExpObject) : Prop :=
  forall pattern r s t,
    RegExp_new pattern = Some r -> same_letters s t ->
    Matching.same_match (r s) (r t).

(** Two answers of the detector that agree up to the casing of the matched
    text. *)
Definition same_answer (a b : completion (option KeywordMatch)) : Prop :=
  match a, b with
  | Normal (Some m), Normal (Some m') =>
      type m = type m' /\ same_letters (matchedText m) (matchedText m')
  | Normal None, Normal None => True
  | Throw e, Throw e' => e = e'
  | _, _ => False
  end.

(** The message is one the hook hands to the detector: the plugin is
    configured, and the text segments, joined, are not blank. *)
Definition processed (config : PerplexityConfig) (existing : list Part) : bool :=
  let textParts := filter is_text existing in
  let userMessage := join [newline] (map part_text textParts) in
  isConfigured config && negb (Nat.eqb (length textParts) 0)
  && truthy (trim userMessage).

End Observed.

(** ** src/config.ts: the settings file *)

Module ConfigFile.
Import JS RegExp Config Installer.
Local Open Scope string_scope.
Local Open Scope list_scope.

Definition stripJsonComments (jsonString : str) : str :=
  (* Remove single-line comments *)
  let result := String_replace_all flags_m line_comment [] jsonString in
  (* Remove multi-line comments *)
  String_replace_all flags_none block_comment [] result.

(** [{}]. *)
Definition empty_object : PartialConfig :=
  {| file_apiKey := None; file_mcpUrl := None; file_model := None;
     file_keywords := None |}.

Section Load.

(** [join(homedir(), ".config", "opencode")]. *)
Variable CONFIG_DIR : str.

(** [JSON.parse] of a document whose top level is an object, read at the
    type [Partial<PerplexityConfig>]; [None] for a SyntaxError. *)
Variable JSON_parse : str -> option PartialConfig.

Definition getConfigDir : str := CONFIG_DIR.

Definition getConfigFilePath : str := path_join CONFIG_DIR "perplexity.json".

(** The file configuration, and the path named on [console.error] when the
    file could not be read. *)
Definition loadConfigFile (f : fs) : PartialConfig * option str :=
  let jsonPath := path_join CONFIG_DIR "perplexity.json" in
  let jsoncPath := path_join CONFIG_DIR "perplexity.jsonc" in
  let configPath :=
    if existsSync jsonPath f then Some jsonPath
    else if existsSync jsoncPath f then Some jsoncPath
    else None in
  match configPath with
  | None => (empty_object, None)
  | Some path =>
      match f path with
      | None => (empty_object, Some path)
      | Some content =>
          let stripped := stripJsonComments content in
          match JSON_parse stripped with
          | Some fileConfig => (fileConfig, None)
          | None => (empty_object, Some path)
          end
      end
  end.

(** [export const config = loadConfig()]. *)
Definition config (f : fs) (env : Env) : PerplexityConfig :=
  loadConfig (fst (loadConfigFile f)) env.

End Load.

End ConfigFile.

(** ** src/cli.ts: the script, with file-system calls that can fail *)

Module Cli.
Import JS RegExp JSON Installer.
Local Open Scope string_scope.
Local Open Scope list_scope.

(** [args.indexOf(a)], with [None] for -1. *)
Fixpoint indexOf (args : list str) (a : str) : option nat :=
  match args with
  | [] => None
  | x :: rest =>
      if str_eqb x a then Some O
      else match indexOf rest a with
           | Some i => Some (S i)
           | None => None
           end
  end.

(** The calls of [node:fs] that fail, and then throw: [mkdirSync] on the
    configuration directory, [readFileSync] and [writeFileSync] on a file,
    by its path.  A call that fails leaves the files as they were. *)
Record Faults : Type := {
  mkdir_throws : bool;
  read_throws : str -> bool;
  write_throws : str -> bool
}.

(** How the script ends: by [process.exit(code)], or with the promise of
    [install] rejected by an error that nothing catches. *)
Inductive ending : Type :=
| exit (code : Z)
| uncaught.

Section Main.

Variable OPENCODE_CONFIG_DIR : str.
Variable JSON_parse : str -> option value.
Variable faults : Faults.

(** The three calls; [None] stands for a thrown error.  Reading a file
    that does not exist throws as well. *)
Definition mkdirSync (f : fs) : option fs :=
  if mkdir_throws faults then None else Some f.

Definition readFileSync (path : str) (f : fs) : option str :=
  if read_throws faults path then None else f path.

Definition writeFileSync (path data : str) (f : fs) : option fs :=
  if write_throws faults path then None else Some (Installer.writeFileSync path data f).

(** [writeFileSync(path, data); return true] inside a [try] whose [catch]
    returns false. *)
Definition write_or_fail (path data : str) (f : fs) : fs * bool :=
  match writeFileSync path data f with
  | Some g => (g, true)
  | None => (f, false)
  end.

Definition addPluginToConfig (configPath : str) (f : fs) : fs * bool :=
  match readFileSync configPath f with
  | None => (f, false)
  | Some content =>
      if includes content (lit "perplexity-opencode") then (f, true)
      else
        let jsonContent := stripJsoncComments content in
        match JSON_parse jsonContent with
        | None => (f, false)
        | Some parsed =>
            match register_plugin parsed with
            | None => (f, false)
            | Some config =>
                if endsWith configPath (lit ".jsonc") then
                  if includes content (q "plugin") then
                    let newContent :=
                      String_replace_groups flags_none plugin_open plugin_items
                                            plugin_close insert_plugin content in
                    write_or_fail configPath newContent f
                  else
                    let newContent :=
                      String_replace_first flags_none leading_brace
                        (fun m => m ++ [newline] ++ lit "  " ++ q "plugin" ++ lit ": ["
                                    ++ quoted PLUGIN_NAME ++ lit "],")
                        content in
                    write_or_fail configPath newContent f
                else
                  write_or_fail configPath (stringify config) f
            end
        end
  end.

Definition addMcpServerToConfig (configPath apiKey : str) (f : fs) : fs * bool :=
  match readFileSync configPath f with
  | None => (f, false)
  | Some content =>
      let jsonContent := stripJsoncComments content in
      match JSON_parse jsonContent with
      | None => (f, false)
      | Some config =>
          match get config (lit "mcp") with
          | None => (f, false)
          | Some found =>
              let mcp :=
                match found with
                | Some v => if truthy v then v else JObject []
                | None => JObject []
                end in
              match get mcp (lit "perplexity") with
              | None => (f, false)
              | Some present =>
                  if match present with Some v => truthy v | None => false end
                  then (f, true)
                  else
                    match set mcp (lit "perplexity") (mcp_entry apiKey) with
                    | None => (f, false)
                    | Some mcp' =>
                        match set config (lit "mcp") mcp' with
                        | None => (f, false)
                        | Some config' => write_or_fail configPath (stringify config') f
                        end
                    end
              end
          end
      end
  end.

(** The two functions without a [try]: an error of [mkdirSync] or
    [writeFileSync] leaves them. *)
Definition createNewConfig (apiKey : str) (f : fs) : option (fs * bool) :=
  match mkdirSync f with
  | None => None
  | Some f1 =>
      let configPath := path_join OPENCODE_CONFIG_DIR "opencode.json" in
      let config := JObject [
        (lit "plugin", JArray [JString PLUGIN_NAME]);
        (lit "mcp", JObject [(lit "perplexity", mcp_entry apiKey)])
      ] in
      match writeFileSync configPath (stringify config) f1 with
      | None => None
      | Some f2 => Some (f2, true)
      end
  end.

Definition createPerplexityConfig (apiKey : str) (f : fs) : option (fs * bool) :=
  match mkdirSync f with
  | None => None
  | Some f1 =>
      let config := JObject [
        (lit "apiKey", JString apiKey);
        (lit "keywords", JObject [(lit "enabled", JBool true)])
      ] in
      match writeFileSync (PERPLEXITY_CONFIG_PATH OPENCODE_CONFIG_DIR)
                          (stringify config) f1 with
      | None => None
      | Some f2 => Some (f2, true)
      end
  end.

(** [mkdirSync] stands before the [try]. *)
Definition updateAgentsMd (f : fs) : option (fs * bool) :=
  let path := AGENTS_MD_PATH OPENCODE_CONFIG_DIR in
  match mkdirSync f with
  | None => None
  | Some f1 =>
      Some
        (if existsSync path f1 then
           match readFileSync path f1 with
           | None => (f1, false)
           | Some content =>
               if includes content (lit "# How to use Perplexity") then (f1, true)
               else
                 let newContent :=
                   trimEnd content ++ [newline; newline]
                   ++ trim PERPLEXITY_AGENTS_INSTRUCTIONS ++ [newline] in
                 write_or_fail path newContent f1
           end
         else
           write_or_fail path (trim PERPLEXITY_AGENTS_INSTRUCTIONS ++ [newline]) f1)
  end.

(** [install]: the files it leaves and how its promise settles, [exit 0]
    standing for the fulfilment with 0 that the script passes to
    [process.exit]. *)
Definition install (options : InstallOptions) (env_apiKey : option str)
           (answers : Answers) (f : fs) : fs * ending :=
  (* Step 1: Get API key *)
  let apiKey0 := Config.or_default (or_else (option_apiKey options) env_apiKey) [] in
  let apiKey :=
    if negb (JS.truthy apiKey0) && tui options then trim (typed_apiKey answers)
    else apiKey0 in
  (* Step 2: Create Perplexity config file *)
  let step2 :=
    if JS.truthy apiKey then option_map fst (createPerplexityConfig apiKey f) else Some f in
  match step2 with
  | None => (f, uncaught)
  | Some f2 =>
      (* Step 3: Register plugin and MCP server in OpenCode config *)
      let register (configPath : str) (g : fs) : fs :=
        let g1 := fst (addPluginToConfig configPath g) in
        if JS.truthy apiKey then fst (addMcpServerToConfig configPath apiKey g1) else g1 in
      let step3 :=
        match findOpencodeConfig OPENCODE_CONFIG_DIR f2 with
        | Some configPath =>
            if tui options then
              if modify_config answers then Some (register configPath f2) else Some f2
            else Some (register configPath f2)
        | None =>
            if tui options then
              if create_config answers && JS.truthy apiKey
              then option_map fst (createNewConfig apiKey f2) else Some f2
            else if JS.truthy apiKey then option_map fst (createNewConfig apiKey f2)
                 else Some f2
        end in
      match step3 with
      | None => (f2, uncaught)
      | Some f3 =>
          (* Step 4: Add Perplexity instructions to AGENTS.md *)
          let step4 :=
            if tui options then
              if update_agents answers then option_map fst (updateAgentsMd f3) else Some f3
            else option_map fst (updateAgentsMd f3) in
          match step4 with
          | None => (f3, uncaught)
          | Some f4 => (f4, exit 0%Z)
          end
      end
  end.

(** The script body: the arguments after the program name, the variable
    PERPLEXITY_API_KEY and what the user types give the files left behind
    and the way the script ends. *)
Definition main (args : list str) (env_apiKey : option str) (answers : Answers)
           (f : fs) : fs * ending :=
  match args with
  | [] => (f, exit 0%Z)
  | command :: _ =>
      if str_eqb command (lit "help") || str_eqb command (lit "--help")
         || str_eqb command (lit "-h")
      then (f, exit 0%Z)
      else if str_eqb command (lit "install") then
        let noTui := existsb (str_eqb (lit "--no-tui")) args in
        let apiKeyIndex := indexOf args (lit "--api-key") in
        let apiKey :=
          match apiKeyIndex with
          | Some i => nth_error args (i + 1)
          | None => None
          end in
        install {| tui := negb noTui; option_apiKey := apiKey |} env_apiKey answers f
      else (f, exit 1%Z)
  end.

End Main.

(** No call fails. *)
Definition no_faults : Faults :=
  {| mkdir_throws := false; read_throws := fun _ => false; write_throws := fun _ => false |}.

End Cli.

(** ** The documents the installer writes *)

Module Documents.
Import JS JSON Installer.
Local Open Scope string_scope.
Local Open Scope list_scope.

(** The host configuration [createNewConfig] builds. *)
Definition new_host_config (apiKey : str) : value :=
  JObject [
    (lit "plugin", JArray [JString PLUGIN_NAME]);
    (lit "mcp", JObject [(lit "perplexity", mcp_entry apiKey)])
  ].

(** The text [addPluginToConfig] puts after the opening brace of a
    [.jsonc] file without a [plugin] key. *)
Definition plugin_line : str :=
  [newline] ++ lit "  " ++ q "plugin" ++ lit ": [" ++ quoted PLUGIN_NAME ++ lit "],".

End Documents.

(** ** Concrete files, documents and parsers used to exercise the theorems *)

Module Fixtures.
Import JS RegExp JSON Host Effect Config Keywords Plugin Installer ConfigFile Samples.
Local Open Scope string_scope.
Local Open Scope list_scope.

(** A parser cut down to one document. *)
Definition parse_only {A : Type} (text : str) (v : A) : str -> option A :=
  fun t => if str_eqb t text then Some v else None.

(** A file system that holds the listed files and nothing else. *)
Fixpoint files (l : list (str * str)) : fs :=
  match l with
  | [] => fun _ => None
  | (path, content) :: rest => writeFileSync path content (files rest)
  end.

(** A host configuration with a plugin and a setting of its own. *)
Definition host_json : str :=
  lit "{ " ++ q "plugin" ++ lit ": [" ++ q "other-plugin" ++ lit "], " ++ q "theme"
  ++ lit ": " ++ q "dark" ++ lit " }".

Definition host_fields : list (str * value) :=
  [(lit "plugin", JArray [JString (lit "other-plugin")]);
   (lit "theme", JString (lit "dark"))].

(** A host configuration whose [plugin] value is a string. *)
Definition host_plugin_string : str :=
  lit "{ " ++ q "plugin" ++ lit ": " ++ q "other-plugin" ++ lit " }".

(** A [.jsonc] host configuration that opens with its brace, and one that
    opens with a comment. *)
Definition host_jsonc_rest : str :=
  lit "
  // colours
  " ++ q "theme" ++ lit ": " ++ q "dark" ++ lit "
}".

Definition host_jsonc : str := lit "  " ++ lit "{" ++ host_jsonc_rest.

Definition host_jsonc_commented : str :=
  lit "// my settings
{ " ++ q "theme" ++ lit ": " ++ q "dark" ++ lit " }".

(** A [.jsonc] host configuration with a plugin array: the text before
    the key, and the text after the closing bracket. *)
Definition host_array_before : str :=
  lit "{
  // appearance
  " ++ q "theme" ++ lit ": " ++ q "dark" ++ lit ",
  ".

Definition host_array_after : str := lit " // listed last
}".

Definition host_array_opening : str := q "plugin" ++ [] ++ lit ":" ++ lit " " ++ lit "[".

Definition host_array : str :=
  host_array_before ++ host_array_opening ++ q "other-plugin" ++ lit "]" ++ host_array_after.

Definition theme_fields : list (str * value) := [(lit "theme", JString (lit "dark"))].

(** The parsed form of [host_array], its keys in the order of the text. *)
Definition host_array_fields : list (str * value) :=
  [(lit "theme", JString (lit "dark"));
   (lit "plugin", JArray [JString (lit "other-plugin")])].

(** Settings files: one that does not parse next to one that does. *)
Definition settings_broken : str := lit "{ " ++ q "apiKey" ++ lit ": ".

Definition settings_jsonc : str :=
  lit "{ " ++ q "apiKey" ++ lit ": " ++ q "pplx-file" ++ lit " } // key".

Definition shadowed_fs : fs :=
  files [(path_join home "perplexity.json", settings_broken);
         (path_join home "perplexity.jsonc", settings_jsonc)].

Definition jsonc_only_fs : fs := files [(path_join home "perplexity.jsonc", settings_jsonc)].

Definition settings_parse : str -> option PartialConfig :=
  parse_only (stripJsonComments settings_jsonc) file_with_key.

(** A message that carries the nudge of an earlier call. *)
Definition nudged_world : world :=
  {| console := [];
     parts := [user_part "look up rust";
               nudge_part sample_clock sample_input (lit "msg_1")
                          {| type := search; matchedText := lit "look up" |}] |}.

Definition later_clock : Clock :=
  {| at_start := 1700000000100; at_id := 1700000000102; at_end := 1700000000103 |}.

Definition key_options : InstallOptions :=
  {| tui := false; option_apiKey := Some (lit "pplx-new") |}.

Definition no_key_options : InstallOptions := {| tui := false; option_apiKey := None |}.

Definition asking_options : InstallOptions :=
  {| tui := true; option_apiKey := Some (lit "pplx-new") |}.

End Fixtures.

(** ** Code spans that close where they are meant to *)

Module Spans.
Import JS RegExp Markdown.
Local Open Scope list_scope.

(** No fence starts inside the code of a fenced block, the first two
    backticks of the closing fence counted in: the block then closes at its
    own fence.  The code may hold single and double backticks. *)
Definition fence_free (code : str) : bool :=
  negb (includes (code ++ [backtick; backtick]) fence).

(** The spans of a message are delimited as they are meant to: text
    outside them holds no backtick, an inline span is not empty, holds no
    backtick and its closing backtick is not followed by two more, and
    no fence starts inside a fenced block. *)
Fixpoint delimited (segs : list segment) : bool :=
  match segs with
  | [] => true
  | Plain t :: rest => no_backtick t && delimited rest
  | InlineCode c :: rest =>
      negb (RegExp.is_nil c) && no_backtick c
      && negb (startsWith (render rest) [backtick; backtick])
      && delimited rest
  | FencedCode c :: rest => fence_free c && delimited rest
  end.

End Spans.

(** * Properties *)

Unset Implicit Arguments.

(** ** The matcher *)

Module RegExpFacts.
Import JS RegExp.
Local Open Scope N_scope.







Lemma step_if_hit p b d rest :
  p d = true ->
  step_if p {| before := b; after := d :: rest |} = [{| before := d :: b; after := rest |}].
Proof. intros H; unfold step_if; simpl; now rewrite H. Qed.

Lemma step_if_miss p b d rest :
  p d = false -> step_if p {| before := b; after := d :: rest |} = [].
Proof. intros H; unfold step_if; simpl; now rewrite H. Qed.




(** *** Repetition *)





(** More iterations than the input has code units change nothing: the
    bound on the iterations never cuts a match short. *)
Lemma flat_map_all_nil {A B} (f : A -> list B) l :
  (forall a, f a = []) -> flat_map f l = [].
Proof. intros H. induction l as [|a l IH]; cbn; [reflexivity|]. now rewrite H, IH. Qed.

Lemma repeat_loop_fuel_step greedy step : forall n x,
  (length (after x) <= n)%nat ->
  repeat_loop greedy step (S n) x = repeat_loop greedy step n x.
Proof.
  induction n as [|n IH]; intros x H.
  - cbn [repeat_loop]. rewrite flat_map_all_nil.
    + now destruct greedy.
    + intros y. unfold progress.
      replace (length (after y) <? length (after x))%nat with false; [reflexivity|].
      symmetry. apply Nat.ltb_ge. lia.
  - change (repeat_loop greedy step (S (S n)) x)
      with (let more := flat_map (fun y => if progress x y
                                           then repeat_loop greedy step (S n) y else [])
                                 (step x) in
            if greedy then more ++ [x] else x :: more).
    change (repeat_loop greedy step (S n) x)
      with (let more := flat_map (fun y => if progress x y
                                           then repeat_loop greedy step n y else [])
                                 (step x) in
            if greedy then more ++ [x] else x :: more).
    cbv zeta.
    rewrite (flat_map_ext
               (fun y => if progress x y then repeat_loop greedy step (S n) y else [])
               (fun y => if progress x y then repeat_loop greedy step n y else [])).
    + reflexivity.
    + intros y. destruct (progress x y) eqn:P; [|reflexivity].
      apply IH. unfold progress in P. apply Nat.ltb_lt in P. lia.
Qed.

Lemma repeat_loop_fuel greedy step x : forall extra,
  repeat_loop greedy step (length (after x) + extra) x
  = repeat_loop greedy step (length (after x)) x.
Proof.
  induction extra as [|k IH].
  - now rewrite Nat.add_0_r.
  - rewrite Nat.add_succ_r, repeat_loop_fuel_step by lia. exact IH.
Qed.

(** *** Leftmost search *)

Lemma exec_eq fl r bef aft :
  exec fl r bef aft =
  match ends fl r {| before := bef; after := aft |} with
  | y :: _ => Some ({| before := bef; after := aft |}, y)
  | [] => match aft with
          | [] => None
          | c :: aft' => exec fl r (c :: bef) aft'
          end
  end.
Proof. destruct aft; reflexivity. Qed.

Lemma exec_finds fl r : forall pre bef rest y,
  In y (ends fl r {| before := rev pre ++ bef; after := rest |}) ->
  exec fl r bef (pre ++ rest) <> None.
Proof.
  induction pre as [|c pre IH]; intros bef rest y Hy; rewrite exec_eq; simpl in *.
  - destruct (ends fl r {| before := bef; after := rest |}); [contradiction|].
    congruence.
  - destruct (ends fl r {| before := bef; after := c :: pre ++ rest |}); [|congruence].
    apply IH with (y := y). now rewrite <- app_assoc in Hy.
Qed.

Lemma String_match_finds fl r pre rest y :
  In y (ends fl r {| before := rev pre; after := rest |}) ->
  String_match fl r (pre ++ rest) <> None.
Proof.
  intros Hy. unfold String_match.
  pose proof (@exec_finds fl r pre [] rest y) as H.
  rewrite app_nil_r in H. specialize (H Hy).
  destruct (exec fl r [] (pre ++ rest)) as [[x z]|]; [discriminate | congruence].
Qed.

(** *** Words in any letter casing *)

Ltac split_cmp :=
  repeat match goal with
         | |- context [N.leb ?a ?b] => destruct (N.leb_spec a b)
         | |- context [N.eqb ?a ?b] => destruct (N.eqb_spec a b)
         end.

Lemma isWordChar_canon c : isWordChar (canon c) = isWordChar c.
Proof.
  unfold canon, isWordChar.
  destruct (N.leb_spec 97 c); destruct (N.leb_spec c 122); cbn [andb orb];
    split_cmp; cbn [andb orb]; try reflexivity; lia.
Qed.

Lemma isWordChar_casing c d : canon d = canon c -> isWordChar d = isWordChar c.
Proof.
  intros H. rewrite <- (isWordChar_canon d), <- (isWordChar_canon c). now rewrite H.
Qed.

Lemma word_letters s : word s = letters (lit s).
Proof. reflexivity. Qed.



Lemma casing_length (p w : list N) : map canon w = map canon p -> length w = length p.
Proof. intros H. apply (f_equal (@length N)) in H. now rewrite !length_map in H. Qed.




(** *** Global replacement *)

Lemma replace_loop_skip fl r repl : forall s bef t,
  replace_loop fl r repl (length s) bef (s ++ t)
  = replace_loop fl r repl 0 (rev s ++ bef) t.
Proof.
  induction s as [|c s IH]; intros bef t.
  - reflexivity.
  - cbn [length app replace_loop]. rewrite IH.
    now replace (rev (c :: s) ++ bef) with (rev s ++ c :: bef)
      by (simpl; now rewrite <- app_assoc).
Qed.

Lemma replace_loop_copy fl r repl bef c t :
  ends fl r {| before := bef; after := c :: t |} = [] ->
  replace_loop fl r repl 0 bef (c :: t) = c :: replace_loop fl r repl 0 (c :: bef) t.
Proof. intros H. cbn [replace_loop]. now rewrite H. Qed.

Lemma replace_loop_end fl r repl bef :
  ends fl r {| before := bef; after := [] |} = [] ->
  replace_loop fl r repl 0 bef [] = [].
Proof. intros H. cbn [replace_loop]. now rewrite H. Qed.

Lemma replace_loop_match fl r repl bef m t y tl :
  ends fl r {| before := bef; after := m ++ t |} = y :: tl ->
  after y = t -> m <> [] ->
  replace_loop fl r repl 0 bef (m ++ t)
  = repl ++ replace_loop fl r repl 0 (rev m ++ bef) t.
Proof.
  intros Hends Hy Hm. destruct m as [|c m]; [congruence|].
  cbn [app replace_loop]. cbn [app] in Hends. rewrite Hends, Hy.
  replace (length (c :: m ++ t) - length t)%nat with (S (length m))
    by (cbn [length]; rewrite length_app; lia).
  rewrite replace_loop_skip.
  now replace (rev (c :: m) ++ bef) with (rev m ++ c :: bef)
    by (simpl; now rewrite <- app_assoc).
Qed.

(** Text in which the pattern matches nowhere is copied unchanged. *)
Lemma replace_loop_copy_run fl r repl : forall s bef t,
  (forall s1 c s2, s = s1 ++ c :: s2 ->
     ends fl r {| before := rev s1 ++ bef; after := c :: s2 ++ t |} = []) ->
  replace_loop fl r repl 0 bef (s ++ t)
  = s ++ replace_loop fl r repl 0 (rev s ++ bef) t.
Proof.
  induction s as [|c s IH]; intros bef t H.
  - reflexivity.
  - cbn [app]. rewrite replace_loop_copy by (apply (H [] c s); reflexivity).
    rewrite IH.
    + now replace (rev (c :: s) ++ bef) with (rev s ++ c :: bef)
        by (simpl; now rewrite <- app_assoc).
    + intros s1 d s2 ->.
      specialize (H (c :: s1) d s2 eq_refl).
      now replace (rev (c :: s1) ++ bef) with (rev s1 ++ c :: bef) in H
        by (simpl; now rewrite <- app_assoc).
Qed.

End RegExpFacts.

Module KeywordsFacts.
Import JS RegExp Effect Config Keywords RegExpFacts.
Local Open Scope string_scope.
Local Open Scope list_scope.

Lemma first_match_None ps s :
  first_match ps s = None <-> Forall (fun r : RegExpObject => r s = None) ps.
Proof.
  induction ps as [|r ps IH]; simpl.
  - split; auto.
  - destruct (r s) eqn:E.
    + split; [discriminate|]. intros H; inversion H; congruence.
    + rewrite IH. split; intros H; [constructor; auto | now inversion H].
Qed.

Lemma first_match_Some ps s m :
  first_match ps s = Some m ->
  exists pre r post,
    ps = pre ++ r :: post /\ Forall (fun q : RegExpObject => q s = None) pre /\ r s = Some m.
Proof.
  induction ps as [|r ps IH]; simpl; [discriminate|].
  destruct (r s) eqn:E.
  - intros H; injection H as <-. exists [], r, ps. auto.
  - intros H. destruct (IH H) as (pre & r' & post & -> & Hpre & Hr).
    exists (r :: pre), r', post. repeat split; auto.
Qed.

Lemma first_match_exists ps (r : RegExpObject) s :
  In r ps -> r s <> None -> first_match ps s <> None.
Proof.
  intros Hin Hr Hnone. apply first_match_None in Hnone.
  rewrite Forall_forall in Hnone. auto.
Qed.












End KeywordsFacts.

Module MarkdownFacts.
Import JS RegExp Effect Config Keywords Markdown RegExpFacts.
Local Open Scope list_scope.

Lemma tick_neq c : negb (N.eqb c backtick) = true -> N.eqb backtick c = false.
Proof. rewrite negb_true_iff, N.eqb_sym. auto. Qed.

Lemma code_unit_hit c : negb (N.eqb c backtick) = true -> code_unit c = true.
Proof.
  intros H. unfold code_unit, class_has, item_has, char_eq.
  cbn [existsb ignoreCase flags_none]. now rewrite (tick_neq c H).
Qed.

Lemma any_unit_hit c : any_unit c = true.
Proof.
  unfold any_unit, class_has, item_has. cbn. destruct (isSpace c); reflexivity.
Qed.

Lemma progress_one b c rest :
  progress {| before := b; after := c :: rest |} {| before := c :: b; after := rest |} = true.
Proof. unfold progress; simpl. apply Nat.ltb_lt. lia. Qed.

(** The greedy run of an inline span stops exactly at the closing backtick. *)
Lemma inline_body : forall code b rest n,
  no_backtick code = true -> (length code <= n)%nat ->
  flat_map (ends flags_none (RChar backtick))
           (repeat_loop true (step_if code_unit) n
                        {| before := b; after := code ++ backtick :: rest |})
  = [{| before := backtick :: rev code ++ b; after := rest |}].
Proof.
  induction code as [|c code IH]; intros b rest n Hc Hn.
  - destruct n; cbn [app repeat_loop].
    + reflexivity.
    + rewrite step_if_miss by reflexivity. reflexivity.
  - destruct n as [|n]; [simpl in Hn; lia|].
    cbn [no_backtick forallb] in Hc. apply andb_true_iff in Hc as [Hc1 Hc2].
    cbn [app repeat_loop].
    rewrite step_if_hit by now apply code_unit_hit.
    cbn [flat_map]. rewrite progress_one, app_nil_r, flat_map_app.
    rewrite IH by (auto; simpl in Hn; lia).
    cbn [flat_map ends]. rewrite step_if_miss.
    + cbn [app]. now replace (rev (c :: code) ++ b) with (rev code ++ c :: b)
        by (simpl; now rewrite <- app_assoc).
    + unfold char_eq; cbn [ignoreCase flags_none]. now apply tick_neq.
Qed.

Lemma inline_match b code rest :
  code <> [] -> no_backtick code = true ->
  ends flags_none inline_code
       {| before := b; after := backtick :: code ++ backtick :: rest |}
  = [{| before := backtick :: rev code ++ backtick :: b; after := rest |}].
Proof.
  intros Hne Hc. destruct code as [|c code]; [congruence|].
  cbn [no_backtick forallb] in Hc. apply andb_true_iff in Hc as [Hc1 Hc2].
  unfold inline_code. cbn [seq ends].
  rewrite step_if_hit by reflexivity. cbn [flat_map].
  change (class_has flags_none true [CChar backtick]) with code_unit.
  cbn [app]. rewrite step_if_hit by now apply code_unit_hit.
  cbn [flat_map after]. rewrite !app_nil_r.
  change (fun x => step_if code_unit x) with (step_if code_unit).
  rewrite inline_body; auto.
  - now replace (rev (c :: code) ++ backtick :: b) with (rev code ++ c :: backtick :: b)
      by (simpl; now rewrite <- app_assoc).
  - rewrite length_app. lia.
Qed.

Lemma inline_no_match b c rest :
  negb (N.eqb c backtick) = true ->
  ends flags_none inline_code {| before := b; after := c :: rest |} = [].
Proof.
  intros H. unfold inline_code. cbn [seq ends].
  rewrite step_if_miss; [reflexivity|].
  unfold char_eq; cbn [ignoreCase flags_none]. now apply tick_neq.
Qed.

Lemma inline_no_match_end b :
  ends flags_none inline_code {| before := b; after := [] |} = [].
Proof. reflexivity. Qed.

Lemma fence_start b c rest :
  negb (N.eqb c backtick) = true ->
  ends flags_none (word "```") {| before := b; after := c :: rest |} = [].
Proof.
  intros H. cbn [word letters lit list_ascii_of_string map fold_right ends].
  rewrite step_if_miss; [reflexivity|].
  unfold char_eq; cbn [ignoreCase flags_none]. now apply tick_neq.
Qed.

Lemma fence_whole b rest :
  ends flags_none (word "```") {| before := b; after := fence ++ rest |}
  = [{| before := rev fence ++ b; after := rest |}].
Proof. reflexivity. Qed.

(** The lazy run of a fenced block stops at the first closing fence. *)
Lemma fenced_body : forall code b rest n,
  no_backtick code = true -> (length code <= n)%nat ->
  exists tl,
    flat_map (ends flags_none (word "```"))
             (repeat_loop false (step_if any_unit) n
                          {| before := b; after := code ++ fence ++ rest |})
    = {| before := rev fence ++ rev code ++ b; after := rest |} :: tl.
Proof.
  induction code as [|c code IH]; intros b rest n Hc Hn.
  - destruct n; cbn [app repeat_loop flat_map rev]; rewrite fence_whole;
      cbn [app]; eauto.
  - destruct n as [|n]; [simpl in Hn; lia|].
    cbn [no_backtick forallb] in Hc. apply andb_true_iff in Hc as [Hc1 Hc2].
    cbn [app repeat_loop flat_map].
    rewrite fence_start by assumption.
    rewrite step_if_hit by apply any_unit_hit.
    cbn [flat_map app]. rewrite progress_one, app_nil_r.
    destruct (IH (c :: b) rest n Hc2 ltac:(simpl in Hn; lia)) as [tl Htl].
    rewrite Htl. exists tl.
    now replace (rev (c :: code) ++ b) with (rev code ++ c :: b)
      by (simpl; now rewrite <- app_assoc).
Qed.

Lemma fenced_match b code rest :
  no_backtick code = true ->
  exists y tl,
    ends flags_none fenced_code
         {| before := b; after := fence ++ code ++ fence ++ rest |} = y :: tl
    /\ after y = rest.
Proof.
  intros Hc. unfold fenced_code. cbn [seq]. cbn [ends].
  change (ends flags_none (word "```")) with (fun x => ends flags_none (word "```") x).
  cbv beta. rewrite fence_whole. cbn [flat_map after]. rewrite app_nil_r.
  change (class_has flags_none false [CSpace; CNonSpace]) with any_unit.
  change (fun x => step_if any_unit x) with (step_if any_unit).
  destruct (fenced_body code (rev fence ++ b) rest
              (length (code ++ fence ++ rest)) Hc) as [tl Htl].
  - rewrite length_app. lia.
  - eexists; exists tl; split; [exact Htl | reflexivity].
Qed.

Lemma ends_letters_exact p : forall b s,
  ends flags_none (letters p) {| before := b; after := s |}
  = if startsWith s p
    then [{| before := rev p ++ b; after := skipn (length p) s |}]
    else [].
Proof.
  induction p as [|c p IH]; intros b s.
  - destruct s; reflexivity.
  - cbn [letters fold_right ends]. destruct s as [|d s]; [reflexivity|].
    cbn [startsWith]. unfold step_if, char_eq. cbn [after before ignoreCase flags_none].
    destruct (N.eqb c d) eqn:E; [|reflexivity].
    apply N.eqb_eq in E. subst d.
    cbn [flat_map andb]. rewrite app_nil_r.
    change (fold_right (fun c r => RSeq (RChar c) r) REmpty p) with (letters p).
    rewrite IH. cbn [length skipn].
    now replace (rev (c :: p) ++ b) with (rev p ++ c :: b)
      by (simpl; now rewrite <- app_assoc).
Qed.

Lemma fenced_no_match b s :
  startsWith s fence = false ->
  ends flags_none fenced_code {| before := b; after := s |} = [].
Proof.
  intros H. unfold fenced_code. cbn [seq ends].
  change (word "```") with (letters fence).
  change (ends flags_none (letters fence)) with (fun x => ends flags_none (letters fence) x).
  cbv beta. rewrite ends_letters_exact, H. reflexivity.
Qed.

Lemma no_backtick_at s1 c s2 :
  no_backtick (s1 ++ c :: s2) = true -> negb (N.eqb c backtick) = true.
Proof.
  unfold no_backtick. rewrite forallb_app. cbn [forallb].
  intros H. apply andb_true_iff in H as [_ H]. now apply andb_true_iff in H as [H _].
Qed.

Lemma fence_not_at c rest :
  negb (N.eqb c backtick) = true -> startsWith (c :: rest) fence = false.
Proof.
  intros H. cbn [startsWith fence]. now rewrite (tick_neq c H).
Qed.

Lemma fenced_copy t s bef :
  no_backtick t = true ->
  replace_loop flags_none fenced_code [] 0 bef (t ++ s)
  = t ++ replace_loop flags_none fenced_code [] 0 (rev t ++ bef) s.
Proof.
  intros Ht. apply replace_loop_copy_run. intros s1 c s2 ->.
  apply fenced_no_match, fence_not_at. eapply no_backtick_at; eauto.
Qed.

Lemma inline_copy t s bef :
  no_backtick t = true ->
  replace_loop flags_none inline_code [] 0 bef (t ++ s)
  = t ++ replace_loop flags_none inline_code [] 0 (rev t ++ bef) s.
Proof.
  intros Ht. apply replace_loop_copy_run. intros s1 c s2 ->.
  apply inline_no_match. eapply no_backtick_at; eauto.
Qed.

(** The first pass removes the fenced blocks and nothing else. *)
Lemma fenced_pass : forall segs bef,
  well_formed segs = true ->
  replace_loop flags_none fenced_code [] 0 bef (render segs)
  = render (without_fences segs).
Proof.
  induction segs as [|[t|c|c] segs IH]; intros bef Hwf.
  - apply replace_loop_end. now apply fenced_no_match.
  - cbn [well_formed] in Hwf. apply andb_true_iff in Hwf as [Ht Hwf].
    cbn [render flat_map render_segment without_fences filter].
    rewrite fenced_copy by assumption. f_equal. now apply IH.
  - cbn [well_formed] in Hwf.
    apply andb_true_iff in Hwf as [Hwf Hrest].
    apply andb_true_iff in Hwf as [Hwf Hnext].
    apply andb_true_iff in Hwf as [Hne Hc].
    apply negb_true_iff in Hnext.
    cbn [render flat_map render_segment without_fences filter].
    rewrite <- !app_assoc. cbn [app].
    rewrite replace_loop_copy.
    2:{ apply fenced_no_match. destruct c as [|c1 c]; [discriminate Hne|].
        cbn [no_backtick forallb] in Hc. apply andb_true_iff in Hc as [Hc1 _].
        cbn [startsWith fence app]. rewrite (tick_neq c1 Hc1).
        now rewrite N.eqb_refl. }
    f_equal. rewrite fenced_copy by assumption. f_equal.
    rewrite replace_loop_copy.
    2:{ apply fenced_no_match. cbn [startsWith fence]. rewrite N.eqb_refl.
        exact Hnext. }
    f_equal. now apply IH.
  - cbn [well_formed] in Hwf. apply andb_true_iff in Hwf as [Hc Hwf].
    change (render (FencedCode c :: segs))
      with ((fence ++ c ++ fence) ++ render segs).
    change (render (without_fences (FencedCode c :: segs)))
      with ([] ++ render (without_fences segs)).
    destruct (fenced_match bef c (render segs) Hc) as (y & tl & Hy & Hafter).
    rewrite (replace_loop_match flags_none fenced_code [] bef
               (fence ++ c ++ fence) (render segs) y tl).
    + f_equal. now apply IH.
    + rewrite <- Hy. now rewrite <- !app_assoc.
    + exact Hafter.
    + discriminate.
Qed.

(** The second pass removes the inline spans that are left. *)
Lemma inline_pass : forall segs bef,
  well_formed segs = true ->
  replace_loop flags_none inline_code [] 0 bef (render (without_fences segs))
  = plain_text segs.
Proof.
  induction segs as [|[t|c|c] segs IH]; intros bef Hwf.
  - reflexivity.
  - cbn [well_formed] in Hwf. apply andb_true_iff in Hwf as [Ht Hwf].
    cbn [render flat_map render_segment without_fences filter plain_text].
    rewrite inline_copy by assumption. f_equal. now apply IH.
  - cbn [well_formed] in Hwf.
    apply andb_true_iff in Hwf as [Hwf Hrest].
    apply andb_true_iff in Hwf as [Hwf Hnext].
    apply andb_true_iff in Hwf as [Hne Hc].
    change (render (without_fences (InlineCode c :: segs)))
      with (([backtick] ++ c ++ [backtick]) ++ render (without_fences segs)).
    change (plain_text (InlineCode c :: segs)) with ([] ++ plain_text segs).
    rewrite (replace_loop_match flags_none inline_code [] bef
               ([backtick] ++ c ++ [backtick])
               (render (without_fences segs))
               {| before := backtick :: rev c ++ backtick :: bef;
                  after := render (without_fences segs) |} []).
    + f_equal. now apply IH.
    + rewrite <- !app_assoc. cbn [app]. apply inline_match; auto.
      destruct c; [discriminate Hne | discriminate].
    + reflexivity.
    + discriminate.
  - cbn [well_formed] in Hwf. apply andb_true_iff in Hwf as [Hc Hwf].
    cbn [without_fences filter plain_text flat_map app]. now apply IH.
Qed.

(** Code spans are stripped, and only they. *)
Lemma removeCodeBlocks_segments segs :
  well_formed segs = true -> removeCodeBlocks (render segs) = plain_text segs.
Proof.
  intros Hwf. unfold removeCodeBlocks, String_replace_all.
  rewrite fenced_pass by assumption. now apply inline_pass.
Qed.

Lemma removeCodeBlocks_plain s :
  no_backtick s = true -> removeCodeBlocks s = s.
Proof.
  intros H. pose proof (removeCodeBlocks_segments [Plain s]) as E.
  cbn [render plain_text flat_map render_segment well_formed] in E.
  rewrite !app_nil_r in E. apply E. now rewrite H.
Qed.

End MarkdownFacts.

(** ** Fenced blocks whose code holds backticks *)

Module SpanFacts.
Import JS RegExp Effect Config Keywords Markdown Spans RegExpFacts MarkdownFacts.
Local Open Scope list_scope.

(** A fence that does not start on a code unit and the two backticks after
    the code does not start there whatever follows. *)
Lemma startsWith_fence_ahead c code rest :
  startsWith ((c :: code) ++ [backtick; backtick]) fence = false ->
  startsWith ((c :: code) ++ fence ++ rest) fence = false.
Proof.
  destruct code as [|d [|e code]]; cbn [app startsWith fence]; intros H.
  - rewrite (N.eqb_refl backtick) in *. cbn [andb] in *.
    destruct (N.eqb backtick c); [discriminate H | reflexivity].
  - rewrite (N.eqb_refl backtick) in *.
    destruct (N.eqb backtick c); [|reflexivity].
    destruct (N.eqb backtick d); [discriminate H | reflexivity].
  - assert (Hnil : forall s : str, startsWith s [] = true) by (intros [|x s]; reflexivity).
    rewrite Hnil in *. exact H.
Qed.

Lemma fence_free_cons c code :
  fence_free (c :: code) = true ->
  startsWith ((c :: code) ++ [backtick; backtick]) fence = false
  /\ fence_free code = true.
Proof.
  unfold fence_free. rewrite !negb_true_iff. cbn [app includes].
  intros H. apply orb_false_iff in H as [H1 H2]. split; assumption.
Qed.

Lemma well_formed_code_fence_free code : no_backtick code = true -> fence_free code = true.
Proof.
  unfold fence_free. rewrite negb_true_iff.
  induction code as [|c code IH]; intros H; [reflexivity|].
  cbn [no_backtick forallb] in H. apply andb_true_iff in H as [Hc H].
  cbn [app includes]. rewrite (IH H), orb_false_r.
  cbn [startsWith fence]. now rewrite (tick_neq c Hc).
Qed.

(** The lazy run of a fenced block stops at the closing fence. *)
Lemma fenced_body_free : forall code b rest n,
  fence_free code = true -> (length code <= n)%nat ->
  exists tl,
    flat_map (ends flags_none (word "```"))
             (repeat_loop false (step_if any_unit) n
                          {| before := b; after := code ++ fence ++ rest |})
    = {| before := rev fence ++ rev code ++ b; after := rest |} :: tl.
Proof.
  induction code as [|c code IH]; intros b rest n Hc Hn.
  - destruct n; cbn [app repeat_loop flat_map rev]; rewrite fence_whole;
      cbn [app]; eauto.
  - destruct n as [|n]; [simpl in Hn; lia|].
    apply fence_free_cons in Hc as [Hc1 Hc2].
    apply (startsWith_fence_ahead c code rest) in Hc1.
    cbn [repeat_loop flat_map].
    change (word "```") with (letters fence).
    rewrite (ends_letters_exact fence b ((c :: code) ++ fence ++ rest)), Hc1.
    cbn [app]. rewrite step_if_hit by apply any_unit_hit.
    cbn [flat_map app]. rewrite progress_one, app_nil_r.
    destruct (IH (c :: b) rest n Hc2 ltac:(simpl in Hn; lia)) as [tl Htl].
    change (letters fence) with (word "```").
    rewrite Htl. exists tl.
    now replace (rev (c :: code) ++ b) with (rev code ++ c :: b)
      by (simpl; now rewrite <- app_assoc).
Qed.

Lemma fenced_match_free b code rest :
  fence_free code = true ->
  exists y tl,
    ends flags_none fenced_code
         {| before := b; after := fence ++ code ++ fence ++ rest |} = y :: tl
    /\ after y = rest.
Proof.
  intros Hc. unfold fenced_code. cbn [seq]. cbn [ends].
  change (ends flags_none (word "```")) with (fun x => ends flags_none (word "```") x).
  cbv beta. rewrite fence_whole. cbn [flat_map after]. rewrite app_nil_r.
  change (class_has flags_none false [CSpace; CNonSpace]) with any_unit.
  change (fun x => step_if any_unit x) with (step_if any_unit).
  destruct (fenced_body_free code (rev fence ++ b) rest
              (length (code ++ fence ++ rest)) Hc) as [tl Htl].
  - rewrite length_app. lia.
  - eexists; exists tl; split; [exact Htl | reflexivity].
Qed.

(** The first pass removes the fenced blocks and nothing else. *)
Lemma fenced_pass_delimited : forall segs bef,
  delimited segs = true ->
  replace_loop flags_none fenced_code [] 0 bef (render segs)
  = render (without_fences segs).
Proof.
  induction segs as [|[t|c|c] segs IH]; intros bef Hwf.
  - apply replace_loop_end. now apply fenced_no_match.
  - cbn [delimited] in Hwf. apply andb_true_iff in Hwf as [Ht Hwf].
    cbn [render flat_map render_segment without_fences filter].
    rewrite fenced_copy by assumption. f_equal. now apply IH.
  - cbn [delimited] in Hwf.
    apply andb_true_iff in Hwf as [Hwf Hrest].
    apply andb_true_iff in Hwf as [Hwf Hnext].
    apply andb_true_iff in Hwf as [Hne Hc].
    apply negb_true_iff in Hnext.
    cbn [render flat_map render_segment without_fences filter].
    rewrite <- !app_assoc. cbn [app].
    rewrite replace_loop_copy.
    2:{ apply fenced_no_match. destruct c as [|c1 c]; [discriminate Hne|].
        cbn [no_backtick forallb] in Hc. apply andb_true_iff in Hc as [Hc1 _].
        cbn [startsWith fence app]. rewrite (tick_neq c1 Hc1).
        now rewrite N.eqb_refl. }
    f_equal. rewrite fenced_copy by assumption. f_equal.
    rewrite replace_loop_copy.
    2:{ apply fenced_no_match. cbn [startsWith fence]. rewrite N.eqb_refl.
        exact Hnext. }
    f_equal. now apply IH.
  - cbn [delimited] in Hwf. apply andb_true_iff in Hwf as [Hc Hwf].
    change (render (FencedCode c :: segs))
      with ((fence ++ c ++ fence) ++ render segs).
    change (render (without_fences (FencedCode c :: segs)))
      with ([] ++ render (without_fences segs)).
    destruct (fenced_match_free bef c (render segs) Hc) as (y & tl & Hy & Hafter).
    rewrite (replace_loop_match flags_none fenced_code [] bef
               (fence ++ c ++ fence) (render segs) y tl).
    + f_equal. now apply IH.
    + rewrite <- Hy. now rewrite <- !app_assoc.
    + exact Hafter.
    + discriminate.
Qed.

(** The second pass removes the inline spans that are left. *)
Lemma inline_pass_delimited : forall segs bef,
  delimited segs = true ->
  replace_loop flags_none inline_code [] 0 bef (render (without_fences segs))
  = plain_text segs.
Proof.
  induction segs as [|[t|c|c] segs IH]; intros bef Hwf.
  - reflexivity.
  - cbn [delimited] in Hwf. apply andb_true_iff in Hwf as [Ht Hwf].
    cbn [render flat_map render_segment without_fences filter plain_text].
    rewrite inline_copy by assumption. f_equal. now apply IH.
  - cbn [delimited] in Hwf.
    apply andb_true_iff in Hwf as [Hwf Hrest].
    apply andb_true_iff in Hwf as [Hwf Hnext].
    apply andb_true_iff in Hwf as [Hne Hc].
    change (render (without_fences (InlineCode c :: segs)))
      with (([backtick] ++ c ++ [backtick]) ++ render (without_fences segs)).
    change (plain_text (InlineCode c :: segs)) with ([] ++ plain_text segs).
    rewrite (replace_loop_match flags_none inline_code [] bef
               ([backtick] ++ c ++ [backtick])
               (render (without_fences segs))
               {| before := backtick :: rev c ++ backtick :: bef;
                  after := render (without_fences segs) |} []).
    + f_equal. now apply IH.
    + rewrite <- !app_assoc. cbn [app]. apply inline_match; auto.
      destruct c; [discriminate Hne | discriminate].
    + reflexivity.
    + discriminate.
  - cbn [delimited] in Hwf. apply andb_true_iff in Hwf as [Hc Hwf].
    cbn [without_fences filter plain_text flat_map app]. now apply IH.
Qed.

(** Code spans are stripped, and only they. *)
Lemma removeCodeBlocks_delimited segs :
  delimited segs = true -> removeCodeBlocks (render segs) = plain_text segs.
Proof.
  intros Hwf. unfold removeCodeBlocks, String_replace_all.
  rewrite fenced_pass_delimited by assumption. now apply inline_pass_delimited.
Qed.

Lemma plain_text_delimited : forall segs,
  delimited segs = true -> no_backtick (plain_text segs) = true.
Proof.
  induction segs as [|[t|c|c] segs IH]; cbn [delimited plain_text flat_map]; intros H.
  - reflexivity.
  - apply andb_true_iff in H as [Ht H]. unfold no_backtick in *.
    rewrite forallb_app, Ht. now apply IH.
  - apply andb_true_iff in H as [_ H]. now apply IH.
  - apply andb_true_iff in H as [_ H]. now apply IH.
Qed.

(** The messages of [well_formed] are among those of [delimited]. *)
Lemma well_formed_delimited : forall segs, well_formed segs = true -> delimited segs = true.
Proof.
  induction segs as [|[t|c|c] segs IH]; cbn [well_formed delimited]; intros H.
  - reflexivity.
  - apply andb_true_iff in H as [Ht H]. now rewrite Ht, IH.
  - apply andb_true_iff in H as [H1 H]. now rewrite H1, IH.
  - apply andb_true_iff in H as [Hc H].
    now rewrite (well_formed_code_fence_free c Hc), IH.
Qed.

End SpanFacts.

Module DetectorFacts.
Import JS RegExp Host Effect Config Keywords Markdown RegExpFacts KeywordsFacts MarkdownFacts Spans SpanFacts.
Local Open Scope string_scope.
Local Open Scope list_scope.

Section Facts.

Variable RegExp_new : str -> option RegExpObject.

Lemma compile_each_run l : forall w,
  compile_each RegExp_new l w
  = (Normal (valid_patterns RegExp_new l),
     {| console := console w ++ invalid_warnings RegExp_new l; parts := parts w |}).
Proof.
  induction l as [|p l IH]; intros w; cbn [compile_each valid_patterns invalid_warnings flat_map].
  - unfold ret. rewrite app_nil_r. now destruct w.
  - destruct (RegExp_new p) as [r|]; unfold bind.
    + rewrite IH. reflexivity.
    + unfold write. rewrite IH. cbn [console parts app]. now rewrite <- app_assoc.
Qed.

(** With detection enabled and well-typed custom patterns, the detector
    returns what the three loops find in the cleaned message, after
    warning about each rejected pattern. *)
Lemma detectKeywords_run config l message w :
  detection_enabled config = true ->
  declared_patterns config = PatArray l ->
  detectKeywords RegExp_new config message w
  = (Normal (scan_patterns (valid_patterns RegExp_new l) (removeCodeBlocks message)),
     {| console := console w ++ invalid_warnings RegExp_new l; parts := parts w |}).
Proof.
  intros He Hp. unfold detectKeywords. rewrite He. cbn [negb].
  unfold compileCustomPatterns. unfold declared_patterns in Hp. rewrite Hp.
  unfold bind. rewrite compile_each_run. unfold scan_patterns.
  destruct (first_match RESEARCH_PATTERNS (removeCodeBlocks message)); [reflexivity|].
  destruct (first_match (valid_patterns RegExp_new l) (removeCodeBlocks message));
    [reflexivity|].
  destruct (first_match SEARCH_PATTERNS (removeCodeBlocks message)); reflexivity.
Qed.

Lemma tagged_none t ps s :
  first_match ps s = None ->
  Forall (fun q : match_type * RegExpObject => snd q s = None) (map (pair t) ps).
Proof.
  intros H. apply first_match_None in H. apply Forall_map.
  eapply Forall_impl; [|exact H]. auto.
Qed.

Lemma tagged_split t ps s m :
  first_match ps s = Some m ->
  exists pre r post,
    map (pair t) ps = pre ++ (t, r) :: post
    /\ Forall (fun q : match_type * RegExpObject => snd q s = None) pre
    /\ r s = Some m.
Proof.
  intros H. destruct (first_match_Some ps s m H) as (pre & r & post & -> & Hpre & Hr).
  exists (map (pair t) pre), r, (map (pair t) post). rewrite map_app. cbn [map].
  repeat split; auto. apply Forall_map. eapply Forall_impl; [|exact Hpre]. auto.
Qed.

(** C1. With detection enabled, [detectKeywords] walks the research
    patterns, then the compiled custom patterns, then the built-in search
    patterns, and returns the first match of that walk with its category and
    matched text; whenever a research pattern matches the message outside
    its code spans, the category is research, whatever else matches. *)
Theorem detectKeywords_scans_in_order config l message w :
  detection_enabled config = true ->
  declared_patterns config = PatArray l ->
  let cleaned := removeCodeBlocks message in
  let order := scan_order (valid_patterns RegExp_new l) in
  let result := fst (detectKeywords RegExp_new config message w) in
  ((exists pre t r post m,
       order = pre ++ (t, r) :: post
       /\ Forall (fun q => snd q cleaned = None) pre
       /\ r cleaned = Some m
       /\ result = Normal (Some {| type := t; matchedText := m |}))
   \/ (Forall (fun q => snd q cleaned = None) order /\ result = Normal None))
  /\ ((exists r, In r RESEARCH_PATTERNS /\ r cleaned <> None) ->
      exists m, result = Normal (Some {| type := research; matchedText := m |}))
  /\ (forall segs,
        message = render segs -> well_formed segs = true ->
        (exists r, In r RESEARCH_PATTERNS /\ r (plain_text segs) <> None) ->
        exists m, result = Normal (Some {| type := research; matchedText := m |})).
Proof.
  intros He Hp cleaned order result.
  assert (Er : result = Normal (scan_patterns (valid_patterns RegExp_new l) cleaned)).
  { unfold result. now rewrite (detectKeywords_run config l message w He Hp). }
  unfold scan_patterns in Er. unfold order, scan_order.
  assert (Research : (exists r, In r RESEARCH_PATTERNS /\ r cleaned <> None) ->
            exists m, result = Normal (Some {| type := research; matchedText := m |})).
  { intros (r & Hin & Hr).
    destruct (first_match RESEARCH_PATTERNS cleaned) as [m|] eqn:E1; eauto.
    exfalso. revert E1. now apply first_match_exists with (r := r). }
  split; [|split; [exact Research|]].
  2:{ intros segs -> Hwf Hr. apply Research. unfold cleaned.
      now rewrite (removeCodeBlocks_segments segs Hwf). }
  - destruct (first_match RESEARCH_PATTERNS cleaned) as [m|] eqn:E1.
    { left. destruct (tagged_split research _ _ _ E1) as (pre & r & post & -> & Hpre & Hr).
      exists pre, research, r, (post ++ map (pair search) (valid_patterns RegExp_new l)
                                  ++ map (pair search) SEARCH_PATTERNS), m.
      rewrite <- app_assoc. cbn [app]. auto. }
    pose proof (tagged_none research _ _ E1) as N1.
    destruct (first_match (valid_patterns RegExp_new l) cleaned) as [m|] eqn:E2.
    { left. destruct (tagged_split search _ _ _ E2) as (pre & r & post & -> & Hpre & Hr).
      exists (map (pair research) RESEARCH_PATTERNS ++ pre), search, r,
        (post ++ map (pair search) SEARCH_PATTERNS), m.
      rewrite <- !app_assoc. cbn [app]. repeat split; auto.
      apply Forall_app; auto. }
    pose proof (tagged_none search _ _ E2) as N2.
    destruct (first_match SEARCH_PATTERNS cleaned) as [m|] eqn:E3.
    { left. destruct (tagged_split search _ _ _ E3) as (pre & r & post & -> & Hpre & Hr).
      exists (map (pair research) RESEARCH_PATTERNS
              ++ map (pair search) (valid_patterns RegExp_new l) ++ pre),
        search, r, post, m.
      rewrite <- !app_assoc. repeat split; auto.
      repeat (apply Forall_app; split; auto). }
    right. split; auto.
    repeat (apply Forall_app; split; auto). now apply tagged_none.
Qed.

(** C8. With [keywords.enabled] false, no message is matched. *)
Theorem detectKeywords_disabled config message w :
  opt_field (keywords config) enabled = Some false ->
  detectKeywords RegExp_new config message w = (Normal None, w).
Proof.
  intros H. unfold detectKeywords, detection_enabled. rewrite H. reflexivity.
Qed.

Lemma valid_patterns_skip l1 p l2 :
  RegExp_new p = None ->
  valid_patterns RegExp_new (l1 ++ p :: l2) = valid_patterns RegExp_new (l1 ++ l2).
Proof.
  intros H. unfold valid_patterns. rewrite !flat_map_app. cbn [flat_map].
  now rewrite H.
Qed.

(** C5. A custom pattern the engine rejects is reported on the console and
    skipped: detection completes normally, and returns exactly what it
    returns for the configuration without that pattern; in particular the
    built-in patterns match as before. *)
Theorem invalid_custom_pattern_skipped config l1 p l2 message w :
  detection_enabled config = true ->
  declared_patterns config = PatArray (l1 ++ p :: l2) ->
  RegExp_new p = None ->
  let run := detectKeywords RegExp_new config message w in
  let without := with_customPatterns config (l1 ++ l2) in
  fst run = fst (detectKeywords RegExp_new without message w)
  /\ (exists found, fst run = Normal found)
  /\ In (WarnInvalidPattern p) (console (snd run))
  /\ (forall m, first_match RESEARCH_PATTERNS (removeCodeBlocks message) = Some m ->
        fst run = Normal (Some {| type := research; matchedText := m |}))
  /\ (forall m, first_match RESEARCH_PATTERNS (removeCodeBlocks message) = None ->
        first_match (valid_patterns RegExp_new (l1 ++ l2)) (removeCodeBlocks message) = None ->
        first_match SEARCH_PATTERNS (removeCodeBlocks message) = Some m ->
        fst run = Normal (Some {| type := search; matchedText := m |})).
Proof.
  intros He Hp Hbad run without.
  assert (He' : detection_enabled without = true).
  { unfold detection_enabled in *. unfold without, with_customPatterns. cbn.
    unfold opt_field, nullish in *. destruct (keywords config); [|discriminate].
    destruct (enabled k); [|discriminate]. assumption. }
  assert (Hp' : declared_patterns without = PatArray (l1 ++ l2)) by reflexivity.
  unfold run.
  rewrite (detectKeywords_run config _ message w He Hp).
  rewrite (detectKeywords_run without _ message w He' Hp').
  cbn [fst snd console]. rewrite (valid_patterns_skip l1 p l2 Hbad).
  repeat split.
  - eauto.
  - apply in_or_app. right. unfold invalid_warnings. apply in_flat_map.
    exists p. split; [apply in_or_app; right; left; reflexivity|].
    rewrite Hbad. left. reflexivity.
  - intros m E. unfold scan_patterns. now rewrite E.
  - intros m E1 E2 E3. unfold scan_patterns. now rewrite E1, E2, E3.
Qed.

(** The cleaned form of a well-formed message is its text outside the
    code spans, which itself has nothing to strip. *)
Lemma plain_text_clean segs :
  well_formed segs = true -> no_backtick (plain_text segs) = true.
Proof.
  induction segs as [|[t|c|c] segs IH]; cbn [well_formed plain_text flat_map]; intros H.
  - reflexivity.
  - apply andb_true_iff in H as [Ht H]. unfold no_backtick in *.
    rewrite forallb_app, Ht. now apply IH.
  - apply andb_true_iff in H as [_ H]. now apply IH.
  - apply andb_true_iff in H as [_ H]. now apply IH.
Qed.

Lemma detectKeywords_code_blind config segs w :
  well_formed segs = true ->
  detectKeywords RegExp_new config (render segs) w
  = detectKeywords RegExp_new config (plain_text segs) w.
Proof.
  intros H. unfold detectKeywords.
  rewrite (removeCodeBlocks_segments segs H).
  now rewrite (removeCodeBlocks_plain _ (plain_text_clean segs H)).
Qed.

(** C2. In a message whose code spans are delimited as they are meant to
    (text outside them without backtick; an inline span not empty, without
    backtick, its closing backtick not followed by two more; no fence
    starting inside a fenced block), text inside a fenced block or an
    inline span cannot trigger the detector: when the text outside the code
    spans triggers nothing, the whole message yields no match. *)
Theorem code_spans_do_not_trigger config segs w :
  delimited segs = true ->
  fst (detectKeywords RegExp_new config (plain_text segs) w) = Normal None ->
  fst (detectKeywords RegExp_new config (render segs) w) = Normal None.
Proof.
  intros Hd H. unfold detectKeywords in *.
  rewrite (removeCodeBlocks_delimited segs Hd).
  now rewrite (removeCodeBlocks_plain _ (plain_text_delimited segs Hd)) in H.
Qed.


End Facts.

End DetectorFacts.

Module PluginFacts.
Import JS RegExp Host Effect Config Keywords Plugin.
Import RegExpFacts KeywordsFacts DetectorFacts.
Local Open Scope string_scope.
Local Open Scope list_scope.

(** *** Identifiers *)

Lemma lit_inj s1 s2 : lit s1 = lit s2 -> s1 = s2.
Proof.
  unfold lit. intros H.
  assert (E : list_ascii_of_string s1 = list_ascii_of_string s2).
  { revert H. generalize (list_ascii_of_string s1) (list_ascii_of_string s2).
    induction l as [|a l IH]; intros [|b l'] H; try discriminate; auto.
    cbn [map] in H. injection H as Hab Hl.
    f_equal; auto.
    rewrite <- (ascii_N_embedding a), <- (ascii_N_embedding b). now rewrite Hab. }
  rewrite <- (string_of_list_ascii_of_string s1), <- (string_of_list_ascii_of_string s2).
  now rewrite E.
Qed.

Lemma to_int_proper z :
  Z.to_int z <> Decimal.Pos Decimal.Nil /\ Z.to_int z <> Decimal.Neg Decimal.Nil.
Proof.
  destruct z as [|p|p]; cbn; split; try discriminate;
    intros H; injection H as H; now apply (DecimalPos.Unsigned.to_uint_nonnil p).
Qed.

Lemma decimal_inj z1 z2 : decimal z1 = decimal z2 -> z1 = z2.
Proof.
  unfold decimal. intros H. apply lit_inj in H.
  apply DecimalZ.to_int_inj.
  destruct (to_int_proper z1) as [A1 B1]. destruct (to_int_proper z2) as [A2 B2].
  pose proof (NilZero.isi (Z.to_int z1) A1 B1) as E1.
  pose proof (NilZero.isi (Z.to_int z2) A2 B2) as E2.
  rewrite H in E1. congruence.
Qed.

Lemma startsWith_prefix p s : startsWith (p ++ s) p = true.
Proof.
  induction p as [|c p IH]; [now destruct s|].
  cbn [app startsWith]. now rewrite N.eqb_refl.
Qed.

Lemma nudge_id_inj t1 n1 t2 n2 :
  nudge_id t1 n1 = nudge_id t2 n2 -> t1 = t2 /\ n1 = n2.
Proof.
  unfold nudge_id. intros H. apply app_inv_head in H.
  destruct t1, t2; cbn [type_name] in H;
    try (cbn in H; discriminate H);
    apply app_inv_head in H; apply app_inv_head in H;
    split; auto; now apply decimal_inj.
Qed.

Section Facts.

Variable RegExp_new : str -> option RegExpObject.
Variable config : PerplexityConfig.
Variable env : Env.

(** *** Effects of the pieces *)

Lemma debug_run l w :
  debug env l w
  = (Normal tt, {| console := console w ++ (if Logger.DEBUG env then [l] else []);
                   parts := parts w |}).
Proof.
  unfold debug, Logger.debug. destruct (Logger.DEBUG env).
  - reflexivity.
  - unfold ret. rewrite app_nil_r. now destruct w.
Qed.

(** The detector writes to the console only, and its answer does not depend
    on the world it runs in. *)
Lemma detectKeywords_frame message w :
  parts (snd (detectKeywords RegExp_new config message w)) = parts w
  /\ fst (detectKeywords RegExp_new config message w)
     = fst (detectKeywords RegExp_new config message {| console := []; parts := [] |}).
Proof.
  unfold detectKeywords.
  destruct (negb (detection_enabled config)); [split; reflexivity|].
  unfold compileCustomPatterns.
  destruct (nullish (opt_field (keywords config) customPatterns) (PatArray [])) as [l|].
  - unfold bind. rewrite !compile_each_run.
    destruct (first_match RESEARCH_PATTERNS (removeCodeBlocks message));
      [split; reflexivity|].
    destruct (first_match (valid_patterns RegExp_new l) (removeCodeBlocks message));
      [split; reflexivity|].
    destruct (first_match SEARCH_PATTERNS (removeCodeBlocks message)); split; reflexivity.
  - split; reflexivity.
Qed.

Lemma detected_spec message w :
  detected RegExp_new config message
  = match fst (detectKeywords RegExp_new config message w) with
    | Normal found => found
    | Throw _ => None
    end.
Proof.
  unfold detected. now rewrite (proj2 (detectKeywords_frame message w)).
Qed.

(** What the [try] block does to the segments: it appends the nudge on a
    match and leaves them alone otherwise, also when it throws. *)
Lemma process_message_parts clock input mid w :
  parts (snd (process_message RegExp_new config env clock input mid w))
  = parts w ++
    (let textParts := filter is_text (parts w) in
     let userMessage := join [newline] (map part_text textParts) in
     if negb (Nat.eqb (length textParts) 0) && truthy (trim userMessage)
     then match detected RegExp_new config userMessage with
          | Some m => [nudge_part clock input mid m]
          | None => []
          end
     else [])
  /\ (forall e, fst (process_message RegExp_new config env clock input mid w) = Throw e ->
        parts (snd (process_message RegExp_new config env clock input mid w)) = parts w).
Proof.
  unfold process_message, bind, get_parts. cbv zeta.
  destruct (Nat.eqb (length (filter is_text (parts w))) 0).
  { rewrite debug_run. cbn. rewrite app_nil_r. split; [reflexivity | discriminate]. }
  cbn [negb andb].
  destruct (truthy (trim (join [newline] (map part_text (filter is_text (parts w)))))).
  2:{ cbn [negb]. rewrite debug_run. cbn. rewrite app_nil_r.
      split; [reflexivity | discriminate]. }
  cbn [negb]. rewrite debug_run.
  set (w1 := {| console := _; parts := parts w |}).
  set (msg := join [newline] (map part_text (filter is_text (parts w)))).
  rewrite (detected_spec msg w1).
  pose proof (proj1 (detectKeywords_frame msg w1)) as Hp.
  destruct (detectKeywords RegExp_new config msg w1) as [[found|e] w2].
  - cbn [fst snd] in *. destruct found as [m|].
    + rewrite debug_run. unfold push. cbn [parts console]. rewrite debug_run.
      cbn [fst snd parts]. rewrite Hp. split; [reflexivity | discriminate].
    + unfold ret. cbn [fst snd]. rewrite Hp, app_nil_r.
      split; [reflexivity | discriminate].
  - cbn [fst snd] in *. rewrite Hp, app_nil_r. split; auto.
Qed.

(** C3 (as amended). The handler always completes normally.  When the
    processing of the message throws, the exception is caught and handed to
    the debug logger, which writes it to the console only when
    PERPLEXITY_DEBUG is ["true"]; either way the handler returns with the
    segments as they were: no nudge is appended. *)
Theorem chat_message_never_throws clock input mid w :
  fst (chat_message RegExp_new config env clock input mid w) = Normal tt
  /\ (forall e w1,
        isConfigured config = true ->
        process_message RegExp_new config env clock input mid w = (Throw e, w1) ->
        console (snd (chat_message RegExp_new config env clock input mid w))
        = console w1 ++ (if Logger.DEBUG env then [LogError e] else [])
        /\ parts (snd (chat_message RegExp_new config env clock input mid w)) = parts w).
Proof.
  unfold chat_message, try_catch. split.
  - destruct (isConfigured config); [|reflexivity]. cbn [negb].
    destruct (process_message RegExp_new config env clock input mid w) as [[[]|e] w1].
    + reflexivity.
    + rewrite debug_run. reflexivity.
  - intros e w1 Hc Hthrow. rewrite Hc. cbn [negb]. rewrite Hthrow.
    rewrite debug_run. cbn [snd parts console]. split; [reflexivity|].
    pose proof (proj2 (process_message_parts clock input mid w) e) as H.
    rewrite Hthrow in H. now apply H.
Qed.

(** C4. The handler only ever appends: the segments present before are
    still there, in order and unchanged, followed by exactly one new
    segment when the detector matched and by nothing otherwise.  The new
    segment is a synthetic text segment that carries the nudge text of the
    matched category and an identifier built from the category and the
    clock: distinct for distinct categories or clock readings, and distinct
    from every identifier outside the [perplexity-] name space. *)
Theorem chat_message_only_appends clock input mid w :
  let existing := parts w in
  let after_hook := parts (snd (chat_message RegExp_new config env clock input mid w)) in
  let textParts := filter is_text existing in
  let userMessage := join [newline] (map part_text textParts) in
  after_hook = existing ++ appended RegExp_new config clock input mid existing
  /\ (forall m,
        isConfigured config = true -> textParts <> [] ->
        truthy (trim userMessage) = true ->
        detected RegExp_new config userMessage = Some m ->
        after_hook
        = existing ++
          [TextPart (nudge_id (type m) (at_id clock)) (sessionID input) mid
                    (match type m with
                     | research => getResearchNudge
                     | search => getSearchNudge
                     end)
                    (Some true)])
  /\ (detected RegExp_new config userMessage = None -> after_hook = existing)
  /\ (isConfigured config = false -> after_hook = existing)
  /\ (forall t1 n1 t2 n2, nudge_id t1 n1 = nudge_id t2 n2 -> t1 = t2 /\ n1 = n2)
  /\ (forall t now,
        Forall (fun p => startsWith (part_id p) (lit "perplexity-") = false) existing ->
        ~ In (nudge_id t now) (map part_id existing)).
Proof.
  cbv zeta.
  assert (Happ : parts (snd (chat_message RegExp_new config env clock input mid w))
                 = parts w ++ appended RegExp_new config clock input mid (parts w)).
  { unfold chat_message, try_catch, appended.
    destruct (isConfigured config).
    2:{ cbn. now rewrite app_nil_r. }
    cbn [negb andb].
    pose proof (process_message_parts clock input mid w) as [Hparts Hthrow].
    destruct (process_message RegExp_new config env clock input mid w) as [[[]|e] w1].
    + exact Hparts.
    + rewrite debug_run. cbn [snd parts] in *. exact Hparts. }
  split; [exact Happ|]. rewrite Happ. unfold appended. repeat split.
  - intros m Hc Htext Hblank Hm. rewrite Hc, Hblank, Hm.
    destruct (filter is_text (parts w)); [congruence | reflexivity].
  - intros Hm. rewrite Hm.
    destruct (isConfigured config && _ && _); now rewrite app_nil_r.
  - intros Hc. rewrite Hc. cbn [andb]. now rewrite app_nil_r.
  - now apply (nudge_id_inj t1 n1 t2 n2).
  - now apply (nudge_id_inj t1 n1 t2 n2).
  - intros t now Hall Hin. apply in_map_iff in Hin as (p & Hid & Hp).
    rewrite Forall_forall in Hall. specialize (Hall p Hp).
    rewrite Hid in Hall. unfold nudge_id in Hall.
    now rewrite startsWith_prefix in Hall.
Qed.

(** C10. A message that no research pattern matches and that a custom
    pattern matches is reported in category search, with the text matched
    by the first such custom pattern, and the nudge built for it is the
    search template, which differs from the research template. *)
Theorem custom_pattern_selects_search l p r message clock input mid w :
  detection_enabled config = true ->
  declared_patterns config = PatArray l ->
  first_match RESEARCH_PATTERNS (removeCodeBlocks message) = None ->
  In p l -> RegExp_new p = Some r -> r (removeCodeBlocks message) <> None ->
  exists m,
    fst (detectKeywords RegExp_new config message w)
    = Normal (Some {| type := search; matchedText := m |})
    /\ first_match (valid_patterns RegExp_new l) (removeCodeBlocks message) = Some m
    /\ part_text (nudge_part clock input mid {| type := search; matchedText := m |})
       = getSearchNudge
    /\ getSearchNudge <> getResearchNudge.
Proof.
  intros He Hp Hres Hin Hr Hm.
  assert (Hv : In r (valid_patterns RegExp_new l)).
  { unfold valid_patterns. apply in_flat_map. exists p. split; auto.
    rewrite Hr. left. reflexivity. }
  destruct (first_match (valid_patterns RegExp_new l) (removeCodeBlocks message))
    as [m|] eqn:E.
  2:{ exfalso. revert E. now apply first_match_exists with (r := r). }
  exists m. rewrite (detectKeywords_run RegExp_new config l message w He Hp).
  unfold scan_patterns. rewrite Hres, E. repeat split.
  intros H. apply (f_equal (fun s => nth 26 s 0%N)) in H. vm_compute in H. discriminate H.
Qed.

End Facts.

End PluginFacts.

Module ConfigFacts.
Import JS Config.

(** C7 (as amended). The file's [apiKey], when set and not empty, is the key in use
    whatever PERPLEXITY_API_KEY holds; the environment variable supplies
    the key only when the file gives none or an empty one. *)
Theorem file_apiKey_takes_precedence fileConfig env :
  (forall fromFile,
      file_apiKey fileConfig = Some fromFile -> fromFile <> [] ->
      apiKey (loadConfig fileConfig env) = fromFile)
  /\ (forall fromEnv,
        file_apiKey fileConfig = None \/ file_apiKey fileConfig = Some [] ->
        PERPLEXITY_API_KEY env = Some fromEnv ->
        apiKey (loadConfig fileConfig env) = fromEnv).
Proof.
  unfold loadConfig; cbn [apiKey]. split.
  - intros f Hf Hne. rewrite Hf. destruct f as [|c f]; [congruence|]. reflexivity.
  - intros e Hf He. rewrite He.
    destruct Hf as [-> | ->]; destruct e; reflexivity.
Qed.

End ConfigFacts.

Module InstallerFacts.
Import JS RegExp JSON Installer.
Local Open Scope string_scope.
Local Open Scope list_scope.

Lemma str_eqb_refl s : str_eqb s s = true.
Proof. unfold str_eqb. destruct (list_eq_dec N.eq_dec s s); congruence. Qed.

Lemma str_eqb_eq a b : str_eqb a b = true -> a = b.
Proof. unfold str_eqb. destruct (list_eq_dec N.eq_dec a b); congruence. Qed.

Lemma path_join_differs base a b :
  lit a <> lit b -> str_eqb (path_join base a) (path_join base b) = false.
Proof.
  intros H. destruct (str_eqb (path_join base a) (path_join base b)) eqn:E; auto.
  apply str_eqb_eq in E. unfold path_join in E.
  apply app_inv_head in E. apply app_inv_head in E. contradiction.
Qed.

Lemma write_same path data f : writeFileSync path data f path = Some data.
Proof. unfold writeFileSync. now rewrite str_eqb_refl. Qed.

Lemma write_other path data f p :
  str_eqb p path = false -> writeFileSync path data f p = f p.
Proof. unfold writeFileSync. now intros ->. Qed.

Lemma write_twice path data f p :
  writeFileSync path data (writeFileSync path data f) p = writeFileSync path data f p.
Proof. unfold writeFileSync. destruct (str_eqb p path); reflexivity. Qed.

Section Facts.

(** The configuration directory and the JSON parser, as in [Installer]. *)
Variable dir : str.
Variable JSON_parse : str -> option value.

Lemma found_config_is_not_settings f configPath :
  findOpencodeConfig dir f = Some configPath ->
  str_eqb configPath (PERPLEXITY_CONFIG_PATH dir) = false.
Proof.
  unfold findOpencodeConfig. cbn [find].
  destruct (existsSync (path_join dir "opencode.jsonc") f).
  - intros H; injection H as <-. apply path_join_differs. discriminate.
  - destruct (existsSync (path_join dir "opencode.json") f); [|discriminate].
    intros H; injection H as <-. apply path_join_differs. discriminate.
Qed.

Lemma find_after_settings data f :
  findOpencodeConfig dir (writeFileSync (PERPLEXITY_CONFIG_PATH dir) data f)
  = findOpencodeConfig dir f.
Proof.
  unfold findOpencodeConfig, existsSync. cbn [find].
  rewrite !write_other by (apply path_join_differs; discriminate). reflexivity.
Qed.

Lemma agents_is_not_settings : str_eqb (AGENTS_MD_PATH dir) (PERPLEXITY_CONFIG_PATH dir) = false.
Proof. apply path_join_differs. discriminate. Qed.

(** Writing the settings file keeps a configured environment configured. *)
Lemma configured_after_settings data f :
  configured dir JSON_parse f ->
  configured dir JSON_parse (writeFileSync (PERPLEXITY_CONFIG_PATH dir) data f).
Proof.
  intros (p & content & parsed & agents & Hfind & Hp & Hinc & Hparse & Hmcp & Ha & Hai).
  exists p, content, parsed, agents. rewrite find_after_settings.
  rewrite (write_other _ _ _ _ (found_config_is_not_settings f p Hfind)).
  rewrite (write_other _ _ _ _ agents_is_not_settings). auto 10.
Qed.

Lemma addPlugin_registered configPath content f :
  f configPath = Some content ->
  includes content (lit "perplexity-opencode") = true ->
  addPluginToConfig JSON_parse configPath f = (f, true).
Proof. intros Hp Hinc. unfold addPluginToConfig. now rewrite Hp, Hinc. Qed.

Lemma addMcp_registered configPath content parsed apiKey f :
  f configPath = Some content ->
  JSON_parse (stripJsoncComments content) = Some parsed ->
  mcp_registered parsed = true ->
  addMcpServerToConfig JSON_parse configPath apiKey f = (f, true).
Proof.
  intros Hp Hparse Hmcp. unfold addMcpServerToConfig. rewrite Hp, Hparse.
  unfold mcp_registered in Hmcp.
  destruct (get parsed (lit "mcp")) as [[mcp|]|]; try discriminate.
  apply andb_true_iff in Hmcp as [Ht Hentry]. rewrite Ht.
  destruct (get mcp (lit "perplexity")) as [[entry|]|]; try discriminate.
  now rewrite Hentry.
Qed.

Lemma updateAgents_present agents f :
  f (AGENTS_MD_PATH dir) = Some agents ->
  includes agents (lit "# How to use Perplexity") = true ->
  updateAgentsMd dir f = (f, true).
Proof. intros Ha Hinc. unfold updateAgentsMd. now rewrite Ha, Hinc. Qed.

(** On a configured environment the installer touches nothing but the
    settings file. *)
Lemma install_configured options env_apiKey answers f :
  configured dir JSON_parse f ->
  fst (install dir JSON_parse options env_apiKey answers f)
  = if JS.truthy (effective_apiKey options env_apiKey answers)
    then writeFileSync (PERPLEXITY_CONFIG_PATH dir)
           (settings_document (effective_apiKey options env_apiKey answers)) f
    else f.
Proof.
  intros Hc. unfold install. cbv zeta.
  fold (effective_apiKey options env_apiKey answers).
  set (key := effective_apiKey options env_apiKey answers).
  set (f2 := if JS.truthy key then fst (createPerplexityConfig dir key f) else f).
  assert (Hc2 : configured dir JSON_parse f2).
  { unfold f2. destruct (JS.truthy key); auto.
    now apply configured_after_settings. }
  assert (E2 : f2 = if JS.truthy key
                    then writeFileSync (PERPLEXITY_CONFIG_PATH dir)
                                       (settings_document key) f
                    else f)
    by reflexivity.
  destruct Hc2
    as (p & content & parsed & agents & Hfind & Hp & Hinc & Hparse & Hmcp & Ha & Hai).
  rewrite Hfind.
  assert (Step : forall g : fs,
             g = f2 ->
             fst (addPluginToConfig JSON_parse p g) = f2
             /\ fst (addMcpServerToConfig JSON_parse p key g) = f2
             /\ fst (updateAgentsMd dir g) = f2).
  { intros g ->.
    rewrite (addPlugin_registered p content f2 Hp Hinc).
    rewrite (addMcp_registered p content parsed key f2 Hp Hparse Hmcp).
    rewrite (updateAgents_present agents f2 Ha Hai). auto. }
  destruct (Step f2 eq_refl) as (S1 & S2 & S3).
  rewrite S1, S2.
  replace (if JS.truthy key then f2 else f2) with f2 by (now destruct (JS.truthy key)).
  replace (if modify_config answers then f2 else f2) with f2
    by (now destruct (modify_config answers)).
  replace (if tui options then f2 else f2) with f2 by (now destruct (tui options)).
  rewrite S3.
  replace (if update_agents answers then f2 else f2) with f2
    by (now destruct (update_agents answers)).
  replace (if tui options then f2 else f2) with f2 by (now destruct (tui options)).
  exact E2.
Qed.

(** C6 (as amended). The settings file is written on every run that has
    an API key, replacing whatever was there, while the plugin identifier is
    registered only when the host configuration does not name it yet; so a
    run on a configured environment changes no file but the settings file,
    which then holds the one settings document, and a second run changes
    nothing at all. *)
Theorem installer_rerun_adds_nothing options env_apiKey answers f :
  configured dir JSON_parse f ->
  let key := effective_apiKey options env_apiKey answers in
  let once := fst (install dir JSON_parse options env_apiKey answers f) in
  let twice := fst (install dir JSON_parse options env_apiKey answers once) in
  (forall apiKey g,
      createPerplexityConfig dir apiKey g
      = (writeFileSync (PERPLEXITY_CONFIG_PATH dir) (settings_document apiKey) g, true))
  /\ (forall configPath content g,
        g configPath = Some content ->
        includes content (lit "perplexity-opencode") = true ->
        addPluginToConfig JSON_parse configPath g = (g, true))
  /\ (forall path, str_eqb path (PERPLEXITY_CONFIG_PATH dir) = false -> once path = f path)
  /\ once (PERPLEXITY_CONFIG_PATH dir)
     = (if JS.truthy key then Some (settings_document key) else f (PERPLEXITY_CONFIG_PATH dir))
  /\ (forall path, twice path = once path).
Proof.
  intros Hc key once twice.
  assert (E1 : once = if JS.truthy key
                      then writeFileSync (PERPLEXITY_CONFIG_PATH dir)
                                         (settings_document key) f
                      else f)
    by (apply install_configured; assumption).
  assert (Hc1 : configured dir JSON_parse once).
  { rewrite E1. destruct (JS.truthy key); auto. now apply configured_after_settings. }
  assert (E2 : twice = if JS.truthy key
                       then writeFileSync (PERPLEXITY_CONFIG_PATH dir)
                                          (settings_document key) once
                       else once)
    by (apply install_configured; assumption).
  split; [reflexivity|]. split; [intros; eapply addPlugin_registered; eauto|].
  split; [|split].
  - intros path Hpath. rewrite E1. destruct (JS.truthy key); auto.
    now apply write_other.
  - rewrite E1. destruct (JS.truthy key); auto. apply write_same.
  - intros path. rewrite E2. destruct (JS.truthy key) eqn:Ek; auto.
    rewrite E1. apply write_twice.
Qed.

End Facts.

End InstallerFacts.

Module Witnesses.
Import JS RegExp Host Effect Config Keywords Markdown Spans Plugin Installer Samples.
Import DetectorFacts PluginFacts ConfigFacts InstallerFacts.
Local Open Scope string_scope.
Local Open Scope list_scope.

Lemma detectKeywords_scans_in_order_witness :
  let config := custom_config ["dive"] in
  detection_enabled config = true
  /\ declared_patterns config = PatArray [lit "dive"]
  /\ exists m,
       fst (detectKeywords literal_engine config
              (lit "Please do a deep dive and search the web") empty_world)
       = Normal (Some {| type := research; matchedText := m |}).
Proof.
  split; [reflexivity|]. split; [reflexivity|].
  apply (proj1 (proj2 (detectKeywords_scans_in_order literal_engine
                         (custom_config ["dive"]) [lit "dive"]
                         (lit "Please do a deep dive and search the web")
                         empty_world eq_refl eq_refl))).
  exists (nth 0 RESEARCH_PATTERNS (fun _ => None)).
  split; [left; reflexivity|]. vm_compute. discriminate.
Defined.

Lemma code_spans_do_not_trigger_witness :
  fst (detectKeywords literal_engine plain_config
         (lit "use `search the web` in your code") empty_world)
  = Normal None.
Proof.
  apply (code_spans_do_not_trigger literal_engine plain_config
           [Plain (lit "use "); InlineCode (lit "search the web");
            Plain (lit " in your code")] empty_world).
  - reflexivity.
  - vm_compute. reflexivity.
Defined.

(** With debug logging off, an exception is caught and leaves no trace. *)
Lemma caught_exception_not_logged_by_default :
  let w := world_with "look up rust" in
  let run := process_message literal_engine ill_typed_config no_env sample_clock
                             sample_input (lit "msg_1") w in
  let hook := chat_message literal_engine ill_typed_config no_env sample_clock
                           sample_input (lit "msg_1") w in
  Logger.DEBUG no_env = false
  /\ fst run = Throw (TypeError_not_a_function "customPatterns.map")
  /\ fst hook = Normal tt
  /\ console (snd hook) = [].
Proof. repeat split. Qed.

Lemma chat_message_never_throws_witness :
  let w := world_with "look up rust" in
  let run := process_message literal_engine ill_typed_config debug_env sample_clock
                             sample_input (lit "msg_1") w in
  let hook := chat_message literal_engine ill_typed_config debug_env sample_clock
                           sample_input (lit "msg_1") w in
  fst run = Throw (TypeError_not_a_function "customPatterns.map")
  /\ fst hook = Normal tt
  /\ parts (snd hook) = parts w
  /\ console (snd hook)
     = [LogProcessing (lit "look up rust") 2;
        LogError (TypeError_not_a_function "customPatterns.map")].
Proof.
  cbv zeta.
  destruct (chat_message_never_throws literal_engine ill_typed_config debug_env
              sample_clock sample_input (lit "msg_1") (world_with "look up rust"))
    as [Hnormal Hcaught].
  destruct (Hcaught (TypeError_not_a_function "customPatterns.map")
              (snd (process_message literal_engine ill_typed_config debug_env sample_clock
                      sample_input (lit "msg_1") (world_with "look up rust")))
              eq_refl eq_refl) as [Hlog Hparts].
  split; [reflexivity|]. split; [exact Hnormal|]. split; [exact Hparts|].
  rewrite Hlog. reflexivity.
Defined.

Lemma chat_message_only_appends_witness :
  let w := world_with "Can you search the web for today's weather?" in
  parts (snd (chat_message literal_engine plain_config no_env sample_clock
                           sample_input (lit "msg_1") w))
  = parts w ++ [TextPart (lit "perplexity-search-nudge-1700000000002") (lit "ses_1")
                         (lit "msg_1") getSearchNudge (Some true)].
Proof.
  cbv zeta.
  destruct (chat_message_only_appends literal_engine plain_config no_env sample_clock
              sample_input (lit "msg_1")
              (world_with "Can you search the web for today's weather?"))
    as (_ & Hmatch & _).
  apply (Hmatch {| type := search; matchedText := lit "search the web" |}).
  - reflexivity.
  - discriminate.
  - vm_compute. reflexivity.
  - vm_compute. reflexivity.
Defined.

Lemma invalid_custom_pattern_skipped_witness :
  let config := custom_config ["("; "weather"] in
  let run := detectKeywords literal_engine config (lit "look up rust") empty_world in
  literal_engine (lit "(") = None
  /\ fst run = Normal (Some {| type := search; matchedText := lit "look up" |})
  /\ In (WarnInvalidPattern (lit "(")) (console (snd run)).
Proof.
  cbv zeta. split; [reflexivity|].
  destruct (invalid_custom_pattern_skipped literal_engine
              (custom_config ["("; "weather"]) [] (lit "(") [lit "weather"]
              (lit "look up rust") empty_world eq_refl eq_refl eq_refl)
    as (_ & _ & Hwarn & _ & Hsearch).
  split; [|exact Hwarn].
  apply Hsearch; vm_compute; reflexivity.
Defined.

Lemma detectKeywords_disabled_witness :
  detectKeywords literal_engine disabled_config (lit "search the web") empty_world
  = (Normal None, empty_world).
Proof.
  apply (detectKeywords_disabled literal_engine disabled_config (lit "search the web")
           empty_world eq_refl).
Defined.


Lemma custom_pattern_selects_search_witness :
  exists m,
    fst (detectKeywords literal_engine (custom_config ["weather"])
           (lit "Weather tomorrow?") empty_world)
    = Normal (Some {| type := search; matchedText := m |})
    /\ first_match (valid_patterns literal_engine [lit "weather"])
                   (removeCodeBlocks (lit "Weather tomorrow?")) = Some m
    /\ part_text (nudge_part sample_clock sample_input (lit "msg_1")
                             {| type := search; matchedText := m |})
       = getSearchNudge
    /\ getSearchNudge <> getResearchNudge.
Proof.
  assert (Hm : String_match flags_i (letters (lit "weather"))
                 (removeCodeBlocks (lit "Weather tomorrow?")) <> None).
  { vm_compute. discriminate. }
  apply (custom_pattern_selects_search literal_engine (custom_config ["weather"])
           [lit "weather"] (lit "weather")
           (String_match flags_i (letters (lit "weather")))
           (lit "Weather tomorrow?") sample_clock sample_input (lit "msg_1") empty_world
           eq_refl eq_refl).
  - vm_compute. reflexivity.
  - left. reflexivity.
  - reflexivity.
  - exact Hm.
Defined.

(** The key of the settings file wins over PERPLEXITY_API_KEY. *)
Lemma environment_does_not_override_file :
  file_apiKey file_with_key = Some (lit "pplx-file")
  /\ PERPLEXITY_API_KEY env_with_key = Some (lit "pplx-env")
  /\ apiKey (loadConfig file_with_key env_with_key) = lit "pplx-file"
  /\ apiKey (loadConfig file_with_key env_with_key) <> lit "pplx-env".
Proof.
  repeat split. vm_compute. discriminate.
Qed.

Lemma file_apiKey_takes_precedence_witness :
  apiKey (loadConfig file_with_key env_with_key) = lit "pplx-file"
  /\ apiKey (loadConfig file_without_key env_with_key) = lit "pplx-env".
Proof.
  split.
  - apply (proj1 (file_apiKey_takes_precedence file_with_key env_with_key)
             (lit "pplx-file") eq_refl).
    discriminate.
  - apply (proj2 (file_apiKey_takes_precedence file_without_key env_with_key)
             (lit "pplx-env") (or_introl eq_refl) eq_refl).
Defined.

(** The settings file is there, and the installer writes it all the same:
    the custom patterns it held are gone. *)
Lemma settings_file_rewritten_when_present :
  existsSync (PERPLEXITY_CONFIG_PATH home) configured_fs = true
  /\ fst (createPerplexityConfig home (lit "pplx-new") configured_fs)
         (PERPLEXITY_CONFIG_PATH home)
     <> configured_fs (PERPLEXITY_CONFIG_PATH home)
  /\ fst (install home sample_parse rerun_options None no_answers configured_fs)
         (PERPLEXITY_CONFIG_PATH home)
     = Some (settings_document (lit "pplx-new"))
  /\ Some (settings_document (lit "pplx-new")) <> configured_fs (PERPLEXITY_CONFIG_PATH home).
Proof.
  split; [reflexivity|]. split; [vm_compute; discriminate|].
  split; [vm_compute; reflexivity | vm_compute; discriminate].
Qed.

Lemma configured_fs_is_configured : configured home sample_parse configured_fs.
Proof.
  exists (path_join home "opencode.json"), sample_host_config, sample_host_value,
    (lit "# How to use Perplexity").
  repeat split; vm_compute; reflexivity.
Defined.

Lemma installer_rerun_adds_nothing_witness :
  let once := fst (install home sample_parse rerun_options None no_answers configured_fs) in
  let twice := fst (install home sample_parse rerun_options None no_answers once) in
  once (path_join home "opencode.json") = Some sample_host_config
  /\ once (PERPLEXITY_CONFIG_PATH home) = Some (settings_document (lit "pplx-new"))
  /\ (forall path, twice path = once path).
Proof.
  cbv zeta.
  destruct (installer_rerun_adds_nothing home sample_parse rerun_options None no_answers
              configured_fs configured_fs_is_configured)
    as (_ & _ & Hother & Hsettings & Htwice).
  split; [|split].
  - rewrite Hother; vm_compute; reflexivity.
  - rewrite Hsettings. reflexivity.
  - exact Htwice.
Defined.

(** A fenced block that shows a fence: the first two fences are paired,
    and the text between the inner ones reaches the detector. *)
Lemma fence_inside_fenced_block_is_scanned :
  let body := lit "
echo ```look up```
" in
  let message := render [FencedCode body] in
  plain_text [FencedCode body] = []
  /\ delimited [FencedCode body] = false
  /\ removeCodeBlocks message = lit "look up"
  /\ fst (detectKeywords literal_engine plain_config message empty_world)
     = Normal (Some {| type := search; matchedText := lit "look up" |}).
Proof. repeat split; vm_compute; reflexivity. Qed.

(** Two nudges appended within one millisecond carry the same identifier. *)
Lemma nudge_id_repeats_within_a_millisecond :
  let w := world_with "Can you search the web for today's weather?" in
  let hook := chat_message literal_engine plain_config no_env sample_clock sample_input
                           (lit "msg_1") in
  let w1 := snd (hook w) in
  let w2 := snd (hook w1) in
  let nudge := TextPart (lit "perplexity-search-nudge-1700000000002") (lit "ses_1")
                        (lit "msg_1") getSearchNudge (Some true) in
  parts w1 = parts w ++ [nudge]
  /\ parts w2 = parts w ++ [nudge; nudge]
  /\ ~ NoDup (map part_id (parts w2)).
Proof.
  cbv zeta. split; [vm_compute; reflexivity|]. split; [vm_compute; reflexivity|].
  intros H. vm_compute in H.
  inversion H as [|x1 l1 _ Hrest1]; subst. inversion Hrest1 as [|x2 l2 _ Hrest2]; subst.
  inversion Hrest2 as [|x3 l3 Hin _]; subst. apply Hin. left. reflexivity.
Qed.

End Witnesses.

(** ** The examples of the specification, and the edges of the claims *)

Module SpecExamples.
Import JS RegExp Host Effect Config Keywords Markdown Spans Plugin Samples.
Local Open Scope string_scope.
Local Open Scope list_scope.

Example weather_is_a_search :
  answer plain_config "Can you search the web for today's weather?"
  = Normal (Some {| type := search; matchedText := lit "search the web" |}).
Proof. vm_compute. reflexivity. Qed.

Example deep_dive_is_research :
  answer plain_config "Please do a deep dive on quantum computing"
  = Normal (Some {| type := research; matchedText := lit "deep dive" |}).
Proof. vm_compute. reflexivity. Qed.

Example research_beats_search :
  answer plain_config "look up papers, then a Comprehensive  Analysis"
  = Normal (Some {| type := research; matchedText := lit "Comprehensive  Analysis" |}).
Proof. vm_compute. reflexivity. Qed.

Example custom_comes_before_search :
  answer (custom_config ["rust"]) "look up rust"
  = Normal (Some {| type := search; matchedText := lit "rust" |}).
Proof. vm_compute. reflexivity. Qed.

(** The patterns are anchored at word boundaries: a phrase glued to a
    letter is not the phrase. *)
Example glued_phrase_is_not_detected :
  answer plain_config "a deep diver" = Normal None.
Proof. vm_compute. reflexivity. Qed.

(** A fence that follows an inline span at once takes the span's closing
    backtick, and the span's text is then scanned: the reason for the last
    condition of [well_formed]. *)
Example fence_after_inline_span :
  well_formed [InlineCode (lit "look up"); FencedCode (lit "x")] = false
  /\ removeCodeBlocks (render [InlineCode (lit "look up"); FencedCode (lit "x")])
     = [backtick] ++ lit "look up"
  /\ fst (detectKeywords literal_engine plain_config
            (render [InlineCode (lit "look up"); FencedCode (lit "x")]) empty_world)
     = Normal (Some {| type := search; matchedText := lit "look up" |}).
Proof. repeat split; vm_compute; reflexivity. Qed.

(** A fenced block may hold backticks, as long as no fence starts in it. *)
Example fenced_template_literal_is_stripped :
  let code := lit "
const q = `search the web for ${topic}`;
" in
  delimited [Plain (lit "Fix this: "); FencedCode code] = true
  /\ well_formed [Plain (lit "Fix this: "); FencedCode code] = false
  /\ removeCodeBlocks (render [Plain (lit "Fix this: "); FencedCode code])
     = lit "Fix this: "
  /\ fst (detectKeywords literal_engine plain_config
            (render [Plain (lit "Fix this: "); FencedCode code]) empty_world)
     = Normal None.
Proof. repeat split; vm_compute; reflexivity. Qed.

Example abbreviation_without_its_dot :
  answer plain_config "tabs vs. spaces"
  = Normal (Some {| type := search; matchedText := lit "vs" |}).
Proof. vm_compute. reflexivity. Qed.

Example decimal_renders_integers :
  decimal 1700000000002 = lit "1700000000002" /\ decimal 0 = lit "0"
  /\ decimal (-5) = lit "-5".
Proof. repeat split; vm_compute; reflexivity. Qed.

End SpecExamples.

(** ** What an edit by a regular expression leaves of a text *)

Module EditFacts.
Import JS RegExp Text Matching RegExpFacts.
Local Open Scope list_scope.

Lemma subsequence_refl s : subsequence s s.
Proof. induction s; constructor; assumption. Qed.

Lemma subsequence_trans s t : subsequence s t -> forall u, subsequence t u -> subsequence s u.
Proof.
  intros Hst u Htu. revert s Hst.
  induction Htu as [|c t u Htu IH|c t u Htu IH]; intros s Hst.
  - exact Hst.
  - inversion Hst; subst.
    + constructor. apply IH. assumption.
    + apply subsequence_drop. apply IH. assumption.
  - apply subsequence_drop. apply IH. assumption.
Qed.

Lemma subsequence_length s t : subsequence s t -> (length s <= length t)%nat.
Proof. induction 1; simpl; lia. Qed.

Lemma subsequence_same_length s t :
  subsequence s t -> length s = length t -> s = t.
Proof.
  induction 1 as [|c s t H IH|c s t H IH]; simpl; intros Hlen.
  - reflexivity.
  - f_equal. apply IH. lia.
  - apply subsequence_length in H. lia.
Qed.

(** A global replacement by the empty string only deletes. *)
Lemma replace_loop_deletes fl r : forall aft skip bef,
  subsequence (replace_loop fl r [] skip bef aft) aft.
Proof.
  induction aft as [|c aft IH]; intros skip bef.
  - destruct skip; simpl.
    + destruct (ends fl r _); constructor.
    + constructor.
  - destruct skip as [|k]; cbn [replace_loop].
    + destruct (ends fl r _) as [|y tl].
      * constructor. apply IH.
      * cbn [app]. destruct (length (c :: aft) - length (after y))%nat.
        -- constructor. apply IH.
        -- apply subsequence_drop. apply IH.
    + apply subsequence_drop. apply IH.
Qed.

Lemma String_replace_all_deletes fl r s :
  subsequence (String_replace_all fl r [] s) s.
Proof. apply replace_loop_deletes. Qed.

(** Every end position of a match lies ahead of its start, in the same
    input. *)
Lemma ahead_refl x : ahead x x.
Proof. exists []. split; reflexivity. Qed.

Lemma ahead_trans x y z : ahead x y -> ahead y z -> ahead x z.
Proof.
  intros (m1 & Ha1 & Hb1) (m2 & Ha2 & Hb2). exists (m1 ++ m2). split.
  - rewrite Ha1, Ha2. rewrite app_assoc. reflexivity.
  - rewrite Hb2, Hb1. rewrite rev_app_distr, app_assoc. reflexivity.
Qed.

Lemma step_if_ahead p x y : In y (step_if p x) -> ahead x y.
Proof.
  unfold step_if. destruct x as [b a]. simpl. destruct a as [|d rest]; [intros []|].
  destruct (p d); [|intros []]. intros [<-|[]]. exists [d]. split; reflexivity.
Qed.

Lemma guard_ahead c x y : In y (guard c x) -> ahead x y.
Proof.
  unfold guard. destruct c; [|intros []]. intros [<-|[]]. apply ahead_refl.
Qed.

Lemma repeat_loop_ahead greedy step :
  (forall x y, In y (step x) -> ahead x y) ->
  forall n x y, In y (repeat_loop greedy step n x) -> ahead x y.
Proof.
  intros Hstep. induction n as [|n IH]; intros x y Hy.
  - destruct Hy as [<-|[]]. apply ahead_refl.
  - simpl in Hy.
    assert (Hmore : In y (flat_map (fun z => if progress x z
                                             then repeat_loop greedy step n z else [])
                                   (step x)) -> ahead x y).
    { intros H. apply in_flat_map in H. destruct H as (z & Hz & Hy').
      destruct (progress x z); [|destruct Hy'].
      eapply ahead_trans; [apply Hstep; exact Hz | apply IH; exact Hy']. }
    destruct greedy.
    + apply in_app_or in Hy. destruct Hy as [H|[<-|[]]]; [auto | apply ahead_refl].
    + destruct Hy as [<-|H]; [apply ahead_refl | auto].
Qed.

Lemma ends_ahead fl r : forall x y, In y (ends fl r x) -> ahead x y.
Proof.
  induction r; intros x y Hy; simpl in Hy.
  - destruct Hy as [<-|[]]. apply ahead_refl.
  - eapply step_if_ahead; eassumption.
  - eapply step_if_ahead; eassumption.
  - eapply step_if_ahead; eassumption.
  - eapply step_if_ahead; eassumption.
  - eapply guard_ahead; eassumption.
  - eapply guard_ahead; eassumption.
  - eapply guard_ahead; eassumption.
  - apply in_flat_map in Hy. destruct Hy as (z & Hz & Hy).
    eapply ahead_trans; eauto.
  - apply in_app_or in Hy. destruct Hy; auto.
  - apply in_app_or in Hy. destruct Hy as [H|[<-|[]]]; [|apply ahead_refl].
    apply filter_In in H. destruct H. auto.
  - eapply repeat_loop_ahead; [|exact Hy]. exact IHr.
  - apply in_flat_map in Hy. destruct Hy as (z & Hz & Hy).
    eapply ahead_trans; [apply IHr; exact Hz|].
    eapply repeat_loop_ahead; [|exact Hy]. exact IHr.
Qed.

Lemma matched_text_ahead x y m :
  after x = m ++ after y -> matched_text x y = m.
Proof.
  intros H. unfold matched_text. rewrite H, length_app.
  replace (length m + length (after y) - length (after y))%nat with (length m) by lia.
  rewrite firstn_app, firstn_all, Nat.sub_diag. simpl. apply app_nil_r.
Qed.

(** The match [exec] finds: where it starts, and what it spans. *)
Lemma exec_spans fl r : forall aft bef x y,
  exec fl r bef aft = Some (x, y) ->
  exists pre m,
    aft = pre ++ m ++ after y
    /\ before x = rev pre ++ bef
    /\ after x = m ++ after y
    /\ before y = rev m ++ before x.
Proof.
  assert (Here : forall bef aft y0 tl,
             ends fl r {| before := bef; after := aft |} = y0 :: tl ->
             exists m, aft = m ++ after y0 /\ before y0 = rev m ++ bef).
  { intros bef aft y0 tl E.
    assert (Hin : In y0 (ends fl r {| before := bef; after := aft |})).
    { rewrite E. left. reflexivity. }
    apply ends_ahead in Hin. exact Hin. }
  induction aft as [|c aft IH]; intros bef x y H; rewrite exec_eq in H.
  - destruct (ends fl r _) as [|y0 tl] eqn:E; [discriminate|].
    injection H as <- <-. destruct (Here _ _ _ _ E) as (m & Ha & Hb).
    exists [], m. simpl. auto.
  - destruct (ends fl r _) as [|y0 tl] eqn:E.
    + apply IH in H. destruct H as (pre & m & Ha & Hb & Hc & Hd).
      exists (c :: pre), m. simpl. rewrite <- Ha. rewrite <- app_assoc. simpl. auto.
    + injection H as <- <-. destruct (Here _ _ _ _ E) as (m & Ha & Hb).
      exists [], m. simpl. auto.
Qed.

Lemma String_match_occurs fl r s m :
  String_match fl r s = Some m -> occurs_in m s.
Proof.
  unfold String_match. destruct (exec fl r [] s) as [[x y]|] eqn:E; [|discriminate].
  intros H. injection H as <-.
  apply exec_spans in E. destruct E as (pre & m & Hs & _ & Hx & _).
  exists pre, (after y). rewrite (matched_text_ahead _ _ _ Hx). exact Hs.
Qed.

(** A pattern that starts with a literal does not match where the literal
    is not. *)
Lemma ends_literal_first fl p r b s :
  fl = flags_none \/ fl = flags_m ->
  startsWith s p = false ->
  ends fl (RSeq (letters p) r) {| before := b; after := s |} = [].
Proof.
  intros Hfl Hs. simpl.
  assert (E : ends fl (letters p) {| before := b; after := s |} = []).
  { revert b s Hs. induction p as [|c p IH]; intros b s Hs; [destruct s; discriminate Hs|].
    simpl. destruct s as [|d s]; [reflexivity|].
    simpl in Hs. unfold step_if. simpl.
    assert (Hc : char_eq fl c d = (c =? d)%N).
    { destruct Hfl as [-> | ->]; reflexivity. }
    rewrite Hc. destruct (c =? d)%N; [|reflexivity]. simpl in Hs.
    simpl. rewrite (IH _ _ Hs). reflexivity. }
  rewrite E. reflexivity.
Qed.

Lemma includes_suffix p : forall s1 s2,
  includes (s1 ++ s2) p = false -> startsWith s2 p = false.
Proof.
  induction s1 as [|c s1 IH]; intros s2 H.
  - simpl in H. destruct s2; simpl in H |- *; apply orb_false_iff in H; apply H.
  - simpl in H. apply orb_false_iff in H. apply IH. apply H.
Qed.

(** No occurrence of the leading literal: the replacement changes nothing. *)
Lemma replace_all_without_literal fl p r repl s :
  fl = flags_none \/ fl = flags_m ->
  p <> [] ->
  includes s p = false ->
  String_replace_all fl (RSeq (letters p) r) repl s = s.
Proof.
  intros Hfl Hp Hs. unfold String_replace_all.
  rewrite <- (app_nil_r s) at 1.
  rewrite replace_loop_copy_run.
  - rewrite replace_loop_end; [apply app_nil_r|].
    apply ends_literal_first; [exact Hfl|]. destruct p; [contradiction|reflexivity].
  - intros s1 c s2 E. apply ends_literal_first; [exact Hfl|].
    rewrite app_nil_r. apply (includes_suffix p s1). rewrite <- E. exact Hs.
Qed.

End EditFacts.

(** ** Quantifier runs *)

Module RunFacts.
Import JS RegExp Text RegExpFacts MarkdownFacts EditFacts.
Local Open Scope list_scope.

(** A run of [p]-units that stops the repetition: the greedy loop tries
    the whole run first. *)
Lemma greedy_run_first p : forall run b rest n,
  Forall (fun c => p c = true) run ->
  (length run <= n)%nat ->
  step_if p {| before := rev run ++ b; after := rest |} = [] ->
  exists tl,
    repeat_loop true (step_if p) n {| before := b; after := run ++ rest |}
    = {| before := rev run ++ b; after := rest |} :: tl.
Proof.
  induction run as [|c run IH]; intros b rest n Hall Hn Hstop.
  - simpl in *. destruct n as [|n]; [exists []; reflexivity|].
    simpl. rewrite Hstop. simpl. exists []. reflexivity.
  - destruct n as [|n]; [simpl in Hn; lia|].
    inversion Hall as [|? ? Hc Hrun]; subst.
    cbn [repeat_loop app]. rewrite step_if_hit by exact Hc.
    cbn [flat_map]. rewrite progress_one, app_nil_r.
    destruct (IH (c :: b) rest n Hrun) as [tl Htl].
    + simpl in Hn. lia.
    + simpl in Hstop. rewrite <- app_assoc in Hstop. exact Hstop.
    + rewrite Htl. simpl. rewrite <- app_assoc. simpl. eexists. reflexivity.
Qed.

(** A lazy loop followed by [stop]: the first end is at the first position
    where [stop] matches. *)
Lemma lazy_run_first fl p stop : forall code b tail n y tl,
  Forall (fun c => p c = true) code ->
  (length code <= n)%nat ->
  (forall s1 c s2, code = s1 ++ c :: s2 ->
     ends fl stop {| before := rev s1 ++ b; after := c :: s2 ++ tail |} = []) ->
  ends fl stop {| before := rev code ++ b; after := tail |} = y :: tl ->
  exists tl',
    flat_map (ends fl stop)
             (repeat_loop false (step_if p) n {| before := b; after := code ++ tail |})
    = y :: tl'.
Proof.
  induction code as [|c code IH]; intros b tail n y tl Hall Hn Hnot Hend.
  - simpl in *. destruct n; simpl; rewrite Hend; simpl; eexists; reflexivity.
  - destruct n as [|n]; [simpl in Hn; lia|].
    inversion Hall as [|? ? Hc Hcode]; subst.
    pose proof (Hnot [] c code eq_refl) as Hhere. simpl in Hhere.
    cbn [repeat_loop app flat_map].
    rewrite Hhere. cbn [app].
    rewrite step_if_hit by exact Hc.
    cbn [flat_map]. rewrite progress_one, app_nil_r.
    apply (IH (c :: b) tail n y tl Hcode).
    + simpl in Hn. lia.
    + intros s1 d s2 E. specialize (Hnot (c :: s1) d s2). simpl in Hnot.
      rewrite <- app_assoc in Hnot. apply Hnot. rewrite E. reflexivity.
    + simpl in Hend. rewrite <- app_assoc in Hend. exact Hend.
Qed.

(** A loop followed by a [stop] that matches at none of the positions the
    loop can reach. *)
Lemma run_none_within fl greedy p stop : forall n code b,
  (forall s1 s2, code = s1 ++ s2 -> forallb p s1 = true ->
     ends fl stop {| before := rev s1 ++ b; after := s2 |} = []) ->
  flat_map (ends fl stop)
           (repeat_loop greedy (step_if p) n {| before := b; after := code |})
  = [].
Proof.
  induction n as [|n IH]; intros code b Hnot;
    pose proof (Hnot [] code eq_refl eq_refl) as Hhere; simpl in Hhere.
  - simpl. rewrite Hhere. reflexivity.
  - cbn [repeat_loop].
    assert (Hmore :
      flat_map (ends fl stop)
        (flat_map (fun y => if progress {| before := b; after := code |} y
                            then repeat_loop greedy (step_if p) n y else [])
                  (step_if p {| before := b; after := code |})) = []).
    { destruct code as [|c code]; [reflexivity|].
      unfold step_if at 2. cbn [after before].
      destruct (p c) eqn:Hc; [|reflexivity].
      cbn [flat_map]. rewrite app_nil_r.
      destruct (progress _ _); [|reflexivity].
      apply IH. intros s1 s2 E Hs1. specialize (Hnot (c :: s1) s2). simpl in Hnot.
      rewrite <- app_assoc in Hnot. apply Hnot.
      - rewrite E. reflexivity.
      - rewrite Hc, Hs1. reflexivity. }
    destruct greedy.
    + rewrite flat_map_app, Hmore. simpl. rewrite Hhere. reflexivity.
    + cbn [flat_map]. rewrite Hhere, Hmore. reflexivity.
Qed.

(** A loop followed by a [stop] that matches nowhere in the text ahead. *)
Lemma run_none fl greedy p stop n code b :
  (forall s1 s2, code = s1 ++ s2 ->
     ends fl stop {| before := rev s1 ++ b; after := s2 |} = []) ->
  flat_map (ends fl stop)
           (repeat_loop greedy (step_if p) n {| before := b; after := code |})
  = [].
Proof. intros H. apply run_none_within. intros s1 s2 E _. apply H. exact E. Qed.

(** Text that lacks the first unit of a literal is copied by a replacement
    whose pattern starts with that literal. *)
Lemma literal_copy fl c0 p r repl : forall t s bef,
  fl = flags_none \/ fl = flags_m ->
  forallb (fun c => negb (N.eqb c c0)) t = true ->
  replace_loop fl (RSeq (letters (c0 :: p)) r) repl 0 bef (t ++ s)
  = t ++ replace_loop fl (RSeq (letters (c0 :: p)) r) repl 0 (rev t ++ bef) s.
Proof.
  intros t s bef Hfl Ht. apply replace_loop_copy_run.
  intros s1 c s2 E. apply ends_literal_first; [exact Hfl|].
  rewrite E in Ht. rewrite forallb_app in Ht. apply andb_true_iff in Ht.
  destruct Ht as [_ Ht]. simpl in Ht. apply andb_true_iff in Ht. destruct Ht as [Hc _].
  simpl. rewrite N.eqb_sym. apply negb_true_iff in Hc. rewrite Hc. reflexivity.
Qed.

Lemma literal_copy_all fl c0 p r repl t bef :
  fl = flags_none \/ fl = flags_m ->
  forallb (fun c => negb (N.eqb c c0)) t = true ->
  replace_loop fl (RSeq (letters (c0 :: p)) r) repl 0 bef t = t.
Proof.
  intros Hfl Ht. rewrite <- (app_nil_r t) at 1.
  rewrite literal_copy by assumption.
  rewrite replace_loop_end; [apply app_nil_r|].
  apply ends_literal_first; [exact Hfl | reflexivity].
Qed.

End RunFacts.

(** ** removeCodeBlocks, beyond well-formed messages *)

Module CleaningFacts.
Import JS RegExp Text Keywords Markdown RegExpFacts MarkdownFacts EditFacts RunFacts.
Local Open Scope string_scope.
Local Open Scope list_scope.

Lemma no_backtick_no_fence : forall b, no_backtick b = true -> includes b fence = false.
Proof.
  induction b as [|c b IH]; intros H; [reflexivity|].
  simpl in H. apply andb_true_iff in H. destruct H as [Hc Hb].
  cbn [includes]. rewrite (fence_not_at c b Hc). simpl. apply IH. exact Hb.
Qed.

Lemma head_not_tick b p :
  no_backtick b = true -> startsWith b (backtick :: p) = false.
Proof.
  intros Hb. destruct b as [|c b]; [reflexivity|].
  simpl in Hb. apply andb_true_iff in Hb. destruct Hb as [Hc _].
  cbn [startsWith]. rewrite (tick_neq c Hc). reflexivity.
Qed.

Lemma few_ticks_no_fence k b :
  (k <= 2)%nat -> no_backtick b = true -> includes (repeat backtick k ++ b) fence = false.
Proof.
  intros Hk Hb. pose proof (no_backtick_no_fence b Hb) as Hnf.
  destruct k as [|[|[|k]]]; [exact Hnf| | |lia].
  - cbn [repeat app includes]. rewrite Hnf, orb_false_r.
    unfold fence. cbn [startsWith]. rewrite (head_not_tick b _ Hb).
    apply andb_false_r.
  - cbn [repeat app includes]. rewrite Hnf, !orb_false_r.
    unfold fence. cbn [startsWith]. rewrite !(head_not_tick b _ Hb).
    rewrite !andb_false_r. reflexivity.
Qed.

(** A fence that is not closed starts no fenced block. *)
Lemma fenced_unclosed bef s :
  includes s fence = false ->
  ends flags_none fenced_code {| before := bef; after := fence ++ s |} = [].
Proof.
  intros Hs.
  change fenced_code
    with (RSeq (word "```") (RSeq (RStar false (RClass false [CSpace; CNonSpace]))
                                  (word "```"))).
  cbn [ends]. rewrite fence_whole. cbn [flat_map]. rewrite app_nil_r.
  cbn [after].
  change (ends flags_none (RClass false [CSpace; CNonSpace])) with (step_if any_unit).
  apply run_none. intros s1 s2 E.
  rewrite word_letters, ends_letters_exact.
  rewrite (includes_suffix _ s1 s2); [reflexivity|]. rewrite <- E. exact Hs.
Qed.

Lemma fenced_nowhere_ticks n b bef :
  (n <= 5)%nat -> no_backtick b = true ->
  ends flags_none fenced_code {| before := bef; after := repeat backtick n ++ b |} = [].
Proof.
  intros Hn Hb.
  assert (Hlow : forall k, (k <= 2)%nat -> startsWith (repeat backtick k ++ b) fence = false).
  { intros k Hk. apply (includes_suffix fence [] (repeat backtick k ++ b)).
    apply few_ticks_no_fence; assumption. }
  destruct n as [|[|[|n]]];
    [apply fenced_no_match, (Hlow 0%nat); lia
    |apply fenced_no_match, (Hlow 1%nat); lia
    |apply fenced_no_match, (Hlow 2%nat); lia|].
  change (repeat backtick (S (S (S n))) ++ b) with (fence ++ repeat backtick n ++ b).
  apply fenced_unclosed. apply few_ticks_no_fence; [lia | exact Hb].
Qed.

Lemma fenced_pass_ticks : forall n b bef,
  (n <= 5)%nat -> no_backtick b = true ->
  replace_loop flags_none fenced_code [] 0 bef (repeat backtick n ++ b) = repeat backtick n ++ b.
Proof.
  induction n as [|n IH]; intros b bef Hn Hb.
  - simpl. rewrite <- (app_nil_r b) at 1. rewrite fenced_copy by exact Hb.
    rewrite replace_loop_end; [apply app_nil_r | apply fenced_no_match; reflexivity].
  - change (repeat backtick (S n) ++ b) with (backtick :: repeat backtick n ++ b).
    rewrite replace_loop_copy.
    + f_equal. apply IH; [lia | exact Hb].
    + apply (fenced_nowhere_ticks (S n) b bef Hn Hb).
Qed.

(** A backtick that is followed by no closing backtick, or at once by
    another backtick, opens no inline span. *)
Lemma inline_nowhere_ticks n b bef :
  no_backtick b = true ->
  ends flags_none inline_code {| before := bef; after := repeat backtick (S n) ++ b |} = [].
Proof.
  intros Hb. unfold inline_code. cbn [seq ends].
  change (repeat backtick (S n) ++ b) with (backtick :: repeat backtick n ++ b).
  rewrite step_if_hit by reflexivity. cbn [flat_map].
  change (class_has flags_none true [CChar backtick]) with code_unit.
  rewrite app_nil_r.
  destruct n as [|n].
  - cbn [repeat app].
    destruct b as [|c b]; [reflexivity|].
    simpl in Hb. apply andb_true_iff in Hb. destruct Hb as [Hc Hb].
    rewrite step_if_hit by (apply code_unit_hit; exact Hc).
    cbn [flat_map after]. rewrite !app_nil_r.
    change (fun x => step_if code_unit x) with (step_if code_unit).
    change (fun x => step_if (char_eq flags_none backtick) x)
      with (ends flags_none (RChar backtick)).
    apply run_none. intros s1 s2 E. cbn [ends].
    destruct s2 as [|d s2]; [reflexivity|].
    apply step_if_miss. unfold char_eq. cbn [ignoreCase flags_none].
    apply tick_neq. apply (no_backtick_at s1 d s2). rewrite <- E. exact Hb.
  - change (repeat backtick (S n) ++ b) with (backtick :: repeat backtick n ++ b).
    rewrite step_if_miss; [reflexivity|].
    unfold code_unit, class_has. cbn [existsb item_has]. unfold char_eq.
    cbn [ignoreCase flags_none]. rewrite N.eqb_refl. reflexivity.
Qed.

Lemma inline_pass_ticks : forall n b bef,
  no_backtick b = true ->
  replace_loop flags_none inline_code [] 0 bef (repeat backtick n ++ b) = repeat backtick n ++ b.
Proof.
  induction n as [|n IH]; intros b bef Hb.
  - simpl. rewrite <- (app_nil_r b) at 1. rewrite inline_copy by exact Hb.
    rewrite replace_loop_end; [apply app_nil_r | apply inline_no_match_end].
  - change (repeat backtick (S n) ++ b) with (backtick :: repeat backtick n ++ b).
    rewrite replace_loop_copy.
    + f_equal. apply IH. exact Hb.
    + apply (inline_nowhere_ticks n b bef Hb).
Qed.

(** Both passes of [removeCodeBlocks] are deletions. *)
Lemma removeCodeBlocks_deletes text : subsequence (removeCodeBlocks text) text.
Proof.
  unfold removeCodeBlocks.
  eapply subsequence_trans; apply String_replace_all_deletes.
Qed.

(** X1.  [removeCodeBlocks] only deletes: what it returns is the message
    with some code units taken out, in the same order, and never longer;
    when nothing was taken out it is the message itself. *)
Theorem removeCodeBlocks_only_deletes text :
  subsequence (removeCodeBlocks text) text
  /\ (length (removeCodeBlocks text) <= length text)%nat
  /\ (length (removeCodeBlocks text) = length text -> removeCodeBlocks text = text).
Proof.
  pose proof (removeCodeBlocks_deletes text) as H.
  split; [exact H|]. split.
  - apply subsequence_length. exact H.
  - apply subsequence_same_length. exact H.
Qed.

(** X2.  On a message made of plain text, inline spans and fenced blocks,
    [removeCodeBlocks] returns exactly the plain text, joined without a
    separator, and no backtick is left in it. *)
Theorem removeCodeBlocks_leaves_plain_text segs :
  well_formed segs = true ->
  removeCodeBlocks (render segs) = plain_text segs
  /\ no_backtick (removeCodeBlocks (render segs)) = true.
Proof.
  intros H. rewrite (removeCodeBlocks_segments segs H). split; [reflexivity|].
  clear - H. induction segs as [|s segs IH]; [reflexivity|].
  destruct s as [t|c|c]; simpl in H |- *.
  - apply andb_true_iff in H. destruct H as [Ht Hs].
    unfold no_backtick in *. rewrite forallb_app, Ht. simpl. apply IH. exact Hs.
  - repeat (apply andb_true_iff in H; destruct H as [H ?]). apply IH. assumption.
  - apply andb_true_iff in H. destruct H as [_ Hs]. apply IH. exact Hs.
Qed.

(** X3.  Backticks that close nothing are kept: a run of fewer than six
    backticks, in a message with no other backtick, is neither an inline
    span nor a fenced block, and the message comes back unchanged. *)
Theorem removeCodeBlocks_keeps_unclosed a b n :
  no_backtick a = true -> no_backtick b = true -> (n < 6)%nat ->
  removeCodeBlocks (a ++ repeat backtick n ++ b) = a ++ repeat backtick n ++ b.
Proof.
  intros Ha Hb Hn. unfold removeCodeBlocks, String_replace_all.
  rewrite fenced_copy by exact Ha.
  rewrite fenced_pass_ticks by (try lia; exact Hb).
  rewrite inline_copy by exact Ha.
  rewrite inline_pass_ticks by exact Hb.
  reflexivity.
Qed.

End CleaningFacts.

(** ** Comment stripping: src/cli.ts and src/config.ts *)

Module CommentFacts.
Import JS RegExp Text Installer ConfigFile RegExpFacts MarkdownFacts EditFacts RunFacts.
Local Open Scope string_scope.
Local Open Scope list_scope.

Lemma line_comment_eq :
  line_comment = RSeq (letters [slash; slash]) (RSeq (RStar true RDot) REnd).
Proof. reflexivity. Qed.

Lemma block_comment_eq :
  block_comment
  = RSeq (letters [slash; star])
         (RSeq (RStar false (RClass false [CSpace; CNonSpace])) (word "*/")).
Proof. reflexivity. Qed.

Lemma no_slash_forall s : no_slash s = true -> forallb (fun c => negb (N.eqb c slash)) s = true.
Proof. exact (fun H => H). Qed.

Lemma line_mark_whole bef rest :
  ends flags_m (word "//") {| before := bef; after := [slash; slash] ++ rest |}
  = [{| before := slash :: slash :: bef; after := rest |}].
Proof. reflexivity. Qed.

Lemma block_mark_whole bef rest :
  ends flags_none (word "/*") {| before := bef; after := [slash; star] ++ rest |}
  = [{| before := star :: slash :: bef; after := rest |}].
Proof. reflexivity. Qed.

(** The line pattern at a comment: it runs to the end of the line. *)
Lemma line_comment_match bef body rest :
  one_line body = true -> line_edge rest = true ->
  exists y tl,
    ends flags_m line_comment
         {| before := bef; after := [slash; slash] ++ body ++ rest |} = y :: tl
    /\ after y = rest.
Proof.
  intros Hbody Hrest. unfold line_comment. cbn [seq ends].
  rewrite line_mark_whole. cbn [flat_map after]. rewrite app_nil_r.
  change (fun x => step_if (fun d => negb (isLineTerminator d)) x)
    with (step_if (fun d => negb (isLineTerminator d))).
  destruct (greedy_run_first (fun d => negb (isLineTerminator d)) body
              (slash :: slash :: bef) rest (length (body ++ rest))) as [tl Htl].
  - apply Forall_forall. intros c Hc. unfold one_line in Hbody.
    rewrite forallb_forall in Hbody. apply Hbody. exact Hc.
  - rewrite length_app. lia.
  - destruct rest as [|c rest]; [reflexivity|]. apply step_if_miss.
    simpl in Hrest. rewrite Hrest. reflexivity.
  - rewrite Htl. cbn [flat_map]. unfold guard at 1. cbn [multiline flags_m after].
    rewrite Hrest. cbn [app]. eexists. eexists. split; reflexivity.
Qed.

(** The block pattern at a comment whose text has no slash: it runs to the
    closing mark. *)
Lemma block_comment_match bef body rest :
  no_slash body = true ->
  exists y tl,
    ends flags_none block_comment
         {| before := bef; after := [slash; star] ++ body ++ [star; slash] ++ rest |}
    = y :: tl
    /\ after y = rest.
Proof.
  intros Hbody. unfold block_comment. cbn [seq ends].
  rewrite block_mark_whole. cbn [flat_map after]. rewrite app_nil_r.
  change (fun x => step_if (class_has flags_none false [CSpace; CNonSpace]) x)
    with (step_if (class_has flags_none false [CSpace; CNonSpace])).
  destruct (lazy_run_first flags_none (class_has flags_none false [CSpace; CNonSpace])
              (word "*/") body (star :: slash :: bef) ([star; slash] ++ rest)
              (length (body ++ [star; slash] ++ rest))
              {| before := slash :: star :: rev body ++ star :: slash :: bef;
                 after := rest |} []) as [tl Htl].
  - apply Forall_forall. intros c _. unfold class_has. cbn [existsb item_has xorb].
    destruct (isSpace c); reflexivity.
  - rewrite length_app. lia.
  - intros s1 c s2 E. rewrite word_letters, ends_letters_exact.
    assert (Hs2 : no_slash (s2 ++ [star]) = true).
    { rewrite E in Hbody. unfold no_slash in *. rewrite forallb_app in Hbody.
      apply andb_true_iff in Hbody. destruct Hbody as [_ H]. simpl in H.
      apply andb_true_iff in H. destruct H as [_ H].
      rewrite forallb_app, H. reflexivity. }
    replace (c :: s2 ++ [star; slash] ++ rest)
      with (c :: (s2 ++ [star]) ++ slash :: rest)
      by (rewrite <- app_assoc; reflexivity).
    destruct (s2 ++ [star]) as [|d s3] eqn:E3.
    { destruct s2; discriminate E3. }
    unfold no_slash in Hs2. cbn [forallb] in Hs2.
    apply andb_true_iff in Hs2. destruct Hs2 as [Hd _].
    apply negb_true_iff in Hd.
    change (lit "*/") with [star; slash].
    cbn [startsWith app]. rewrite (N.eqb_sym slash d), Hd.
    rewrite andb_false_r. reflexivity.
  - rewrite word_letters, ends_letters_exact.
    change ([star; slash] ++ rest) with (lit "*/" ++ rest).
    rewrite PluginFacts.startsWith_prefix. reflexivity.
  - rewrite Htl. eexists. eexists. split; reflexivity.
Qed.

Lemma line_pass_clean t bef :
  no_slash t = true -> replace_loop flags_m line_comment [] 0 bef t = t.
Proof.
  intros H. rewrite line_comment_eq. apply literal_copy_all; [right; reflexivity|exact H].
Qed.

Lemma block_pass_clean t bef :
  no_slash t = true -> replace_loop flags_none block_comment [] 0 bef t = t.
Proof.
  intros H. rewrite block_comment_eq. apply literal_copy_all; [left; reflexivity|exact H].
Qed.

Lemma line_pass_copy t s bef :
  no_slash t = true ->
  replace_loop flags_m line_comment [] 0 bef (t ++ s)
  = t ++ replace_loop flags_m line_comment [] 0 (rev t ++ bef) s.
Proof.
  intros H. rewrite line_comment_eq. apply literal_copy; [right; reflexivity|exact H].
Qed.

Lemma block_pass_copy t s bef :
  no_slash t = true ->
  replace_loop flags_none block_comment [] 0 bef (t ++ s)
  = t ++ replace_loop flags_none block_comment [] 0 (rev t ++ bef) s.
Proof.
  intros H. rewrite block_comment_eq. apply literal_copy; [left; reflexivity|exact H].
Qed.

(** The passes over a text that holds one comment. *)
Lemma line_pass_comment a body rest :
  no_slash a = true -> one_line body = true ->
  line_edge rest = true -> no_slash rest = true ->
  String_replace_all flags_m line_comment [] (a ++ [slash; slash] ++ body ++ rest)
  = a ++ rest.
Proof.
  intros Ha Hbody Hedge Hrest. unfold String_replace_all.
  rewrite line_pass_copy by exact Ha. f_equal.
  destruct (line_comment_match (rev a ++ []) body rest Hbody Hedge) as (y & tl & Hy & Hafter).
  replace ([slash; slash] ++ body ++ rest) with (([slash; slash] ++ body) ++ rest)
    by (rewrite <- app_assoc; reflexivity).
  rewrite (replace_loop_match flags_m line_comment [] (rev a ++ [])
             ([slash; slash] ++ body) rest y tl).
  - simpl. apply line_pass_clean. exact Hrest.
  - rewrite <- app_assoc. exact Hy.
  - exact Hafter.
  - discriminate.
Qed.

Lemma block_pass_comment a body rest :
  no_slash a = true -> no_slash body = true -> no_slash rest = true ->
  String_replace_all flags_none block_comment []
    (a ++ [slash; star] ++ body ++ [star; slash] ++ rest)
  = a ++ rest.
Proof.
  intros Ha Hbody Hrest. unfold String_replace_all.
  rewrite block_pass_copy by exact Ha. f_equal.
  destruct (block_comment_match (rev a ++ []) body rest Hbody) as (y & tl & Hy & Hafter).
  replace ([slash; star] ++ body ++ [star; slash] ++ rest)
    with (([slash; star] ++ body ++ [star; slash]) ++ rest)
    by (rewrite <- !app_assoc; reflexivity).
  rewrite (replace_loop_match flags_none block_comment [] (rev a ++ [])
             ([slash; star] ++ body ++ [star; slash]) rest y tl).
  - simpl. apply block_pass_clean. exact Hrest.
  - rewrite <- !app_assoc. exact Hy.
  - exact Hafter.
  - discriminate.
Qed.

Lemma not_line_mark bef c s :
  startsWith (c :: s) [slash; slash] = false ->
  ends flags_m line_comment {| before := bef; after := c :: s |} = [].
Proof.
  intros H. rewrite line_comment_eq. apply ends_literal_first; [right; reflexivity|exact H].
Qed.

Lemma not_block_mark bef c s :
  startsWith (c :: s) [slash; star] = false ->
  ends flags_none block_comment {| before := bef; after := c :: s |} = [].
Proof.
  intros H. rewrite block_comment_eq. apply ends_literal_first; [left; reflexivity|exact H].
Qed.

Lemma slash_then_clean rest :
  no_slash rest = true -> startsWith (slash :: rest) [slash; slash] = false.
Proof.
  intros H. cbn [startsWith]. destruct rest as [|c rest]; [reflexivity|].
  unfold no_slash in H. cbn [forallb] in H. apply andb_true_iff in H. destruct H as [Hc _].
  apply negb_true_iff in Hc. cbn [startsWith]. rewrite (N.eqb_sym slash c), Hc.
  reflexivity.
Qed.

(** The line pass leaves a block comment without slashes alone. *)
Lemma line_pass_over_block a body rest :
  no_slash a = true -> no_slash body = true -> no_slash rest = true ->
  String_replace_all flags_m line_comment []
    (a ++ [slash; star] ++ body ++ [star; slash] ++ rest)
  = a ++ [slash; star] ++ body ++ [star; slash] ++ rest.
Proof.
  intros Ha Hbody Hrest. unfold String_replace_all.
  rewrite line_pass_copy by exact Ha. f_equal.
  cbn [app]. rewrite replace_loop_copy by (apply not_line_mark; reflexivity).
  f_equal.
  replace (star :: body ++ star :: slash :: rest)
    with ((star :: body ++ [star]) ++ slash :: rest)
    by (simpl; rewrite <- app_assoc; reflexivity).
  rewrite line_pass_copy.
  - f_equal. rewrite replace_loop_copy by (apply not_line_mark, slash_then_clean, Hrest).
    f_equal. apply line_pass_clean. exact Hrest.
  - unfold no_slash in *. cbn [forallb]. rewrite forallb_app, Hbody. reflexivity.
Qed.

Lemma after_slash_no_star s rest c :
  no_star s = true -> line_edge rest = true ->
  startsWith (c :: s ++ rest) [slash; star] = false.
Proof.
  intros Hs Hrest. cbn [startsWith]. destruct (slash =? c)%N; [|reflexivity].
  cbn [andb]. destruct s as [|d s].
  - cbn [app]. destruct rest as [|e rest]; [reflexivity|].
    cbn [startsWith]. cbn [line_edge] in Hrest.
    destruct (star =? e)%N eqn:E; [|reflexivity].
    apply N.eqb_eq in E. subst e. discriminate Hrest.
  - unfold no_star in Hs. cbn [forallb] in Hs. apply andb_true_iff in Hs.
    destruct Hs as [Hd _]. apply negb_true_iff in Hd.
    cbn [app startsWith]. rewrite (N.eqb_sym star d), Hd. reflexivity.
Qed.

(** The block pass leaves a line comment without stars alone. *)
Lemma block_pass_over_line a body rest :
  no_slash a = true -> no_star body = true ->
  line_edge rest = true -> no_slash rest = true ->
  String_replace_all flags_none block_comment [] (a ++ [slash; slash] ++ body ++ rest)
  = a ++ [slash; slash] ++ body ++ rest.
Proof.
  intros Ha Hbody Hedge Hrest. unfold String_replace_all.
  rewrite block_pass_copy by exact Ha. f_equal.
  cbn [app]. rewrite replace_loop_copy by (apply not_block_mark; reflexivity).
  f_equal.
  rewrite replace_loop_copy by (apply not_block_mark, after_slash_no_star; assumption).
  f_equal.
  rewrite replace_loop_copy_run.
  - f_equal. apply block_pass_clean. exact Hrest.
  - intros s1 c s2 E. apply not_block_mark. apply after_slash_no_star; [|exact Hedge].
    rewrite E in Hbody. unfold no_star in *. rewrite forallb_app in Hbody.
    apply andb_true_iff in Hbody. destruct Hbody as [_ H]. cbn [forallb] in H.
    apply andb_true_iff in H. apply H.
Qed.

(** X12.  A text without the marks [//] and [/*] has no comment: both
    comment strippers, the installer's and the plugin's, return it as it
    is. *)
Theorem comment_free_text_unchanged s :
  includes s [slash; slash] = false -> includes s [slash; star] = false ->
  stripJsoncComments s = s /\ stripJsonComments s = s.
Proof.
  intros Hline Hblock.
  assert (L : String_replace_all flags_m line_comment [] s = s).
  { rewrite line_comment_eq. apply replace_all_without_literal;
      [right; reflexivity | discriminate | exact Hline]. }
  assert (B : String_replace_all flags_none block_comment [] s = s).
  { rewrite block_comment_eq. apply replace_all_without_literal;
      [left; reflexivity | discriminate | exact Hblock]. }
  unfold stripJsoncComments, stripJsonComments. cbv zeta.
  split; [rewrite B, L | rewrite L, B]; reflexivity.
Qed.

(** X13.  A line comment is removed from its [//] to the end of its line;
    the line terminator and the lines around stay.  The text before the
    mark is not inspected: a [//] inside a string literal is cut in the
    same way. *)
Theorem line_comment_stripped a body rest :
  no_slash a = true -> one_line body = true -> no_star body = true ->
  line_edge rest = true -> no_slash rest = true ->
  stripJsoncComments (a ++ [slash; slash] ++ body ++ rest) = a ++ rest
  /\ stripJsonComments (a ++ [slash; slash] ++ body ++ rest) = a ++ rest.
Proof.
  intros Ha Hline Hstar Hedge Hrest.
  unfold stripJsoncComments, stripJsonComments. cbv zeta. split.
  - rewrite block_pass_over_line by assumption.
    apply line_pass_comment; assumption.
  - rewrite line_pass_comment by assumption.
    unfold String_replace_all. apply block_pass_clean.
    unfold no_slash in *. rewrite forallb_app, Ha, Hrest. reflexivity.
Qed.

(** X14.  A block comment is removed from its opening mark to its closing
    mark, over as many lines as it spans. *)
Theorem block_comment_stripped a body rest :
  no_slash a = true -> no_slash body = true -> no_slash rest = true ->
  stripJsoncComments (a ++ [slash; star] ++ body ++ [star; slash] ++ rest) = a ++ rest
  /\ stripJsonComments (a ++ [slash; star] ++ body ++ [star; slash] ++ rest) = a ++ rest.
Proof.
  intros Ha Hbody Hrest.
  unfold stripJsoncComments, stripJsonComments. cbv zeta. split.
  - rewrite block_pass_comment by assumption.
    unfold String_replace_all. apply line_pass_clean.
    unfold no_slash in *. rewrite forallb_app, Ha, Hrest. reflexivity.
  - rewrite line_pass_over_block by assumption.
    apply block_pass_comment; assumption.
Qed.

End CommentFacts.

(** ** The detector's answer and its effects *)

Module AnswerFacts.
Import JS RegExp Host Effect Config Keywords Text Observed.
Import RegExpFacts KeywordsFacts DetectorFacts EditFacts CleaningFacts.
Local Open Scope list_scope.

Lemma occurs_in_subsequence m s : occurs_in m s -> subsequence m s.
Proof.
  intros (pre & post & ->). induction pre as [|c pre IH]; simpl.
  - induction m as [|c m IH]; simpl.
    + induction post; constructor; assumption.
    + constructor. exact IH.
  - apply subsequence_drop. exact IH.
Qed.

Lemma literal_patterns_occur sources s m :
  first_match (map literal_i sources) s = Some m -> occurs_in m s.
Proof.
  intros H. apply first_match_Some in H. destruct H as (pre & r & post & E & _ & Hr).
  assert (Hin : In r (map literal_i sources)).
  { rewrite E. apply in_or_app. right. left. reflexivity. }
  apply in_map_iff in Hin. destruct Hin as (src & <- & _).
  apply (String_match_occurs flags_i src). exact Hr.
Qed.

Section Facts.

Variable RegExp_new : str -> option RegExpObject.

Lemma valid_patterns_from l r :
  In r (valid_patterns RegExp_new l) -> exists p, In p l /\ RegExp_new p = Some r.
Proof.
  unfold valid_patterns. intros H. apply in_flat_map in H. destruct H as (p & Hp & Hr).
  destruct (RegExp_new p) as [r'|] eqn:E; [|destruct Hr].
  destruct Hr as [<-|[]]. exists p. split; assumption.
Qed.

Lemma scan_patterns_occurs l cleaned m :
  engine_sound RegExp_new ->
  scan_patterns (valid_patterns RegExp_new l) cleaned = Some m ->
  occurs_in (matchedText m) cleaned.
Proof.
  intros Hsound. unfold scan_patterns.
  destruct (first_match RESEARCH_PATTERNS cleaned) as [t|] eqn:E1.
  { intros H. injection H as <-. apply (literal_patterns_occur RESEARCH_SOURCES). exact E1. }
  destruct (first_match (valid_patterns RegExp_new l) cleaned) as [t|] eqn:E2.
  { intros H. injection H as <-. cbn [matchedText].
    apply first_match_Some in E2. destruct E2 as (pre & r & post & E & _ & Hr).
    assert (Hin : In r (valid_patterns RegExp_new l)).
    { rewrite E. apply in_or_app. right. left. reflexivity. }
    apply valid_patterns_from in Hin. destruct Hin as (p & _ & Hp).
    exact (Hsound p r cleaned t Hp Hr). }
  destruct (first_match SEARCH_PATTERNS cleaned) as [t|] eqn:E3; [|discriminate].
  intros H. injection H as <-. apply (literal_patterns_occur SEARCH_SOURCES). exact E3.
Qed.

(** What [detectKeywords] does, in each of its three situations. *)
Lemma detectKeywords_cases config message w :
  (detection_enabled config = false
   /\ detectKeywords RegExp_new config message w = (Normal None, w))
  \/ (detection_enabled config = true /\ declared_patterns config = PatOther
      /\ detectKeywords RegExp_new config message w
         = (Throw (TypeError_not_a_function "customPatterns.map"), w))
  \/ (exists l,
        detection_enabled config = true /\ declared_patterns config = PatArray l
        /\ detectKeywords RegExp_new config message w
           = (Normal (scan_patterns (valid_patterns RegExp_new l) (removeCodeBlocks message)),
              {| console := console w ++ invalid_warnings RegExp_new l;
                 parts := parts w |})).
Proof.
  destruct (detection_enabled config) eqn:Een.
  - destruct (declared_patterns config) as [l|] eqn:Ep.
    + right. right. exists l. split; [reflexivity|]. split; [reflexivity|].
      apply detectKeywords_run; assumption.
    + right. left. split; [reflexivity|]. split; [reflexivity|].
      unfold detectKeywords. rewrite Een. cbn [negb].
      unfold compileCustomPatterns. unfold declared_patterns in Ep. rewrite Ep.
      reflexivity.
  - left. split; [reflexivity|]. unfold detectKeywords. rewrite Een. reflexivity.
Qed.

(** X4.  Whatever the detector reports as the matched text is a run of
    consecutive code units of the message as cleaned of its code spans, and
    so is made of code units of the message itself, in their order. *)
Theorem matched_text_comes_from_message config message w m :
  engine_sound RegExp_new ->
  fst (detectKeywords RegExp_new config message w) = Normal (Some m) ->
  occurs_in (matchedText m) (removeCodeBlocks message)
  /\ subsequence (matchedText m) message.
Proof.
  intros Hsound H.
  assert (Hocc : occurs_in (matchedText m) (removeCodeBlocks message)).
  { destruct (detectKeywords_cases config message w)
      as [[_ E]|[(_ & _ & E)|(l & _ & _ & E)]]; rewrite E in H; cbn [fst] in H.
    - discriminate.
    - discriminate.
    - injection H as H. eapply scan_patterns_occurs; eassumption. }
  split; [exact Hocc|].
  eapply subsequence_trans; [apply occurs_in_subsequence; exact Hocc|].
  apply removeCodeBlocks_deletes.
Qed.

End Facts.

End AnswerFacts.

(** ** The hook, seen from the host *)

Module HookFacts.
Import JS RegExp Host Effect Config Keywords Plugin Text Observed.
Import DetectorFacts PluginFacts AnswerFacts.
Local Open Scope list_scope.

Section Facts.

Variable RegExp_new : str -> option RegExpObject.

Lemma debug_off env l w : Logger.DEBUG env = false -> debug env l w = (Normal tt, w).
Proof. intros H. unfold debug, Logger.debug. rewrite H. reflexivity. Qed.

Lemma world_eta w : {| console := console w; parts := parts w |} = w.
Proof. destruct w; reflexivity. Qed.

(** X6.  Without an API key, in the settings file or in the environment,
    the hook does nothing at all: it returns at once, with the segments
    and the console as they were, whatever the message and the debug
    setting. *)
Theorem hook_inert_without_key fileConfig env clock input mid w :
  file_apiKey fileConfig = None \/ file_apiKey fileConfig = Some [] ->
  PERPLEXITY_API_KEY env = None \/ PERPLEXITY_API_KEY env = Some [] ->
  isConfigured (loadConfig fileConfig env) = false
  /\ chat_message RegExp_new (loadConfig fileConfig env) env clock input mid w
     = (Normal tt, w).
Proof.
  intros Hf He.
  assert (H : isConfigured (loadConfig fileConfig env) = false).
  { unfold isConfigured, loadConfig. cbn [apiKey]. unfold or_default.
    destruct Hf as [-> | ->], He as [-> | ->]; reflexivity. }
  split; [exact H|]. unfold chat_message. rewrite H. reflexivity.
Qed.

(** X7.  With debug logging off, the console shows of the hook only the
    warnings about custom patterns that do not compile; they are written
    again for every message that reaches the detector while detection is
    enabled, and nothing is written for any other message. *)
Theorem hook_console_without_debug config env l clock input mid w :
  Logger.DEBUG env = false ->
  declared_patterns config = PatArray l ->
  console (snd (chat_message RegExp_new config env clock input mid w))
  = console w ++
    (if processed config (parts w) && detection_enabled config
     then invalid_warnings RegExp_new l else []).
Proof.
  intros Hdebug Hpat. unfold processed, chat_message, try_catch. cbv zeta.
  destruct (isConfigured config); [|cbn; rewrite app_nil_r; reflexivity].
  cbn [negb andb]. unfold process_message, bind, get_parts. cbv zeta.
  destruct (Nat.eqb (length (filter is_text (parts w))) 0).
  { rewrite debug_off by exact Hdebug. cbn. rewrite app_nil_r. reflexivity. }
  cbn [negb andb].
  destruct (truthy (trim (join [newline] (map part_text (filter is_text (parts w)))))).
  2:{ cbn [negb]. rewrite debug_off by exact Hdebug. cbn. rewrite app_nil_r.
      reflexivity. }
  cbn [negb]. rewrite debug_off by exact Hdebug.
  set (msg := join [newline] (map part_text (filter is_text (parts w)))).
  destruct (detectKeywords_cases RegExp_new config msg w)
    as [[Een E]|[(_ & Hother & _)|(l' & Een & Hl & E)]].
  - rewrite E, Een. cbn. rewrite app_nil_r. reflexivity.
  - rewrite Hpat in Hother. discriminate.
  - rewrite Hpat in Hl. injection Hl as <-. rewrite E, Een.
    destruct (scan_patterns _ _) as [m|].
    + rewrite debug_off by exact Hdebug. unfold push. cbn [console parts].
      rewrite debug_off by exact Hdebug. reflexivity.
    + reflexivity.
Qed.

(** X8.  A settings file whose [customPatterns] is not an array silences
    the plugin: for every message the hook returns normally and appends
    nothing, and with debug logging off it leaves no trace on the console
    either. *)
Theorem ill_typed_patterns_silence_hook config env clock input mid w :
  declared_patterns config = PatOther ->
  fst (chat_message RegExp_new config env clock input mid w) = Normal tt
  /\ parts (snd (chat_message RegExp_new config env clock input mid w)) = parts w
  /\ (Logger.DEBUG env = false ->
      chat_message RegExp_new config env clock input mid w = (Normal tt, w)).
Proof.
  intros Hpat.
  assert (Hdet : forall msg w0,
             detectKeywords RegExp_new config msg w0 = (Normal None, w0)
             \/ exists e, detectKeywords RegExp_new config msg w0 = (Throw e, w0)).
  { intros msg w0.
    destruct (detectKeywords_cases RegExp_new config msg w0)
      as [[_ E]|[(_ & _ & E)|(l' & _ & Hl & _)]].
    - left. exact E.
    - right. eexists. exact E.
    - rewrite Hpat in Hl. discriminate. }
  unfold chat_message, try_catch.
  destruct (isConfigured config); [|cbn; auto].
  cbn [negb]. unfold process_message, bind, get_parts. cbv zeta.
  destruct (Nat.eqb (length (filter is_text (parts w))) 0).
  { rewrite debug_run. cbn. split; [reflexivity|]. split; [reflexivity|].
    intros Hd. rewrite Hd, app_nil_r, world_eta. reflexivity. }
  destruct (negb (truthy (trim (join [newline] (map part_text (filter is_text (parts w))))))).
  { rewrite debug_run. cbn. split; [reflexivity|]. split; [reflexivity|].
    intros Hd. rewrite Hd, app_nil_r, world_eta. reflexivity. }
  rewrite debug_run.
  set (w1 := {| console := _; parts := parts w |}).
  set (msg := join [newline] (map part_text (filter is_text (parts w)))).
  destruct (Hdet msg w1) as [E|[e E]]; rewrite E.
  - cbn. split; [reflexivity|]. split; [reflexivity|].
    intros Hd. subst w1. rewrite Hd, app_nil_r, world_eta. reflexivity.
  - rewrite debug_run. cbn. split; [reflexivity|]. split; [reflexivity|].
    intros Hd. subst w1. cbn. rewrite Hd, !app_nil_r, world_eta. reflexivity.
Qed.

End Facts.

End HookFacts.

(** ** The settings file *)

Module SettingsFacts.
Import JS RegExp Effect Config Keywords Installer ConfigFile Text.
Import DetectorFacts InstallerFacts AnswerFacts.
Local Open Scope string_scope.
Local Open Scope list_scope.

Section Facts.

Variable CONFIG_DIR : str.
Variable JSON_parse : str -> option PartialConfig.
Variable RegExp_new : str -> option RegExpObject.

(** X10.  perplexity.json shadows perplexity.jsonc: when perplexity.json
    exists it alone is read, and when it cannot be parsed the file
    configuration is empty and its path is reported, even if a readable
    perplexity.jsonc lies next to it.  perplexity.jsonc is read only when
    perplexity.json is missing, and without either file the configuration
    is the one of the environment and the defaults. *)
Theorem settings_json_shadows_jsonc f :
  let jsonPath := path_join CONFIG_DIR "perplexity.json" in
  let jsoncPath := path_join CONFIG_DIR "perplexity.jsonc" in
  (forall content,
      f jsonPath = Some content ->
      loadConfigFile CONFIG_DIR JSON_parse f
      = match JSON_parse (stripJsonComments content) with
        | Some fileConfig => (fileConfig, None)
        | None => (empty_object, Some jsonPath)
        end)
  /\ (forall content,
        f jsonPath = None -> f jsoncPath = Some content ->
        loadConfigFile CONFIG_DIR JSON_parse f
        = match JSON_parse (stripJsonComments content) with
          | Some fileConfig => (fileConfig, None)
          | None => (empty_object, Some jsoncPath)
          end)
  /\ (f jsonPath = None -> f jsoncPath = None ->
      loadConfigFile CONFIG_DIR JSON_parse f = (empty_object, None)
      /\ forall env,
           ConfigFile.config CONFIG_DIR JSON_parse f env
           = {| apiKey := or_default (PERPLEXITY_API_KEY env) [];
                mcpUrl := Some (or_default (PERPLEXITY_MCP_URL env)
                                           (lit "stdio://perplexity-mcp"));
                model := Some (or_default (PERPLEXITY_MODEL env) (lit "sonar"));
                keywords := Some {| enabled := Some true;
                                    customPatterns := Some (PatArray []) |} |}).
Proof.
  cbv zeta. split; [|split].
  - intros content H. unfold loadConfigFile, existsSync. rewrite H. cbv zeta.
    rewrite H. reflexivity.
  - intros content H1 H2. unfold loadConfigFile, existsSync. rewrite H1, H2. cbv zeta.
    rewrite H2. reflexivity.
  - intros H1 H2.
    assert (E : loadConfigFile CONFIG_DIR JSON_parse f = (empty_object, None)).
    { unfold loadConfigFile, existsSync. rewrite H1, H2. reflexivity. }
    split; [exact E|]. intros env. unfold ConfigFile.config. rewrite E.
    reflexivity.
Qed.

(** X11.  Detection is on unless the settings file turns it off: for a
    loaded configuration the detector skips its scan exactly when the file
    says [enabled: false]; a file without a [keywords] section, or with
    one that does not mention [enabled], leaves it on, and the custom
    patterns default to none. *)
Theorem detection_on_by_default fileConfig env message w :
  (opt_field (file_keywords fileConfig) enabled = Some false ->
   detectKeywords RegExp_new (loadConfig fileConfig env) message w = (Normal None, w))
  /\ (opt_field (file_keywords fileConfig) enabled <> Some false ->
      forall l,
        nullish (opt_field (file_keywords fileConfig) customPatterns) (PatArray [])
        = PatArray l ->
        detectKeywords RegExp_new (loadConfig fileConfig env) message w
        = (Normal (scan_patterns (valid_patterns RegExp_new l) (removeCodeBlocks message)),
           {| console := console w ++ invalid_warnings RegExp_new l;
              parts := parts w |})).
Proof.
  split.
  - intros H. unfold detectKeywords, detection_enabled, loadConfig.
    cbn [keywords opt_field enabled nullish]. rewrite H. reflexivity.
  - intros H l Hl. apply detectKeywords_run.
    + unfold detection_enabled, loadConfig. cbn [keywords opt_field enabled nullish].
      destruct (opt_field (file_keywords fileConfig) enabled) as [[|]|];
        [reflexivity | contradiction H; reflexivity | reflexivity].
    + unfold declared_patterns, loadConfig. cbn [keywords opt_field customPatterns nullish].
      exact Hl.
Qed.

End Facts.

End SettingsFacts.

(** ** The steps of the installer *)

Module StepFacts.
Import JS RegExp JSON Installer Documents Text InstallerFacts.
Local Open Scope string_scope.
Local Open Scope list_scope.

Lemma str_eqb_neq a b : a <> b -> str_eqb a b = false.
Proof. intros H. unfold str_eqb. destruct (list_eq_dec N.eq_dec a b); congruence. Qed.

Lemma startsWith_app p : forall s t, startsWith s p = true -> startsWith (s ++ t) p = true.
Proof.
  induction p as [|c p IH]; intros s t H.
  - destruct s; destruct t; reflexivity.
  - destruct s as [|d s]; [discriminate H|].
    cbn [startsWith app] in *. apply andb_true_iff in H. destruct H as [H1 H2].
    rewrite H1, (IH s t H2). reflexivity.
Qed.

Lemma includes_app_l p : forall s t, includes s p = true -> includes (s ++ t) p = true.
Proof.
  induction s as [|c s IH]; intros t H.
  - cbn [includes] in H. rewrite orb_false_r in H.
    apply (startsWith_app p [] t) in H. cbn [app] in H.
    destruct t; cbn [includes app]; rewrite H; reflexivity.
  - cbn [includes app] in *. apply orb_true_iff in H. destruct H as [H|H].
    + apply (startsWith_app p (c :: s) t) in H. cbn [app] in H. rewrite H. reflexivity.
    + rewrite (IH t H). apply orb_true_r.
Qed.

Lemma includes_app_r p : forall s t, includes t p = true -> includes (s ++ t) p = true.
Proof.
  induction s as [|c s IH]; intros t H; [exact H|].
  cbn [includes app]. rewrite (IH t H). apply orb_true_r.
Qed.

Lemma trimStart_suffix : forall s,
  exists sp, s = sp ++ trimStart s /\ forallb isSpace sp = true.
Proof.
  induction s as [|c s IH]; [exists []; split; reflexivity|].
  cbn [trimStart]. destruct (isSpace c) eqn:Hc.
  - destruct IH as (sp & E & Hsp). exists (c :: sp). split.
    + cbn [app]. rewrite <- E. reflexivity.
    + cbn [forallb]. rewrite Hc, Hsp. reflexivity.
  - exists []. split; reflexivity.
Qed.

Lemma trimEnd_prefix s : exists sp, s = trimEnd s ++ sp.
Proof.
  unfold trimEnd. destruct (trimStart_suffix (rev s)) as (sp & E & _).
  exists (rev sp). rewrite <- rev_app_distr, <- E, rev_involutive. reflexivity.
Qed.

Lemma trimStart_blank_prefix : forall s1 s2,
  forallb isSpace s1 = true -> trimStart (s1 ++ s2) = trimStart s2.
Proof.
  induction s1 as [|c s1 IH]; intros s2 H; [reflexivity|].
  cbn [forallb] in H. apply andb_true_iff in H. destruct H as [Hc Hs].
  cbn [app trimStart]. rewrite Hc. apply IH. exact Hs.
Qed.

Lemma lookup_assign_same k v : forall fields, lookup k (assign k v fields) = Some v.
Proof.
  induction fields as [|[k' v'] rest IH]; cbn [assign lookup].
  - rewrite str_eqb_refl. reflexivity.
  - destruct (str_eqb k' k) eqn:E; cbn [lookup].
    + rewrite str_eqb_refl. reflexivity.
    + rewrite E. exact IH.
Qed.

Lemma lookup_assign_other k j v : forall fields,
  j <> k -> lookup j (assign k v fields) = lookup j fields.
Proof.
  intros fields Hj. induction fields as [|[k' v'] rest IH]; cbn [assign lookup].
  - rewrite (str_eqb_neq k j) by congruence. reflexivity.
  - destruct (str_eqb k' k) eqn:E; cbn [lookup].
    + apply str_eqb_eq in E. subst k'.
      rewrite (str_eqb_neq k j) by congruence. reflexivity.
    + destruct (str_eqb k' j); [reflexivity | exact IH].
Qed.

Lemma instructions_have_heading :
  includes (trim PERPLEXITY_AGENTS_INSTRUCTIONS) (lit "# How to use Perplexity") = true.
Proof. vm_compute. reflexivity. Qed.

Section Facts.

Variable dir : str.
Variable JSON_parse : str -> option value.

Lemma addPlugin_frame configPath f path :
  str_eqb path configPath = false ->
  fst (addPluginToConfig JSON_parse configPath f) path = f path.
Proof.
  intros H. unfold addPluginToConfig.
  destruct (f configPath) as [content|]; [|reflexivity].
  destruct (includes content (lit "perplexity-opencode")); [reflexivity|].
  destruct (JSON_parse (stripJsoncComments content)) as [parsed|]; [|reflexivity].
  destruct (register_plugin parsed); [|reflexivity].
  destruct (endsWith configPath (lit ".jsonc")).
  - destruct (includes content (q "plugin")); cbn [fst]; apply write_other; exact H.
  - cbn [fst]. apply write_other. exact H.
Qed.

Lemma addMcp_frame configPath apiKey f path :
  str_eqb path configPath = false ->
  fst (addMcpServerToConfig JSON_parse configPath apiKey f) path = f path.
Proof.
  intros H. unfold addMcpServerToConfig.
  destruct (f configPath) as [content|]; [|reflexivity].
  destruct (JSON_parse (stripJsoncComments content)) as [parsed|]; [|reflexivity].
  destruct (get parsed (lit "mcp")) as [found|]; [|reflexivity].
  destruct (get _ (lit "perplexity")) as [present|]; [|reflexivity].
  destruct (match present with Some v => truthy v | None => false end); [reflexivity|].
  destruct (set _ (lit "perplexity") _) as [mcp'|]; [|reflexivity].
  destruct (set parsed (lit "mcp") mcp'); [|reflexivity].
  cbn [fst]. apply write_other. exact H.
Qed.

Lemma updateAgents_frame f path :
  str_eqb path (AGENTS_MD_PATH dir) = false ->
  fst (updateAgentsMd dir f) path = f path.
Proof.
  intros H. unfold updateAgentsMd.
  destruct (f (AGENTS_MD_PATH dir)) as [content|].
  - destruct (includes content (lit "# How to use Perplexity")); [reflexivity|].
    cbn [fst]. apply write_other. exact H.
  - cbn [fst]. apply write_other. exact H.
Qed.

Lemma found_config_is_candidate f configPath :
  findOpencodeConfig dir f = Some configPath ->
  configPath = path_join dir "opencode.jsonc" \/ configPath = path_join dir "opencode.json".
Proof.
  unfold findOpencodeConfig. cbn [find].
  destruct (existsSync (path_join dir "opencode.jsonc") f).
  - intros H. injection H as <-. left. reflexivity.
  - destruct (existsSync (path_join dir "opencode.json") f); [|discriminate].
    intros H. injection H as <-. right. reflexivity.
Qed.


(** X16.  The installer writes to four paths at most: perplexity.json,
    AGENTS.md, opencode.json and opencode.jsonc in the configuration
    directory.  Every other file is, after any run, what it was before. *)
Theorem install_touches_four_files options env_apiKey answers f path :
  path <> PERPLEXITY_CONFIG_PATH dir ->
  path <> AGENTS_MD_PATH dir ->
  path <> path_join dir "opencode.json" ->
  path <> path_join dir "opencode.jsonc" ->
  fst (install dir JSON_parse options env_apiKey answers f) path = f path.
Proof.
  intros Hs Ha Hj Hc.
  apply str_eqb_neq in Hs. apply str_eqb_neq in Ha.
  apply str_eqb_neq in Hj. apply str_eqb_neq in Hc.
  unfold install. cbv zeta. fold (effective_apiKey options env_apiKey answers).
  set (key := effective_apiKey options env_apiKey answers).
  set (f2 := if JS.truthy key then fst (createPerplexityConfig dir key f) else f).
  assert (H2 : f2 path = f path).
  { unfold f2. destruct (JS.truthy key); [|reflexivity].
    unfold createPerplexityConfig. cbn [fst]. apply write_other. exact Hs. }
  assert (Hreg : forall configPath,
             findOpencodeConfig dir f2 = Some configPath ->
             (if JS.truthy key
              then fst (addMcpServerToConfig JSON_parse configPath key
                          (fst (addPluginToConfig JSON_parse configPath f2)))
              else fst (addPluginToConfig JSON_parse configPath f2)) path = f path).
  { intros configPath Hfind.
    assert (Hp : str_eqb path configPath = false).
    { destruct (found_config_is_candidate f2 configPath Hfind) as [-> | ->]; assumption. }
    destruct (JS.truthy key).
    - rewrite addMcp_frame by exact Hp. rewrite addPlugin_frame by exact Hp. exact H2.
    - rewrite addPlugin_frame by exact Hp. exact H2. }
  assert (Hnew : fst (createNewConfig dir key f2) path = f path).
  { unfold createNewConfig. cbn [fst]. rewrite write_other by exact Hj. exact H2. }
  cbn [fst]. match goal with
  | |- (if tui options then (if update_agents answers then fst (updateAgentsMd dir ?g)
                             else ?g)
        else fst (updateAgentsMd dir ?g)) path = f path =>
      set (f3 := g)
  end.
  assert (H3 : f3 path = f path).
  { unfold f3. destruct (findOpencodeConfig dir f2) as [configPath|] eqn:Hfind.
    - specialize (Hreg configPath eq_refl).
      destruct (tui options); [destruct (modify_config answers)|]; auto.
    - destruct (tui options).
      + destruct (create_config answers && JS.truthy key); auto.
      + destruct (JS.truthy key); auto. }
  destruct (tui options); [destruct (update_agents answers)|];
    try rewrite updateAgents_frame by exact Ha; exact H3.
Qed.

(** X17.  [updateAgentsMd] adds the usage (trim PERPLEXITY_AGENTS_INSTRUCTIONS ++ [newline]) once.  Afterwards
    AGENTS.md exists and holds the heading; what the file held before is
    still its beginning, up to trailing white space; no other file changes;
    and a second call changes nothing. *)
Theorem updateAgentsMd_appends_once f :
  let f1 := fst (updateAgentsMd dir f) in
  (exists content,
      f1 (AGENTS_MD_PATH dir) = Some content
      /\ includes content (lit "# How to use Perplexity") = true
      /\ match f (AGENTS_MD_PATH dir) with
         | Some old => startsWith content (trimEnd old) = true
         | None => content = (trim PERPLEXITY_AGENTS_INSTRUCTIONS ++ [newline])
         end)
  /\ (forall path, path <> AGENTS_MD_PATH dir -> f1 path = f path)
  /\ updateAgentsMd dir f1 = (f1, true).
Proof.
  cbv zeta.
  assert (Hex : exists content,
             fst (updateAgentsMd dir f) (AGENTS_MD_PATH dir) = Some content
             /\ includes content (lit "# How to use Perplexity") = true
             /\ match f (AGENTS_MD_PATH dir) with
                | Some old => startsWith content (trimEnd old) = true
                | None => content = (trim PERPLEXITY_AGENTS_INSTRUCTIONS ++ [newline])
                end).
  { unfold updateAgentsMd. destruct (f (AGENTS_MD_PATH dir)) as [old|] eqn:E.
    - destruct (includes old (lit "# How to use Perplexity")) eqn:Hinc.
      + exists old. cbn [fst]. split; [exact E|]. split; [exact Hinc|].
        destruct (trimEnd_prefix old) as (sp & Esp).
        set (t := trimEnd old) in *. rewrite Esp.
        apply PluginFacts.startsWith_prefix.
      + eexists. cbn [fst]. rewrite write_same. split; [reflexivity|]. split.
        * apply includes_app_r. apply includes_app_r. apply includes_app_l.
          exact instructions_have_heading.
        * apply PluginFacts.startsWith_prefix.
    - eexists. cbn [fst]. rewrite write_same. split; [reflexivity|]. split.
      + apply includes_app_l. exact instructions_have_heading.
      + reflexivity. }
  split; [exact Hex|]. split.
  - intros path H. apply updateAgents_frame. apply str_eqb_neq. exact H.
  - destruct Hex as (content & Hc & Hinc & _).
    apply (updateAgents_present dir content); assumption.
Qed.

(** X18.  Declining every question of the interactive installer does not
    stop it from writing the settings file: perplexity.json is written,
    without a question, as soon as a key is known, and nothing else is
    touched. *)
Theorem declined_install_still_writes_settings options env_apiKey answers f :
  tui options = true ->
  modify_config answers = false -> create_config answers = false ->
  update_agents answers = false ->
  let key := effective_apiKey options env_apiKey answers in
  install dir JSON_parse options env_apiKey answers f
  = ((if JS.truthy key
      then writeFileSync (PERPLEXITY_CONFIG_PATH dir) (settings_document key) f
      else f),
     0%Z).
Proof.
  intros Ht Hm Hc Hu. cbv zeta. unfold install. cbv zeta.
  fold (effective_apiKey options env_apiKey answers).
  set (key := effective_apiKey options env_apiKey answers).
  rewrite Ht, Hm, Hc, Hu. cbn [andb].
  destruct (findOpencodeConfig dir _); reflexivity.
Qed.

(** X19.  Without an API key the installer writes no settings file, and
    it does not create a host configuration: when none exists, AGENTS.md
    is the only file a run can change. *)
Theorem install_without_key options env_apiKey answers f :
  JS.truthy (effective_apiKey options env_apiKey answers) = false ->
  fst (install dir JSON_parse options env_apiKey answers f) (PERPLEXITY_CONFIG_PATH dir)
  = f (PERPLEXITY_CONFIG_PATH dir)
  /\ (findOpencodeConfig dir f = None ->
      forall path, path <> AGENTS_MD_PATH dir ->
        fst (install dir JSON_parse options env_apiKey answers f) path = f path).
Proof.
  intros Hk. unfold install. cbv zeta.
  fold (effective_apiKey options env_apiKey answers). rewrite Hk. cbn [fst andb].
  rewrite andb_false_r. split.
  - assert (Hset : forall g, fst (updateAgentsMd dir g) (PERPLEXITY_CONFIG_PATH dir)
                             = g (PERPLEXITY_CONFIG_PATH dir)).
    { intros g. apply updateAgents_frame. apply path_join_differs. discriminate. }
    destruct (findOpencodeConfig dir f) as [configPath|] eqn:Hfind.
    + assert (Hp : fst (addPluginToConfig JSON_parse configPath f) (PERPLEXITY_CONFIG_PATH dir)
                   = f (PERPLEXITY_CONFIG_PATH dir)).
      { apply addPlugin_frame.
        destruct (found_config_is_candidate f configPath Hfind) as [-> | ->];
          apply path_join_differs; discriminate. }
      destruct (tui options); [destruct (modify_config answers)|];
        [destruct (update_agents answers)|destruct (update_agents answers)|];
        rewrite ?Hset, ?Hp; reflexivity.
    + destruct (tui options); [destruct (update_agents answers)|];
        rewrite ?Hset; reflexivity.
  - intros Hfind path Hpath. rewrite Hfind. apply str_eqb_neq in Hpath.
    destruct (tui options); [destruct (update_agents answers)|];
      rewrite ?updateAgents_frame by exact Hpath; reflexivity.
Qed.

(** X20.  A first non-interactive run with a key, where neither a host
    configuration nor AGENTS.md exists, creates perplexity.json,
    opencode.json and AGENTS.md, and leaves the environment configured:
    provided the parser reads back the host configuration that was
    written, a second run changes nothing. *)
Theorem fresh_install_is_stable options env_apiKey answers f :
  tui options = false ->
  JS.truthy (effective_apiKey options env_apiKey answers) = true ->
  findOpencodeConfig dir f = None ->
  f (AGENTS_MD_PATH dir) = None ->
  JSON_parse (stripJsoncComments
                (stringify (new_host_config (effective_apiKey options env_apiKey answers))))
  = Some (new_host_config (effective_apiKey options env_apiKey answers)) ->
  let key := effective_apiKey options env_apiKey answers in
  let once := fst (install dir JSON_parse options env_apiKey answers f) in
  once (PERPLEXITY_CONFIG_PATH dir) = Some (settings_document key)
  /\ once (path_join dir "opencode.json") = Some (stringify (new_host_config key))
  /\ once (AGENTS_MD_PATH dir) = Some (trim PERPLEXITY_AGENTS_INSTRUCTIONS ++ [newline])
  /\ configured dir JSON_parse once
  /\ (forall path,
        fst (install dir JSON_parse options env_apiKey answers once) path = once path).
Proof.
  intros Ht Hk Hfind Hagents Hparse. cbv zeta.
  set (key := effective_apiKey options env_apiKey answers) in *.
  set (f2 := writeFileSync (PERPLEXITY_CONFIG_PATH dir) (settings_document key) f).
  set (f3 := writeFileSync (path_join dir "opencode.json")
                           (stringify (new_host_config key)) f2).
  set (f4 := writeFileSync (AGENTS_MD_PATH dir) (trim PERPLEXITY_AGENTS_INSTRUCTIONS ++ [newline]) f3).
  assert (E : fst (install dir JSON_parse options env_apiKey answers f) = f4).
  { unfold install. cbv zeta. fold (effective_apiKey options env_apiKey answers).
    fold key. rewrite Hk, Ht. cbn [fst].
    change (fst (createPerplexityConfig dir key f)) with f2.
    assert (Hf2 : findOpencodeConfig dir f2 = None).
    { unfold f2. rewrite find_after_settings. exact Hfind. }
    rewrite Hf2. change (fst (createNewConfig dir key f2)) with f3.
    assert (Ha3 : f3 (AGENTS_MD_PATH dir) = None).
    { unfold f3, f2. rewrite !write_other by (apply path_join_differs; discriminate).
      exact Hagents. }
    unfold updateAgentsMd. rewrite Ha3. reflexivity. }
  rewrite E.
  assert (Hjsonc : f (path_join dir "opencode.jsonc") = None
                   /\ f (path_join dir "opencode.json") = None).
  { unfold findOpencodeConfig, existsSync in Hfind. cbn [find] in Hfind.
    destruct (f (path_join dir "opencode.jsonc")); [discriminate|].
    destruct (f (path_join dir "opencode.json")); [discriminate|]. auto. }
  assert (H1 : f4 (PERPLEXITY_CONFIG_PATH dir) = Some (settings_document key)).
  { unfold f4, f3, f2. rewrite !write_other by (apply path_join_differs; discriminate).
    apply write_same. }
  assert (H2 : f4 (path_join dir "opencode.json") = Some (stringify (new_host_config key))).
  { unfold f4, f3. rewrite write_other by (apply path_join_differs; discriminate).
    apply write_same. }
  assert (H3 : f4 (AGENTS_MD_PATH dir) = Some (trim PERPLEXITY_AGENTS_INSTRUCTIONS ++ [newline])).
  { unfold f4. apply write_same. }
  assert (Hc : configured dir JSON_parse f4).
  { exists (path_join dir "opencode.json"), (stringify (new_host_config key)),
      (new_host_config key), (trim PERPLEXITY_AGENTS_INSTRUCTIONS ++ [newline]).
    split; [|split; [exact H2|split; [|split; [exact Hparse|split; [reflexivity|
      split; [exact H3|]]]]]].
    - assert (Hj4 : f4 (path_join dir "opencode.jsonc") = None).
      { unfold f4. rewrite write_other by (apply path_join_differs; discriminate).
        unfold f3. rewrite write_other by (apply path_join_differs; discriminate).
        unfold f2. rewrite write_other by (apply path_join_differs; discriminate).
        exact (proj1 Hjsonc). }
      unfold findOpencodeConfig, existsSync. cbn [find]. rewrite Hj4, H2. reflexivity.
    - unfold stringify, new_host_config. cbn [serialize map fst snd block join app].
      apply (includes_app_r _ [123%N; newline]). apply includes_app_r.
      apply includes_app_l. apply includes_app_l. vm_compute. reflexivity.
    - apply includes_app_l. exact instructions_have_heading. }
  split; [exact H1|]. split; [exact H2|]. split; [exact H3|]. split; [exact Hc|].
  intros path. rewrite (install_configured dir JSON_parse options env_apiKey answers f4 Hc).
  fold key. rewrite Hk. unfold writeFileSync at 1.
  destruct (str_eqb path (PERPLEXITY_CONFIG_PATH dir)) eqn:Ep; [|reflexivity].
  apply str_eqb_eq in Ep. subst path. symmetry. exact H1.
Qed.

End Facts.

End StepFacts.

(** ** Edits of the host configuration *)

Module HostConfigFacts.
Import JS RegExp JSON Installer Documents Text Matching.
Import RegExpFacts MarkdownFacts InstallerFacts EditFacts RunFacts StepFacts.
Local Open Scope string_scope.
Local Open Scope list_scope.

Lemma brace_after_blank ws rest :
  blank ws = true ->
  exists tl,
    ends flags_none leading_brace
         {| before := []; after := ws ++ lit "{" ++ rest |}
    = {| before := 123%N :: rev ws; after := rest |} :: tl.
Proof.
  intros Hws. unfold leading_brace, ws0. cbn [seq ends].
  unfold guard. cbn [multiline flags_none before is_nil flat_map after].
  rewrite app_nil_r.
  change (fun x => step_if isSpace x) with (step_if isSpace).
  destruct (greedy_run_first isSpace ws [] (lit "{" ++ rest)
              (length (ws ++ lit "{" ++ rest))) as [tl Htl].
  - apply Forall_forall. intros c Hc. unfold blank in Hws.
    rewrite forallb_forall in Hws. apply Hws. exact Hc.
  - rewrite length_app. lia.
  - reflexivity.
  - rewrite app_nil_r in Htl. rewrite Htl. cbn [flat_map].
    rewrite word_letters, ends_letters_exact.
    rewrite PluginFacts.startsWith_prefix. cbn [app].
    eexists. reflexivity.
Qed.

Lemma brace_not_later : forall aft bef,
  bef <> [] -> exec flags_none leading_brace bef aft = None.
Proof.
  induction aft as [|c aft IH]; intros bef Hbef; rewrite exec_eq;
    unfold leading_brace, ws0; cbn [seq ends]; unfold guard;
    cbn [multiline flags_none before is_nil];
    destruct bef as [|b bef]; try contradiction; cbn [flat_map is_nil].
  - reflexivity.
  - apply IH. discriminate.
Qed.

Lemma brace_nowhere content :
  startsWith (trimStart content) (lit "{") = false ->
  exec flags_none leading_brace [] content = None.
Proof.
  intros H. rewrite exec_eq.
  assert (E : ends flags_none leading_brace {| before := []; after := content |} = []).
  { unfold leading_brace, ws0. cbn [seq ends].
    unfold guard. cbn [multiline flags_none before is_nil flat_map after].
    rewrite app_nil_r.
    change (fun x => step_if isSpace x) with (step_if isSpace).
    apply run_none_within. intros s1 s2 Es Hs1.
    rewrite word_letters, ends_letters_exact.
    rewrite Es, (trimStart_blank_prefix s1 s2 Hs1) in H.
    destruct s2 as [|c s2]; [reflexivity|].
    cbn [trimStart] in H. destruct (isSpace c) eqn:Hc.
    - assert (Hne : (123 =? c)%N = false).
      { destruct (123 =? c)%N eqn:E; [|reflexivity].
        apply N.eqb_eq in E. subst c. discriminate Hc. }
      change (lit "{") with [123%N]. cbn [startsWith]. rewrite Hne. reflexivity.
    - rewrite H. reflexivity. }
  rewrite E. destruct content as [|c content]; [reflexivity|].
  apply brace_not_later. discriminate.
Qed.

Section Facts.

Variable JSON_parse : str -> option value.

(** X21.  In a [.json] host configuration the plugin is appended to the
    [plugin] array, or put into a new one: the plugins already listed stay
    in front of it and every other key keeps its value.  The file is
    rewritten from the parsed value. *)
Theorem json_plugin_appended configPath content fields items f :
  endsWith configPath (lit ".jsonc") = false ->
  f configPath = Some content ->
  includes content (lit "perplexity-opencode") = false ->
  JSON_parse (stripJsoncComments content) = Some (JObject fields) ->
  lookup (lit "plugin") fields = Some (JArray items)
  \/ (lookup (lit "plugin") fields = None /\ items = []) ->
  exists fields',
    addPluginToConfig JSON_parse configPath f
    = (writeFileSync configPath (stringify (JObject fields')) f, true)
    /\ lookup (lit "plugin") fields' = Some (JArray (items ++ [JString PLUGIN_NAME]))
    /\ (forall k, k <> lit "plugin" -> lookup k fields' = lookup k fields).
Proof.
  intros Hext Hf Hinc Hparse Hplugin.
  exists (assign (lit "plugin") (JArray (items ++ [JString PLUGIN_NAME])) fields).
  split; [|split].
  - unfold addPluginToConfig. rewrite Hf, Hinc, Hparse.
    unfold register_plugin. cbn [get set].
    destruct Hplugin as [-> | [-> ->]]; cbn [truthy app]; rewrite Hext; reflexivity.
  - apply lookup_assign_same.
  - intros k Hk. apply lookup_assign_other. exact Hk.
Qed.

(** X22.  A [plugin] value that is neither an array nor falsy (a string,
    an object, a number) makes [addPluginToConfig] fail: it returns false
    and leaves the file as it is. *)
Theorem plugin_value_must_be_array configPath content fields v f :
  f configPath = Some content ->
  includes content (lit "perplexity-opencode") = false ->
  JSON_parse (stripJsoncComments content) = Some (JObject fields) ->
  lookup (lit "plugin") fields = Some v ->
  truthy v = true ->
  (forall items, v <> JArray items) ->
  addPluginToConfig JSON_parse configPath f = (f, false).
Proof.
  intros Hf Hinc Hparse Hv Ht Hna.
  unfold addPluginToConfig. rewrite Hf, Hinc, Hparse.
  unfold register_plugin. cbn [get]. rewrite Hv, Ht.
  destruct v; try reflexivity. contradiction (Hna items eq_refl).
Qed.

(** X23.  [addMcpServerToConfig] adds the [perplexity] server to the
    [mcp] table, or to a new one: the servers already there and every
    other key keep their values, the entry carries the API key, and the
    result counts as registered.  Whatever the extension of the file, it is
    rewritten from the parsed value. *)
Theorem mcp_server_added configPath content fields servers apiKey f :
  f configPath = Some content ->
  JSON_parse (stripJsoncComments content) = Some (JObject fields) ->
  lookup (lit "mcp") fields = Some (JObject servers)
  \/ (lookup (lit "mcp") fields = None /\ servers = []) ->
  lookup (lit "perplexity") servers = None ->
  exists fields' servers',
    addMcpServerToConfig JSON_parse configPath apiKey f
    = (writeFileSync configPath (stringify (JObject fields')) f, true)
    /\ lookup (lit "mcp") fields' = Some (JObject servers')
    /\ lookup (lit "perplexity") servers' = Some (mcp_entry apiKey)
    /\ (forall k, k <> lit "perplexity" -> lookup k servers' = lookup k servers)
    /\ (forall k, k <> lit "mcp" -> lookup k fields' = lookup k fields)
    /\ mcp_registered (JObject fields') = true.
Proof.
  intros Hf Hparse Hmcp Hnone.
  set (servers' := assign (lit "perplexity") (mcp_entry apiKey) servers).
  set (fields' := assign (lit "mcp") (JObject servers') fields).
  assert (Hl : lookup (lit "mcp") fields' = Some (JObject servers'))
    by apply lookup_assign_same.
  assert (Hp : lookup (lit "perplexity") servers' = Some (mcp_entry apiKey))
    by apply lookup_assign_same.
  exists fields', servers'. split; [|split; [exact Hl|split; [exact Hp|split; [|split]]]].
  - unfold addMcpServerToConfig. rewrite Hf, Hparse. cbn [get].
    destruct Hmcp as [-> | [-> ->]]; cbn [truthy get set]; rewrite ?Hnone; reflexivity.
  - intros k Hk. apply lookup_assign_other. exact Hk.
  - intros k Hk. apply lookup_assign_other. exact Hk.
  - unfold mcp_registered. cbn [get]. rewrite Hl. cbn [truthy get andb].
    rewrite Hp. reflexivity.
Qed.

(** X24.  In a [.jsonc] host configuration without a [plugin] key that
    starts, after white space only, with its opening brace, the plugin is
    registered by inserting one line after that brace; the rest of the
    text, comments included, is kept as it is. *)
Theorem jsonc_plugin_inserted_after_brace configPath ws rest parsed config f :
  endsWith configPath (lit ".jsonc") = true ->
  blank ws = true ->
  f configPath = Some (ws ++ lit "{" ++ rest) ->
  includes (ws ++ lit "{" ++ rest) (lit "perplexity-opencode") = false ->
  includes (ws ++ lit "{" ++ rest) (q "plugin") = false ->
  JSON_parse (stripJsoncComments (ws ++ lit "{" ++ rest)) = Some parsed ->
  register_plugin parsed = Some config ->
  addPluginToConfig JSON_parse configPath f
  = (writeFileSync configPath (ws ++ lit "{" ++ plugin_line ++ rest) f, true).
Proof.
  intros Hext Hws Hf Hinc Hkey Hparse Hreg.
  unfold addPluginToConfig. rewrite Hf, Hinc, Hparse, Hreg, Hext, Hkey.
  unfold String_replace_first. rewrite exec_eq.
  destruct (brace_after_blank ws rest Hws) as [tl Htl]. rewrite Htl.
  cbn [before after rev app].
  rewrite (matched_text_ahead _ _ (ws ++ lit "{")).
  - unfold plugin_line. rewrite <- !app_assoc. reflexivity.
  - cbn [after]. rewrite <- app_assoc. reflexivity.
Qed.

(** X25.  In a [.jsonc] host configuration without a [plugin] key whose
    first code unit after white space is not the opening brace (the file
    starts with a comment, say), nothing is inserted: the file is written
    back as it was, every file reads as before, and [addPluginToConfig]
    still reports success. *)
Theorem jsonc_without_leading_brace_unchanged configPath content parsed config f :
  endsWith configPath (lit ".jsonc") = true ->
  f configPath = Some content ->
  includes content (lit "perplexity-opencode") = false ->
  includes content (q "plugin") = false ->
  JSON_parse (stripJsoncComments content) = Some parsed ->
  register_plugin parsed = Some config ->
  startsWith (trimStart content) (lit "{") = false ->
  addPluginToConfig JSON_parse configPath f = (writeFileSync configPath content f, true)
  /\ (forall path, fst (addPluginToConfig JSON_parse configPath f) path = f path).
Proof.
  intros Hext Hf Hinc Hkey Hparse Hreg Hbrace.
  assert (E : addPluginToConfig JSON_parse configPath f
              = (writeFileSync configPath content f, true)).
  { unfold addPluginToConfig. rewrite Hf, Hinc, Hparse, Hreg, Hext, Hkey.
    unfold String_replace_first. rewrite (brace_nowhere content Hbrace). reflexivity. }
  split; [exact E|]. intros path. rewrite E. cbn [fst]. unfold writeFileSync.
  destruct (str_eqb path configPath) eqn:Ep; [|reflexivity].
  apply str_eqb_eq in Ep. subst path. symmetry. exact Hf.
Qed.

End Facts.

End HostConfigFacts.

(** ** The script: its arguments and the way it ends *)

Module CliFacts.
Import JS RegExp JSON Installer Text InstallerFacts StepFacts.
Local Open Scope string_scope.
Local Open Scope list_scope.

Lemma indexOf_first a : forall pre post,
  ~ In a pre -> Cli.indexOf (pre ++ a :: post) a = Some (length pre).
Proof.
  induction pre as [|x pre IH]; intros post Hpre.
  - cbn [app Cli.indexOf length]. rewrite str_eqb_refl. reflexivity.
  - cbn [app Cli.indexOf length]. rewrite (str_eqb_neq x a).
    + rewrite IH; [reflexivity|]. intros H. apply Hpre. right. exact H.
    + intros ->. apply Hpre. left. reflexivity.
Qed.

Lemma nth_error_after (pre : list str) a tail :
  nth_error (pre ++ a :: tail) (length pre + 1) = hd_error tail.
Proof.
  induction pre as [|x pre IH]; [destruct tail; reflexivity | exact IH].
Qed.

Lemma indexOf_absent a : forall l, ~ In a l -> Cli.indexOf l a = None.
Proof.
  induction l as [|x l IH]; intros Hl; [reflexivity|].
  cbn [Cli.indexOf]. rewrite (str_eqb_neq x a).
  - rewrite IH; [reflexivity|]. intros H. apply Hl. right. exact H.
  - intros ->. apply Hl. left. reflexivity.
Qed.

Lemma existsb_str_eqb a l : existsb (str_eqb a) l = true <-> In a l.
Proof.
  rewrite existsb_exists. split.
  - intros (x & Hx & E). apply str_eqb_eq in E. subst x. exact Hx.
  - intros H. exists a. split; [exact H | apply str_eqb_refl].
Qed.

Section Facts.

Variable dir : str.
Variable JSON_parse : str -> option value.

(** The commands the script knows. *)
Lemma known_commands command :
  In command [lit "help"; lit "--help"; lit "-h"; lit "install"]
  <-> (str_eqb command (lit "help") || str_eqb command (lit "--help")
       || str_eqb command (lit "-h") || str_eqb command (lit "install")) = true.
Proof.
  split.
  - intros [<-|[<-|[<-|[<-|[]]]]]; reflexivity.
  - intros H. repeat (apply orb_true_iff in H; destruct H as [H|H]);
      apply str_eqb_eq in H; subst command; cbn [In]; auto.
Qed.

(** When no call fails, the steps are those of [Installer]. *)
Lemma addPluginToConfig_no_faults configPath f :
  Cli.addPluginToConfig JSON_parse Cli.no_faults configPath f
  = addPluginToConfig JSON_parse configPath f.
Proof.
  unfold Cli.addPluginToConfig, addPluginToConfig, Cli.readFileSync, Cli.write_or_fail,
    Cli.writeFileSync.
  cbn [Cli.read_throws Cli.write_throws Cli.no_faults].
  destruct (f configPath) as [content|]; [|reflexivity].
  destruct (includes content (lit "perplexity-opencode")); [reflexivity|].
  destruct (JSON_parse (stripJsoncComments content)) as [parsed|]; [|reflexivity].
  destruct (register_plugin parsed) as [config|]; [|reflexivity].
  destruct (endsWith configPath (lit ".jsonc")); [|reflexivity].
  destruct (includes content (q "plugin")); reflexivity.
Qed.

Lemma addMcpServerToConfig_no_faults configPath apiKey f :
  Cli.addMcpServerToConfig JSON_parse Cli.no_faults configPath apiKey f
  = addMcpServerToConfig JSON_parse configPath apiKey f.
Proof.
  unfold Cli.addMcpServerToConfig, addMcpServerToConfig, Cli.readFileSync,
    Cli.write_or_fail, Cli.writeFileSync.
  cbn [Cli.read_throws Cli.write_throws Cli.no_faults].
  destruct (f configPath) as [content|]; [|reflexivity].
  destruct (JSON_parse (stripJsoncComments content)) as [config|]; [|reflexivity].
  destruct (get config (lit "mcp")) as [found|]; [|reflexivity].
  cbv zeta.
  destruct (get _ (lit "perplexity")) as [present|]; [|reflexivity].
  destruct (match present with Some v => truthy v | None => false end); [reflexivity|].
  destruct (set _ (lit "perplexity") (mcp_entry apiKey)) as [mcp'|]; [|reflexivity].
  destruct (set config (lit "mcp") mcp'); reflexivity.
Qed.

Lemma createPerplexityConfig_no_faults apiKey f :
  Cli.createPerplexityConfig dir Cli.no_faults apiKey f
  = Some (createPerplexityConfig dir apiKey f).
Proof. reflexivity. Qed.

Lemma createNewConfig_no_faults apiKey f :
  Cli.createNewConfig dir Cli.no_faults apiKey f = Some (createNewConfig dir apiKey f).
Proof. reflexivity. Qed.

Lemma updateAgentsMd_no_faults f :
  Cli.updateAgentsMd dir Cli.no_faults f = Some (updateAgentsMd dir f).
Proof.
  unfold Cli.updateAgentsMd, updateAgentsMd, Cli.mkdirSync, Cli.readFileSync,
    Cli.write_or_fail, Cli.writeFileSync, existsSync.
  cbn [Cli.mkdir_throws Cli.read_throws Cli.write_throws Cli.no_faults].
  destruct (f (AGENTS_MD_PATH dir)) as [content|]; [|reflexivity].
  destruct (includes content (lit "# How to use Perplexity")); reflexivity.
Qed.

(** A run in which no call fails is the run [Installer.install] describes,
    and its promise is fulfilled. *)
Lemma install_no_faults options env_apiKey answers f :
  Cli.install dir JSON_parse Cli.no_faults options env_apiKey answers f
  = (fst (install dir JSON_parse options env_apiKey answers f),
     Cli.exit (snd (install dir JSON_parse options env_apiKey answers f))).
Proof.
  unfold Cli.install, install. cbv zeta.
  set (apiKey := if negb (JS.truthy _) && tui options then _ else _).
  rewrite createPerplexityConfig_no_faults.
  cbn [option_map].
  set (f2 := if JS.truthy apiKey then fst (createPerplexityConfig dir apiKey f) else f).
  assert (E2 : (if JS.truthy apiKey
                then Some (fst (createPerplexityConfig dir apiKey f)) else Some f)
               = Some f2).
  { unfold f2. destruct (JS.truthy apiKey); reflexivity. }
  rewrite E2.
  set (register := fun (configPath : str) (g : fs) =>
         if JS.truthy apiKey
         then fst (addMcpServerToConfig JSON_parse configPath apiKey
                     (fst (addPluginToConfig JSON_parse configPath g)))
         else fst (addPluginToConfig JSON_parse configPath g)).
  set (f3 := match findOpencodeConfig dir f2 with
             | Some configPath =>
                 if tui options
                 then if modify_config answers then register configPath f2 else f2
                 else register configPath f2
             | None =>
                 if tui options
                 then if create_config answers && JS.truthy apiKey
                      then fst (createNewConfig dir apiKey f2) else f2
                 else if JS.truthy apiKey then fst (createNewConfig dir apiKey f2) else f2
             end).
  match goal with
  | |- match ?s3 with Some _ => _ | None => _ end = _ =>
      assert (E3 : s3 = Some f3)
  end.
  { unfold f3, register. rewrite createNewConfig_no_faults. cbn [option_map].
    destruct (findOpencodeConfig dir f2) as [configPath|].
    - rewrite addPluginToConfig_no_faults, addMcpServerToConfig_no_faults.
      destruct (tui options); [destruct (modify_config answers)|];
        destruct (JS.truthy apiKey); reflexivity.
    - destruct (tui options); [destruct (create_config answers)|];
        destruct (JS.truthy apiKey); reflexivity. }
  rewrite E3. rewrite updateAgentsMd_no_faults. cbn [option_map].
  destruct (tui options); [destruct (update_agents answers)|]; reflexivity.
Qed.

Section Faulty.

Variable faults : Cli.Faults.

(** The promise of [install] is fulfilled with 0 or rejected, and rejected
    only by one of the calls that stand outside a [try]. *)
Lemma install_ending options env_apiKey answers f :
  let ending := snd (Cli.install dir JSON_parse faults options env_apiKey answers f) in
  (ending = Cli.exit 0 \/ ending = Cli.uncaught)
  /\ (ending = Cli.uncaught ->
      Cli.mkdir_throws faults = true
      \/ Cli.write_throws faults (PERPLEXITY_CONFIG_PATH dir) = true
      \/ Cli.write_throws faults (path_join dir "opencode.json") = true).
Proof.
  cbv zeta. unfold Cli.install. cbv zeta.
  set (apiKey := if negb (JS.truthy _) && tui options then _ else _).
  unfold Cli.createPerplexityConfig, Cli.createNewConfig, Cli.updateAgentsMd,
    Cli.mkdirSync, Cli.writeFileSync.
  destruct (Cli.mkdir_throws faults);
    destruct (Cli.write_throws faults (PERPLEXITY_CONFIG_PATH dir));
    destruct (Cli.write_throws faults (path_join dir "opencode.json"));
    destruct (JS.truthy apiKey); cbn [option_map fst snd];
    try (split; [right; reflexivity | intros _; auto]);
    match goal with
    | |- context [findOpencodeConfig dir ?g] => destruct (findOpencodeConfig dir g)
    end;
    destruct (tui options); try destruct (modify_config answers);
    try destruct (create_config answers); try destruct (update_agents answers);
    cbn [option_map fst snd andb];
    (split; [first [left; reflexivity | right; reflexivity]
            | intros H; first [discriminate H | auto]]).
Qed.

(** X27.  The script calls [process.exit(1)] exactly when its first
    argument is not a command it knows.  Without an argument, and for
    [help], [--help] and [-h], it calls [process.exit(0)].  For [install]
    it calls [process.exit(0)] when the run completes, whatever the steps
    inside a [try] report, and it ends with an error nothing catches only
    when [mkdirSync], or [writeFileSync] on [perplexity.json] or
    [opencode.json], throws.  Only [install] can change a file. *)
Theorem main_exit_code args env_apiKey answers f :
  let run := Cli.main dir JSON_parse faults args env_apiKey answers f in
  (snd run = Cli.exit 1
   <-> exists command rest,
         args = command :: rest
         /\ ~ In command [lit "help"; lit "--help"; lit "-h"; lit "install"])
  /\ (snd run = Cli.exit 0 \/ snd run = Cli.exit 1 \/ snd run = Cli.uncaught)
  /\ (snd run = Cli.uncaught ->
      hd_error args = Some (lit "install")
      /\ (Cli.mkdir_throws faults = true
          \/ Cli.write_throws faults (PERPLEXITY_CONFIG_PATH dir) = true
          \/ Cli.write_throws faults (path_join dir "opencode.json") = true))
  /\ (hd_error args = Some (lit "install") ->
      Cli.mkdir_throws faults = false ->
      Cli.write_throws faults (PERPLEXITY_CONFIG_PATH dir) = false ->
      Cli.write_throws faults (path_join dir "opencode.json") = false ->
      snd run = Cli.exit 0)
  /\ (hd_error args <> Some (lit "install") -> fst run = f).
Proof.
  cbv zeta. destruct args as [|command rest].
  - cbn [Cli.main snd fst hd_error]. repeat split; try discriminate; auto.
    intros (c & r & E & _). discriminate.
  - pose proof (known_commands command) as Hknown. cbn [Cli.main hd_error].
    destruct (str_eqb command (lit "help") || str_eqb command (lit "--help")
              || str_eqb command (lit "-h")) eqn:Ehelp.
    + cbn [snd fst]. repeat split; try discriminate; auto.
      intros (c & r & E & Hc). injection E as <- <-.
      exfalso. apply Hc. apply Hknown. reflexivity.
    + destruct (str_eqb command (lit "install")) eqn:Einstall.
      * apply str_eqb_eq in Einstall. subst command.
        match goal with
        | |- context [Cli.install dir JSON_parse faults ?o env_apiKey answers f] =>
            pose proof (install_ending o env_apiKey answers f) as [Hends Hwhy];
            cbv zeta in Hends, Hwhy;
            set (run := Cli.install dir JSON_parse faults o env_apiKey answers f) in *
        end.
        split; [|split; [|split; [|split]]].
        -- split.
           ++ intros H. destruct Hends as [E|E]; rewrite E in H; discriminate H.
           ++ intros (c & r & E & Hc). injection E as <- <-.
              exfalso. apply Hc. apply Hknown. reflexivity.
        -- destruct Hends as [E|E]; auto.
        -- intros H. split; [reflexivity | exact (Hwhy H)].
        -- intros _ Hm Hs Hh. destruct Hends as [E|E]; [exact E|].
           destruct (Hwhy E) as [H|[H|H]]; congruence.
        -- intros H. exfalso. apply H. reflexivity.
      * cbn [snd fst]. split; [|split; [|split; [|split]]].
        -- split; [|reflexivity]. intros _. exists command, rest. split; [reflexivity|].
           intros Hc. apply Hknown in Hc. cbn [orb] in Hc. discriminate Hc.
        -- auto.
        -- discriminate.
        -- intros H. injection H as ->. discriminate Einstall.
        -- reflexivity.
Qed.

(** X28.  The options of [install] are read by position only.  The
    argument after the first [--api-key] is the key, whatever it is, be it
    another flag; a trailing [--api-key] gives no key, and the environment
    is consulted; [--no-tui] switches the prompts off wherever it stands,
    also when it stands as the key. *)
Theorem install_options_by_position rest env_apiKey answers f :
  let run options := Cli.install dir JSON_parse faults options env_apiKey answers f in
  let noTui := existsb (str_eqb (lit "--no-tui")) rest in
  (forall pre value post,
      rest = pre ++ lit "--api-key" :: value :: post -> ~ In (lit "--api-key") pre ->
      Cli.main dir JSON_parse faults (lit "install" :: rest) env_apiKey answers f
      = run {| tui := negb noTui; option_apiKey := Some value |})
  /\ (forall pre,
        rest = pre ++ [lit "--api-key"] -> ~ In (lit "--api-key") pre ->
        Cli.main dir JSON_parse faults (lit "install" :: rest) env_apiKey answers f
        = run {| tui := negb noTui; option_apiKey := None |})
  /\ (~ In (lit "--api-key") rest ->
      Cli.main dir JSON_parse faults (lit "install" :: rest) env_apiKey answers f
      = run {| tui := negb noTui; option_apiKey := None |}).
Proof.
  cbv zeta.
  assert (Hmain : forall key,
             match Cli.indexOf (lit "install" :: rest) (lit "--api-key") with
             | Some i => nth_error (lit "install" :: rest) (i + 1)
             | None => None
             end = key ->
             Cli.main dir JSON_parse faults (lit "install" :: rest) env_apiKey answers f
             = Cli.install dir JSON_parse faults
                 {| tui := negb (existsb (str_eqb (lit "--no-tui")) rest);
                    option_apiKey := key |} env_apiKey answers f).
  { intros key <-. reflexivity. }
  split; [|split].
  - intros pre value post -> Hpre. apply Hmain.
    cbn [Cli.indexOf]. change (str_eqb (lit "install") (lit "--api-key")) with false.
    cbn iota. rewrite indexOf_first by exact Hpre.
    exact (nth_error_after (lit "install" :: pre) (lit "--api-key") (value :: post)).
  - intros pre -> Hpre. apply Hmain.
    cbn [Cli.indexOf]. change (str_eqb (lit "install") (lit "--api-key")) with false.
    cbn iota. rewrite indexOf_first by exact Hpre.
    exact (nth_error_after (lit "install" :: pre) (lit "--api-key") []).
  - intros Hrest. apply Hmain.
    cbn [Cli.indexOf]. change (str_eqb (lit "install") (lit "--api-key")) with false.
    cbn iota. rewrite indexOf_absent by exact Hrest. reflexivity.
Qed.

End Faulty.

End Facts.

End CliFacts.

(** ** The [plugin] array of a [.jsonc] host configuration *)

Module PluginArrayFacts.
Import JS RegExp JSON Installer Documents Text Matching.
Import RegExpFacts MarkdownFacts InstallerFacts EditFacts RunFacts StepFacts.
Local Open Scope string_scope.
Local Open Scope list_scope.

Lemma exec_groups_eq fl g1 g2 g3 bef aft :
  exec_groups fl g1 g2 g3 bef aft =
  match ends3 fl g1 g2 g3 {| before := bef; after := aft |} with
  | y :: _ => Some ({| before := bef; after := aft |}, y)
  | [] => match aft with
          | [] => None
          | c :: aft' => exec_groups fl g1 g2 g3 (c :: bef) aft'
          end
  end.
Proof. destruct aft; reflexivity. Qed.

(** The first end position of a sequence is the first end of its second
    part, started at the first end of its first part. *)
Lemma first_end_seq fl r1 r2 x y z :
  (exists tl, ends fl r1 x = y :: tl) ->
  (exists tl, ends fl r2 y = z :: tl) ->
  exists tl, ends fl (RSeq r1 r2) x = z :: tl.
Proof.
  intros [tl1 H1] [tl2 H2]. cbn [ends]. rewrite H1. cbn [flat_map]. rewrite H2.
  cbn [app]. eexists. reflexivity.
Qed.

Lemma first_end_literal p b rest :
  exists tl,
    ends flags_none (letters p) {| before := b; after := p ++ rest |}
    = {| before := rev p ++ b; after := rest |} :: tl.
Proof.
  rewrite ends_letters_exact, PluginFacts.startsWith_prefix.
  rewrite skipn_app, skipn_all, Nat.sub_diag. cbn [skipn app].
  eexists. reflexivity.
Qed.

Lemma first_end_blank sp b c rest :
  blank sp = true -> isSpace c = false ->
  exists tl,
    ends flags_none ws0 {| before := b; after := sp ++ c :: rest |}
    = {| before := rev sp ++ b; after := c :: rest |} :: tl.
Proof.
  intros Hsp Hc. unfold ws0. cbn [ends after].
  change (fun x => step_if isSpace x) with (step_if isSpace).
  apply greedy_run_first.
  - apply Forall_forall. intros d Hd. unfold blank in Hsp.
    rewrite forallb_forall in Hsp. apply Hsp. exact Hd.
  - rewrite length_app. lia.
  - apply step_if_miss. exact Hc.
Qed.

Lemma first_end_char c b rest :
  exists tl,
    ends flags_none (RChar c) {| before := b; after := c :: rest |}
    = {| before := c :: b; after := rest |} :: tl.
Proof.
  cbn [ends]. rewrite step_if_hit.
  - eexists. reflexivity.
  - unfold char_eq. cbn [ignoreCase flags_none]. apply N.eqb_refl.
Qed.

(** The opening of the array: the quoted key, the colon and the bracket,
    with white space between them. *)
Lemma plugin_open_first sp1 sp2 b rest :
  blank sp1 = true -> blank sp2 = true ->
  exists tl,
    ends flags_none plugin_open
         {| before := b;
            after := (q "plugin" ++ sp1 ++ lit ":" ++ sp2 ++ lit "[") ++ rest |}
    = {| before := rev (q "plugin" ++ sp1 ++ lit ":" ++ sp2 ++ lit "[") ++ b;
         after := rest |} :: tl.
Proof.
  intros H1 H2. unfold plugin_open. cbn [seq].
  rewrite !word_letters.
  replace ((q "plugin" ++ sp1 ++ lit ":" ++ sp2 ++ lit "[") ++ rest)
    with (dquote :: lit "plugin" ++ dquote :: sp1 ++ lit ":" ++ sp2 ++ lit "[" ++ rest).
  2:{ unfold q, quoted. rewrite <- !app_assoc. reflexivity. }
  replace (rev (q "plugin" ++ sp1 ++ lit ":" ++ sp2 ++ lit "[") ++ b)
    with (rev (lit "[") ++ rev sp2 ++ rev (lit ":") ++ rev sp1
          ++ dquote :: rev (lit "plugin") ++ dquote :: b).
  2:{ unfold q, quoted. rewrite !rev_app_distr. rewrite <- !app_assoc. reflexivity. }
  eapply first_end_seq; [apply first_end_char|].
  eapply first_end_seq; [apply first_end_literal|].
  eapply first_end_seq; [apply first_end_char|].
  eapply first_end_seq; [apply (first_end_blank sp1 _ 58%N); [exact H1 | reflexivity]|].
  eapply first_end_seq; [apply (first_end_literal (lit ":"))|].
  eapply first_end_seq; [apply (first_end_blank sp2 _ 91%N); [exact H2 | reflexivity]|].
  apply (first_end_literal (lit "[")).
Qed.

(** A lazy loop followed by [stop], with the position the loop stopped
    at. *)
Lemma lazy_run_first_pair {B} fl p stop (k : state -> state -> B) :
  forall code b tail n y tl,
    Forall (fun c => p c = true) code ->
    (length code <= n)%nat ->
    (forall s1 c s2, code = s1 ++ c :: s2 ->
       ends fl stop {| before := rev s1 ++ b; after := c :: s2 ++ tail |} = []) ->
    ends fl stop {| before := rev code ++ b; after := tail |} = y :: tl ->
    exists tl',
      flat_map (fun y2 => map (k y2) (ends fl stop y2))
               (repeat_loop false (step_if p) n {| before := b; after := code ++ tail |})
      = k {| before := rev code ++ b; after := tail |} y :: tl'.
Proof.
  induction code as [|c code IH]; intros b tail n y tl Hall Hn Hnot Hend.
  - simpl in *. destruct n; simpl; rewrite Hend; simpl; eexists; reflexivity.
  - destruct n as [|n]; [simpl in Hn; lia|].
    inversion Hall as [|? ? Hc Hcode]; subst.
    pose proof (Hnot [] c code eq_refl) as Hhere. simpl in Hhere.
    cbn [repeat_loop app flat_map].
    rewrite Hhere. cbn [map app].
    rewrite step_if_hit by exact Hc.
    cbn [flat_map]. rewrite progress_one, app_nil_r.
    replace (rev (c :: code) ++ b) with (rev code ++ c :: b)
      by (simpl; rewrite <- app_assoc; reflexivity).
    apply (IH (c :: b) tail n y tl Hcode).
    + simpl in Hn. lia.
    + intros s1 d s2 E. specialize (Hnot (c :: s1) d s2). simpl in Hnot.
      rewrite <- app_assoc in Hnot. apply Hnot. rewrite E. reflexivity.
    + simpl in Hend. rewrite <- app_assoc in Hend. exact Hend.
Qed.

Lemma startsWith_split p1 : forall s p2,
  startsWith s (p1 ++ p2) = startsWith s p1 && startsWith (skipn (length p1) s) p2.
Proof.
  induction p1 as [|c p1 IH]; intros s p2.
  - cbn [app length skipn]. destruct s; reflexivity.
  - destruct s as [|d s]; [reflexivity|].
    cbn [app startsWith length skipn]. rewrite IH, andb_assoc. reflexivity.
Qed.

Lemma startsWith_before d p : forall s rest,
  forallb (fun c => negb (N.eqb c d)) p = true ->
  startsWith (s ++ d :: rest) p = true -> startsWith s p = true.
Proof.
  induction p as [|a p IH]; intros s rest Hp H.
  - destruct s; reflexivity.
  - cbn [forallb] in Hp. apply andb_true_iff in Hp. destruct Hp as [Ha Hp].
    destruct s as [|e s].
    + cbn [app startsWith] in H. apply andb_true_iff in H. destruct H as [H _].
      rewrite H in Ha. discriminate Ha.
    + cbn [app startsWith] in H |- *. apply andb_true_iff in H. destruct H as [H1 H2].
      rewrite H1, (IH s rest Hp H2). reflexivity.
Qed.

Lemma startsWith_includes s p : startsWith s p = true -> includes s p = true.
Proof. intros H. destruct s; cbn [includes]; rewrite H; reflexivity. Qed.

(** Where the quoted key is not, the pattern does not match. *)
Lemma plugin_open_nowhere bef s :
  startsWith s (q "plugin") = false ->
  ends flags_none plugin_open {| before := bef; after := s |} = [].
Proof.
  intros H. unfold plugin_open. cbn [seq].
  rewrite !word_letters.
  change (q "plugin") with ([dquote] ++ lit "plugin" ++ [dquote]) in H.
  rewrite !startsWith_split in H.
  destruct s as [|c s]; [reflexivity|].
  cbn [length skipn startsWith] in H.
  cbn [ends].
  destruct (char_eq flags_none dquote c) eqn:Hc;
    [rewrite step_if_hit by exact Hc | rewrite step_if_miss by exact Hc; reflexivity].
  unfold char_eq in Hc. cbn [ignoreCase flags_none] in Hc. rewrite Hc in H.
  cbn [flat_map]. rewrite app_nil_r. cbn [ends]. rewrite ends_letters_exact.
  destruct (startsWith s (lit "plugin")); [|reflexivity].
  cbn [flat_map]. rewrite app_nil_r. cbn [ends].
  unfold step_if at 1. cbn [after].
  destruct (skipn (length (lit "plugin")) s) as [|d s'] eqn:Es; [reflexivity|].
  destruct (char_eq flags_none dquote d) eqn:Hd; [|reflexivity].
  exfalso. unfold char_eq in Hd. cbn [ignoreCase flags_none] in Hd.
  destruct s as [|e s]; [discriminate Es|].
  cbn [startsWith andb] in H. rewrite Hd in H.
  destruct s'; discriminate H.
Qed.

Lemma key_not_before pre tail :
  includes pre (lit "plugin") = false ->
  forall s1 c s2, pre = s1 ++ c :: s2 ->
    startsWith (c :: s2 ++ q "plugin" ++ tail) (q "plugin") = false.
Proof.
  intros Hpre s1 c s2 E.
  destruct (startsWith (c :: s2 ++ q "plugin" ++ tail) (q "plugin")) eqn:H; [|reflexivity].
  exfalso.
  change (q "plugin") with ([dquote] ++ lit "plugin" ++ [dquote]) in H at 2.
  rewrite !startsWith_split in H. apply andb_true_iff in H. destruct H as [_ H].
  apply andb_true_iff in H. destruct H as [H _]. cbn [length skipn] in H.
  change (q "plugin" ++ tail) with (dquote :: (lit "plugin" ++ [dquote]) ++ tail) in H.
  apply startsWith_before in H; [|reflexivity].
  assert (Hinc : includes pre (lit "plugin") = true).
  { rewrite E. apply includes_app_r. apply (includes_app_r _ [c]).
    apply startsWith_includes. exact H. }
  rewrite Hinc in Hpre. discriminate Hpre.
Qed.

Lemma exec_groups_skips fl g1 g2 g3 : forall pre bef rest,
  (forall s1 c s2, pre = s1 ++ c :: s2 ->
     ends3 fl g1 g2 g3 {| before := rev s1 ++ bef; after := c :: s2 ++ rest |} = []) ->
  exec_groups fl g1 g2 g3 bef (pre ++ rest)
  = exec_groups fl g1 g2 g3 (rev pre ++ bef) rest.
Proof.
  induction pre as [|c pre IH]; intros bef rest H; [reflexivity|].
  cbn [app]. rewrite exec_groups_eq.
  pose proof (H [] c pre eq_refl) as Hhere. cbn [rev app] in Hhere. rewrite Hhere.
  rewrite IH.
  - cbn [rev]. rewrite <- app_assoc. reflexivity.
  - intros s1 d s2 E. specialize (H (c :: s1) d s2). cbn [rev] in H.
    rewrite <- app_assoc in H. apply H. rewrite E. reflexivity.
Qed.

(** The three groups at the key: the opening, the items up to the first
    closing bracket, and that bracket. *)
Lemma plugin_groups_first sp1 sp2 items b post :
  blank sp1 = true -> blank sp2 = true -> no_bracket items = true ->
  exists tl,
    ends3 flags_none plugin_open plugin_items plugin_close
          {| before := b;
             after := (q "plugin" ++ sp1 ++ lit ":" ++ sp2 ++ lit "[")
                      ++ items ++ lit "]" ++ post |}
    = ({| before := rev (q "plugin" ++ sp1 ++ lit ":" ++ sp2 ++ lit "[") ++ b;
          after := items ++ lit "]" ++ post |},
       {| before := rev items ++ rev (q "plugin" ++ sp1 ++ lit ":" ++ sp2 ++ lit "[") ++ b;
          after := lit "]" ++ post |},
       {| before := rev (lit "]") ++ rev items
                    ++ rev (q "plugin" ++ sp1 ++ lit ":" ++ sp2 ++ lit "[") ++ b;
          after := post |}) :: tl.
Proof.
  intros H1 H2 Hitems. unfold ends3.
  destruct (plugin_open_first sp1 sp2 b (items ++ lit "]" ++ post) H1 H2) as [tl1 Hopen].
  rewrite Hopen. cbn [flat_map].
  set (opening := q "plugin" ++ sp1 ++ lit ":" ++ sp2 ++ lit "[").
  set (y1 := {| before := rev opening ++ b; after := items ++ lit "]" ++ post |}).
  unfold plugin_items. cbn [ends]. unfold y1 at 2 3. cbn [after].
  change (fun x => step_if (class_has flags_none true [CChar 93%N]) x)
    with (step_if (class_has flags_none true [CChar 93%N])).
  unfold plugin_close. rewrite word_letters.
  destruct (first_end_literal (lit "]") (rev items ++ rev opening ++ b) post) as [tl3 Hclose].
  destruct (lazy_run_first_pair flags_none (class_has flags_none true [CChar 93%N])
              (letters (lit "]")) (fun y2 y3 => (y1, y2, y3))
              items (rev opening ++ b) (lit "]" ++ post)
              (length (items ++ lit "]" ++ post))
              {| before := rev (lit "]") ++ rev items ++ rev opening ++ b; after := post |}
              tl3) as [tl2 Hitems2].
  - apply Forall_forall. intros c Hc. unfold no_bracket in Hitems.
    rewrite forallb_forall in Hitems. specialize (Hitems c Hc).
    unfold class_has. cbn [existsb item_has]. unfold char_eq. cbn [ignoreCase flags_none].
    rewrite N.eqb_sym. apply negb_true_iff in Hitems. rewrite Hitems. reflexivity.
  - rewrite length_app. lia.
  - intros s1 c s2 E. rewrite ends_letters_exact.
    assert (Hc : negb (N.eqb c 93) = true).
    { unfold no_bracket in Hitems. rewrite E, forallb_app in Hitems.
      apply andb_true_iff in Hitems. destruct Hitems as [_ Hitems].
      cbn [forallb] in Hitems. apply andb_true_iff in Hitems. apply Hitems. }
    apply negb_true_iff in Hc. change (lit "]") with [93%N]. cbn [startsWith].
    rewrite N.eqb_sym, Hc. reflexivity.
  - exact Hclose.
  - rewrite Hitems2. cbn [app]. eexists. reflexivity.
Qed.

Section Facts.

Variable JSON_parse : str -> option value.

(** X26.  In a [.jsonc] host configuration whose text mentions plugins
    first at its [plugin] key, the plugin is registered by an edit of the
    array that follows the key: the text before the key and after the
    closing bracket stays, comments included, and so do the plugins
    listed, after which the new one is put on a line of its own. *)
Theorem jsonc_plugin_added_to_array configPath pre sp1 sp2 items post parsed config f :
  endsWith configPath (lit ".jsonc") = true ->
  includes pre (lit "plugin") = false ->
  blank sp1 = true -> blank sp2 = true -> no_bracket items = true ->
  let opening := q "plugin" ++ sp1 ++ lit ":" ++ sp2 ++ lit "[" in
  let content := pre ++ opening ++ items ++ lit "]" ++ post in
  f configPath = Some content ->
  includes content (lit "perplexity-opencode") = false ->
  JSON_parse (stripJsoncComments content) = Some parsed ->
  register_plugin parsed = Some config ->
  addPluginToConfig JSON_parse configPath f
  = (writeFileSync configPath (pre ++ insert_plugin opening items (lit "]") ++ post) f,
     true)
  /\ (JS.truthy (trim items) = true ->
      insert_plugin opening items (lit "]")
      = opening ++ trimEnd items ++ lit "," ++ [newline] ++ lit "    "
        ++ quoted PLUGIN_NAME ++ [newline] ++ lit "  " ++ lit "]").
Proof.
  intros Hext Hpre H1 H2 Hitems opening content Hf Hinc Hparse Hreg. split.
  - unfold addPluginToConfig. rewrite Hf, Hinc, Hparse, Hreg, Hext.
    assert (Hkey : includes content (q "plugin") = true).
    { unfold content, opening. apply includes_app_r. rewrite <- !app_assoc.
      apply startsWith_includes. apply PluginFacts.startsWith_prefix. }
    rewrite Hkey. unfold String_replace_groups.
    unfold content. rewrite exec_groups_skips.
    + rewrite exec_groups_eq.
      destruct (plugin_groups_first sp1 sp2 items (rev pre ++ []) post H1 H2 Hitems)
        as [tl Hgroups].
      fold opening in Hgroups. rewrite Hgroups. cbn [before after].
      rewrite app_nil_r, rev_involutive.
      rewrite (matched_text_ahead _ _ opening) by reflexivity.
      rewrite (matched_text_ahead _ _ items) by reflexivity.
      rewrite (matched_text_ahead _ _ (lit "]")) by reflexivity.
      reflexivity.
    + intros s1 c s2 E. unfold ends3.
      rewrite plugin_open_nowhere; [reflexivity|].
      unfold opening. rewrite <- !app_assoc.
      apply (key_not_before pre _ Hpre s1 c s2 E).
  - intros Ht. unfold insert_plugin. destruct (trim items); [discriminate Ht|].
    cbn [is_nil]. reflexivity.
Qed.

End Facts.

End PluginArrayFacts.

(** ** Letter casing *)

Module CaseFacts.
Import JS RegExp Host Effect Config Keywords Text Matching Observed.
Import RegExpFacts KeywordsFacts DetectorFacts.
Local Open Scope list_scope.

(** *** Code units *)

Lemma canon_cases c :
  (canon c = c /\ ((97 <=? c) && (c <=? 122))%N = false)
  \/ (canon c = (c - 32)%N /\ (97 <= c <= 122)%N).
Proof.
  unfold canon. destruct (N.leb_spec 97 c); destruct (N.leb_spec c 122); cbn [andb];
    auto.
Qed.

Lemma same_unit_cases d d' :
  canon d = canon d' ->
  d = d' \/ ((97 <= d <= 122)%N /\ d' = (d - 32)%N)
  \/ ((97 <= d' <= 122)%N /\ d = (d' - 32)%N).
Proof.
  intros H.
  destruct (canon_cases d) as [[E1 L1]|[E1 L1]], (canon_cases d') as [[E2 L2]|[E2 L2]];
    rewrite E1, E2 in H.
  - left. exact H.
  - right. right. split; [exact L2 | exact H].
  - right. left. split; [exact L1 | symmetry; exact H].
  - left. lia.
Qed.

Lemma isSpace_mid x : (65 <= x <= 122)%N -> isSpace x = false.
Proof.
  intros H. unfold isSpace.
  rewrite (proj2 (N.leb_gt x 13)) by lia.
  rewrite (proj2 (N.leb_gt 8192 x)) by lia.
  repeat match goal with
         | |- context [N.eqb x ?k] => rewrite (proj2 (N.eqb_neq x k)) by lia
         end.
  rewrite andb_false_r. reflexivity.
Qed.

Lemma isLineTerminator_mid x : (65 <= x <= 122)%N -> isLineTerminator x = false.
Proof.
  intros H. unfold isLineTerminator.
  repeat match goal with
         | |- context [N.eqb x ?k] => rewrite (proj2 (N.eqb_neq x k)) by lia
         end.
  reflexivity.
Qed.

Lemma isSpace_casing d d' : canon d = canon d' -> isSpace d = isSpace d'.
Proof.
  intros H. destruct (same_unit_cases d d' H) as [->|[[L ->]|[L ->]]];
    [reflexivity| |]; rewrite !isSpace_mid by lia; reflexivity.
Qed.

Lemma isLineTerminator_casing d d' :
  canon d = canon d' -> isLineTerminator d = isLineTerminator d'.
Proof.
  intros H. destruct (same_unit_cases d d' H) as [->|[[L ->]|[L ->]]];
    [reflexivity| |]; rewrite !isLineTerminator_mid by lia; reflexivity.
Qed.

Lemma not_letter_eqb c d d' :
  is_letter c = false -> canon d = canon d' -> (c =? d)%N = (c =? d')%N.
Proof.
  intros Hc H. unfold is_letter in Hc. apply orb_false_iff in Hc. destruct Hc as [Hl Hu].
  assert (Hlow : ~ (97 <= c <= 122)%N).
  { intros L. apply andb_false_iff in Hl. destruct Hl as [Hl|Hl]; apply N.leb_gt in Hl; lia. }
  assert (Hup : ~ (65 <= c <= 90)%N).
  { intros L. apply andb_false_iff in Hu. destruct Hu as [Hu|Hu]; apply N.leb_gt in Hu; lia. }
  destruct (same_unit_cases d d' H) as [->|[[L ->]|[L ->]]]; [reflexivity| |].
  - destruct (N.eqb_spec c d) as [E1|E1], (N.eqb_spec c (d - 32)) as [E2|E2];
      try reflexivity; exfalso; lia.
  - destruct (N.eqb_spec c d') as [E1|E1], (N.eqb_spec c (d' - 32)) as [E2|E2];
      try reflexivity; exfalso; lia.
Qed.

Lemma char_eq_casing fl c d d' :
  ignoreCase fl || negb (is_letter c) = true ->
  canon d = canon d' -> char_eq fl c d = char_eq fl c d'.
Proof.
  intros Hb H. unfold char_eq. destruct (ignoreCase fl).
  - rewrite H. reflexivity.
  - cbn [orb] in Hb. apply negb_true_iff in Hb. apply not_letter_eqb; assumption.
Qed.

Lemma class_has_casing fl neg items d d' :
  forallb (item_blind fl) items = true ->
  canon d = canon d' -> class_has fl neg items d = class_has fl neg items d'.
Proof.
  intros Hb H. unfold class_has. f_equal.
  induction items as [|i items IH]; [reflexivity|].
  cbn [forallb] in Hb. apply andb_true_iff in Hb. destruct Hb as [Hi Hitems].
  cbn [existsb]. rewrite (IH Hitems). f_equal.
  destruct i as [c| |]; cbn [item_has].
  - apply char_eq_casing; assumption.
  - apply isSpace_casing. exact H.
  - f_equal. apply isSpace_casing. exact H.
Qed.

(** *** Texts and positions *)

Lemma same_letters_nil_l t : same_letters [] t -> t = [].
Proof. destruct t; [reflexivity | discriminate]. Qed.

Lemma same_letters_cons_l c s t :
  same_letters (c :: s) t ->
  exists d t', t = d :: t' /\ canon c = canon d /\ same_letters s t'.
Proof.
  destruct t as [|d t']; [discriminate|]. intros H. injection H as H1 H2.
  exists d, t'. auto.
Qed.

Lemma same_letters_length s t : same_letters s t -> length s = length t.
Proof.
  intros H. rewrite <- (length_map canon s), <- (length_map canon t), H. reflexivity.
Qed.

Lemma same_letters_app s s' t t' :
  same_letters s s' -> same_letters t t' -> same_letters (s ++ t) (s' ++ t').
Proof. unfold same_letters. intros H1 H2. rewrite !map_app, H1, H2. reflexivity. Qed.

Lemma same_letters_firstn n s t :
  same_letters s t -> same_letters (firstn n s) (firstn n t).
Proof. unfold same_letters. intros H. rewrite <- !firstn_map, H. reflexivity. Qed.

Lemma word_at_same s t : same_letters s t -> word_at s = word_at t.
Proof.
  destruct s as [|c s]; intros H.
  - rewrite (same_letters_nil_l t H). reflexivity.
  - destruct (same_letters_cons_l c s t H) as (d & t' & -> & Hc & _).
    cbn [word_at]. apply isWordChar_casing. exact Hc.
Qed.

Lemma line_edge_same s t : same_letters s t -> line_edge s = line_edge t.
Proof.
  destruct s as [|c s]; intros H.
  - rewrite (same_letters_nil_l t H). reflexivity.
  - destruct (same_letters_cons_l c s t H) as (d & t' & -> & Hc & _).
    cbn [line_edge]. apply isLineTerminator_casing. exact Hc.
Qed.

Lemma is_nil_same s t : same_letters s t -> is_nil s = is_nil t.
Proof.
  destruct s as [|c s]; intros H.
  - rewrite (same_letters_nil_l t H). reflexivity.
  - destruct (same_letters_cons_l c s t H) as (d & t' & -> & _ & _). reflexivity.
Qed.

Lemma progress_same x x' y y' :
  same_state x x' -> same_state y y' -> progress x y = progress x' y'.
Proof.
  intros [_ Hx] [_ Hy]. unfold progress.
  rewrite (same_letters_length _ _ Hx), (same_letters_length _ _ Hy). reflexivity.
Qed.

(** *** Lists of end positions *)

Lemma Forall2_flat_map {A B} (R : A -> A -> Prop) (S : B -> B -> Prop) f f' :
  (forall x x', R x x' -> Forall2 S (f x) (f' x')) ->
  forall l l', Forall2 R l l' -> Forall2 S (flat_map f l) (flat_map f' l').
Proof.
  intros Hf l l' H. induction H as [|x x' l l' Hx Hl IH]; [constructor|].
  cbn [flat_map]. apply Forall2_app; [apply Hf; exact Hx | exact IH].
Qed.

Lemma Forall2_filter {A} (R : A -> A -> Prop) p p' :
  (forall x x', R x x' -> p x = p' x') ->
  forall l l', Forall2 R l l' -> Forall2 R (filter p l) (filter p' l').
Proof.
  intros Hp l l' H. induction H as [|x x' l l' Hx Hl IH]; [constructor|].
  cbn [filter]. rewrite (Hp x x' Hx). destruct (p' x'); [constructor|]; assumption.
Qed.

Lemma step_if_same p p' x x' :
  (forall d d', canon d = canon d' -> p d = p' d') ->
  same_state x x' -> Forall2 same_state (step_if p x) (step_if p' x').
Proof.
  intros Hp [Hb Ha]. unfold step_if.
  destruct (after x) as [|d rest].
  - rewrite (same_letters_nil_l _ Ha). constructor.
  - destruct (same_letters_cons_l d rest _ Ha) as (d' & rest' & -> & Hd & Hrest).
    rewrite (Hp d d' Hd). destruct (p' d'); constructor; [|constructor].
    split; cbn [before after]; [|exact Hrest].
    unfold same_letters in *. cbn [map]. rewrite Hd, Hb. reflexivity.
Qed.

Lemma guard_same b b' x x' :
  b = b' -> same_state x x' -> Forall2 same_state (guard b x) (guard b' x').
Proof.
  intros <- H. unfold guard. destruct b; constructor; [exact H | constructor].
Qed.

Lemma repeat_loop_same greedy step step' :
  (forall x x', same_state x x' -> Forall2 same_state (step x) (step' x')) ->
  forall n x x', same_state x x' ->
    Forall2 same_state (repeat_loop greedy step n x) (repeat_loop greedy step' n x').
Proof.
  intros Hstep. induction n as [|n IH]; intros x x' Hx.
  - constructor; [exact Hx | constructor].
  - cbn [repeat_loop].
    assert (Hmore : Forall2 same_state
              (flat_map (fun y => if progress x y
                                  then repeat_loop greedy step n y else []) (step x))
              (flat_map (fun y => if progress x' y
                                  then repeat_loop greedy step' n y else []) (step' x'))).
    { apply (Forall2_flat_map same_state same_state); [|apply Hstep; exact Hx].
      intros y y' Hy. rewrite (progress_same x x' y y' Hx Hy).
      destruct (progress x' y'); [apply IH; exact Hy | constructor]. }
    destruct greedy.
    + apply Forall2_app; [exact Hmore | constructor; [exact Hx | constructor]].
    + constructor; assumption.
Qed.

Lemma ends_same fl r :
  case_blind fl r = true ->
  forall x x', same_state x x' -> Forall2 same_state (ends fl r x) (ends fl r x').
Proof.
  induction r; intros Hb x x' Hx; cbn [ends]; cbn [case_blind] in Hb.
  - constructor; [exact Hx | constructor].
  - apply step_if_same; [|exact Hx]. intros d d' Hd. apply char_eq_casing; assumption.
  - apply step_if_same; [|exact Hx]. intros d d' Hd.
    rewrite (isLineTerminator_casing d d' Hd). reflexivity.
  - apply step_if_same; [|exact Hx]. intros d d' Hd. apply isSpace_casing. exact Hd.
  - apply step_if_same; [|exact Hx]. intros d d' Hd. apply class_has_casing; assumption.
  - apply guard_same; [|exact Hx]. destruct Hx as [H1 H2].
    rewrite (word_at_same _ _ H1), (word_at_same _ _ H2). reflexivity.
  - apply guard_same; [|exact Hx]. destruct Hx as [H1 H2].
    rewrite (line_edge_same _ _ H1), (is_nil_same _ _ H1). reflexivity.
  - apply guard_same; [|exact Hx]. destruct Hx as [H1 H2].
    rewrite (line_edge_same _ _ H2), (is_nil_same _ _ H2). reflexivity.
  - apply andb_true_iff in Hb. destruct Hb as [Hb1 Hb2].
    apply (Forall2_flat_map same_state same_state); [|apply IHr1; assumption].
    intros y y' Hy. apply IHr2; assumption.
  - apply andb_true_iff in Hb. destruct Hb as [Hb1 Hb2].
    apply Forall2_app; [apply IHr1 | apply IHr2]; assumption.
  - apply Forall2_app; [|constructor; [exact Hx | constructor]].
    apply (Forall2_filter same_state); [|apply IHr; assumption].
    intros y y' Hy. apply progress_same; assumption.
  - destruct Hx as [H1 H2]. rewrite (same_letters_length _ _ H2).
    apply repeat_loop_same; [|split; assumption].
    intros y y' Hy. apply IHr; assumption.
  - apply (Forall2_flat_map same_state same_state); [|apply IHr; assumption].
    intros y y' Hy. rewrite (same_letters_length _ _ (proj2 Hy)).
    apply repeat_loop_same; [|exact Hy].
    intros z z' Hz. apply IHr; assumption.
Qed.

Lemma flags_i_blind r : case_blind flags_i r = true.
Proof.
  induction r; cbn [case_blind ignoreCase flags_i orb]; try reflexivity;
    try (rewrite IHr1, IHr2; reflexivity); try assumption.
  induction items as [|i items IH]; [reflexivity|].
  cbn [forallb]. rewrite IH. destruct i; reflexivity.
Qed.

(** *** Searching and replacing *)

Ltac related_ends Hb Hx :=
  let He := fresh "He" in
  match type of Hx with
  | same_state ?x ?x' =>
      match type of Hb with
      | case_blind ?fl ?r = true =>
          pose proof (ends_same fl r Hb x x' Hx) as He;
          revert He; generalize (ends fl r x) (ends fl r x');
          intros ? ? He; destruct He
      end
  end.

Lemma exec_same fl r :
  case_blind fl r = true ->
  forall aft aft' bef bef',
    same_letters bef bef' -> same_letters aft aft' ->
    match exec fl r bef aft, exec fl r bef' aft' with
    | Some (x, y), Some (x', y') => same_state x x' /\ same_state y y'
    | None, None => True
    | _, _ => False
    end.
Proof.
  intros Hb. induction aft as [|c aft IH]; intros aft' bef bef' Hbef Haft.
  - rewrite (same_letters_nil_l aft' Haft). rewrite !exec_eq.
    assert (Hx : same_state {| before := bef; after := [] |}
                            {| before := bef'; after := [] |})
      by (split; [exact Hbef | reflexivity]).
    related_ends Hb Hx; [exact I | split; assumption].
  - destruct (same_letters_cons_l c aft aft' Haft) as (c' & aft2 & -> & Hc & Haft2).
    rewrite (exec_eq fl r bef), (exec_eq fl r bef').
    assert (Hx : same_state {| before := bef; after := c :: aft |}
                            {| before := bef'; after := c' :: aft2 |}).
    { split; [exact Hbef | exact Haft]. }
    related_ends Hb Hx.
    + apply IH; [|exact Haft2]. unfold same_letters in *. cbn [map].
      rewrite Hc, Hbef. reflexivity.
    + split; assumption.
Qed.

Lemma matched_text_same x x' y y' :
  same_state x x' -> same_state y y' ->
  same_letters (matched_text x y) (matched_text x' y').
Proof.
  intros [_ Hx] [_ Hy]. unfold matched_text.
  rewrite (same_letters_length _ _ Hx), (same_letters_length _ _ Hy).
  apply same_letters_firstn. exact Hx.
Qed.

Lemma String_match_same fl r s t :
  case_blind fl r = true -> same_letters s t ->
  same_match (String_match fl r s) (String_match fl r t).
Proof.
  intros Hb H. unfold String_match.
  pose proof (exec_same fl r Hb s t [] [] eq_refl H) as He.
  destruct (exec fl r [] s) as [[x y]|], (exec fl r [] t) as [[x' y']|];
    try contradiction; [|exact I].
  destruct He as [Hx Hy]. apply matched_text_same; assumption.
Qed.

Lemma replace_loop_same fl r repl :
  case_blind fl r = true ->
  forall aft aft' skip bef bef',
    same_letters bef bef' -> same_letters aft aft' ->
    same_letters (replace_loop fl r repl skip bef aft)
                 (replace_loop fl r repl skip bef' aft').
Proof.
  intros Hb. induction aft as [|c aft IH]; intros aft' skip bef bef' Hbef Haft.
  - rewrite (same_letters_nil_l aft' Haft). destruct skip; cbn [replace_loop].
    + assert (Hx : same_state {| before := bef; after := [] |}
                              {| before := bef'; after := [] |})
        by (split; [exact Hbef | reflexivity]).
      related_ends Hb Hx; reflexivity.
    + reflexivity.
  - destruct (same_letters_cons_l c aft aft' Haft) as (c' & aft2 & -> & Hc & Haft2).
    assert (Hbef2 : same_letters (c :: bef) (c' :: bef')).
    { unfold same_letters in *. cbn [map]. rewrite Hc, Hbef. reflexivity. }
    assert (Hcons : forall u u', same_letters u u' -> same_letters (c :: u) (c' :: u')).
    { intros u u' Hu. unfold same_letters in *. cbn [map]. rewrite Hc, Hu. reflexivity. }
    destruct skip as [|k]; cbn [replace_loop].
    + assert (Hx : same_state {| before := bef; after := c :: aft |}
                              {| before := bef'; after := c' :: aft2 |}).
      { split; [exact Hbef | exact Haft]. }
      related_ends Hb Hx.
      * apply Hcons. apply IH; assumption.
      * apply same_letters_app; [reflexivity|].
        match goal with
        | Hy : same_state ?y ?y' |- _ =>
            rewrite (same_letters_length _ _ Haft),
                    (same_letters_length _ _ (proj2 Hy))
        end.
        match goal with
        | |- context [(?a - ?b)%nat] => destruct (a - b)%nat
        end.
        -- apply Hcons. apply IH; assumption.
        -- apply IH; assumption.
    + apply IH; assumption.
Qed.

Lemma removeCodeBlocks_same s t :
  same_letters s t -> same_letters (removeCodeBlocks s) (removeCodeBlocks t).
Proof.
  intros H. unfold removeCodeBlocks, String_replace_all.
  apply replace_loop_same; [reflexivity | reflexivity|].
  apply replace_loop_same; [reflexivity | reflexivity | exact H].
Qed.

Lemma first_match_literal_same sources s t :
  same_letters s t ->
  same_match (first_match (map literal_i sources) s)
             (first_match (map literal_i sources) t).
Proof.
  intros H. induction sources as [|r sources IH]; [exact I|].
  cbn [map first_match]. unfold literal_i at 1 3.
  pose proof (String_match_same flags_i r s t (flags_i_blind r) H) as Hr.
  destruct (String_match flags_i r s), (String_match flags_i r t);
    try contradiction; [exact Hr | exact IH].
Qed.

Section Facts.

Variable RegExp_new : str -> option RegExpObject.

Lemma first_match_custom_same l s t :
  engine_caseless RegExp_new -> same_letters s t ->
  same_match (first_match (valid_patterns RegExp_new l) s)
             (first_match (valid_patterns RegExp_new l) t).
Proof.
  intros Hengine H. induction l as [|p l IH]; [exact I|].
  unfold valid_patterns. cbn [flat_map]. fold (valid_patterns RegExp_new l).
  destruct (RegExp_new p) as [r|] eqn:E; [|exact IH].
  cbn [app first_match]. pose proof (Hengine p r s t E H) as Hr.
  destruct (r s), (r t); try contradiction; [exact Hr | exact IH].
Qed.

(** X5.  Detection does not depend on the casing of the basic Latin
    letters of the message: two messages that differ in casing only get
    the same answer, no match for both or a match of the same category at
    the same place, the matched texts differing in casing only. *)
Theorem detection_ignores_letter_case config message message' w w' :
  engine_caseless RegExp_new ->
  same_letters message message' ->
  same_answer (fst (detectKeywords RegExp_new config message w))
              (fst (detectKeywords RegExp_new config message' w')).
Proof.
  intros Hengine H. unfold detectKeywords.
  destruct (negb (detection_enabled config)); [exact I|].
  unfold compileCustomPatterns.
  destruct (nullish (opt_field (keywords config) customPatterns) (PatArray [])) as [l|];
    [|reflexivity].
  unfold bind. rewrite !compile_each_run.
  pose proof (removeCodeBlocks_same message message' H) as Hclean.
  pose proof (first_match_literal_same RESEARCH_SOURCES _ _ Hclean) as H1.
  pose proof (first_match_custom_same l _ _ Hengine Hclean) as H2.
  pose proof (first_match_literal_same SEARCH_SOURCES _ _ Hclean) as H3.
  fold RESEARCH_PATTERNS in H1. fold SEARCH_PATTERNS in H3.
  destruct (first_match RESEARCH_PATTERNS (removeCodeBlocks message)),
           (first_match RESEARCH_PATTERNS (removeCodeBlocks message'));
    try contradiction; [split; [reflexivity | exact H1]|].
  destruct (first_match (valid_patterns RegExp_new l) (removeCodeBlocks message)),
           (first_match (valid_patterns RegExp_new l) (removeCodeBlocks message'));
    try contradiction; [split; [reflexivity | exact H2]|].
  destruct (first_match SEARCH_PATTERNS (removeCodeBlocks message)),
           (first_match SEARCH_PATTERNS (removeCodeBlocks message'));
    try contradiction; [split; [reflexivity | exact H3] | exact I].
Qed.

End Facts.

End CaseFacts.

(** ** The hook on a message that carries a nudge *)

Module RerunFacts.
Import JS RegExp Host Effect Config Keywords Markdown Plugin Text Observed.
Import RegExpFacts KeywordsFacts MarkdownFacts DetectorFacts PluginFacts AnswerFacts.
Local Open Scope string_scope.
Local Open Scope list_scope.

Lemma join_last sep : forall l x,
  join sep (l ++ [x]) = match l with [] => x | _ => join sep l ++ sep ++ x end.
Proof.
  induction l as [|a l IH]; intros x; [reflexivity|].
  destruct l as [|b l]; [reflexivity|].
  change (join sep ((a :: b :: l) ++ [x])) with (a ++ sep ++ join sep ((b :: l) ++ [x])).
  rewrite IH. change (join sep (a :: b :: l)) with (a ++ sep ++ join sep (b :: l)).
  rewrite <- !app_assoc. reflexivity.
Qed.

Lemma trimStart_keeps c : forall s,
  In c s -> isSpace c = false -> In c (trimStart s).
Proof.
  induction s as [|d s IH]; intros Hin Hc; [destruct Hin|].
  cbn [trimStart]. destruct (isSpace d) eqn:Hd; [|exact Hin].
  destruct Hin as [->|Hin]; [congruence|]. apply IH; assumption.
Qed.

Lemma trim_keeps c s : In c s -> isSpace c = false -> truthy (trim s) = true.
Proof.
  intros Hin Hc. unfold trim, trimEnd.
  apply (trimStart_keeps c) in Hin; [|exact Hc].
  apply in_rev in Hin. apply (trimStart_keeps c) in Hin; [|exact Hc].
  apply in_rev in Hin. destruct (rev (trimStart (rev (trimStart s)))); [destruct Hin|].
  reflexivity.
Qed.

(** The two nudge texts around the phrases that trigger the detector. *)
Lemma search_nudge_split :
  getSearchNudge
  = lit "<perplexity-hint>
The user's message suggests they want to "
    ++ lit "search the web for information.

You have access to the Perplexity MCP server with the following tool:
- **perplexity_search_web**: Search the web using Perplexity AI
  - Parameters:
    - query (required): The search query
    - recency (optional): Filter by " ++ quoted "day" ++ lit ", " ++ quoted "week"
  ++ lit ", " ++ quoted "month" ++ lit ", or " ++ quoted "year" ++ lit "

Use this tool to find current, accurate information from the web. Perplexity provides AI-powered search with citations.

Example usage:
- For recent news: use recency=" ++ quoted "day" ++ lit " or recency=" ++ quoted "week"
  ++ lit "
- For general information: use recency=" ++ quoted "month" ++ lit " (default)
- For historical context: use recency=" ++ quoted "year" ++ lit "
</perplexity-hint>".
Proof. vm_compute. reflexivity. Qed.

Lemma research_nudge_split :
  getResearchNudge
  = lit "<perplexity-hint>
The user wants "
    ++ lit "comprehensive research on a topic.

You have access to the Perplexity MCP server with the **perplexity_search_web** tool.

For in-depth research:
1. Break the topic into multiple focused queries
2. Use different recency filters to get both recent and historical context
3. Cross-reference information from multiple searches
4. Synthesize findings into a comprehensive response with citations

The Perplexity API returns results with citations - always include these in your response to support your findings.
</perplexity-hint>".
Proof. vm_compute. reflexivity. Qed.

(** Whatever precedes it, the search nudge holds a search trigger and the
    research nudge a research trigger. *)
Lemma search_nudge_triggers pre :
  first_match SEARCH_PATTERNS (pre ++ getSearchNudge) <> None.
Proof.
  apply (first_match_exists SEARCH_PATTERNS (nth 0 SEARCH_PATTERNS (fun _ => None)));
    [left; reflexivity|].
  rewrite search_nudge_split, app_assoc.
  match goal with
  | |- _ ((pre ++ ?h) ++ ?t) <> None => set (head := h); set (tail := t)
  end.
  assert (Hin : exists y,
             In y (ends flags_i (nth 0 SEARCH_SOURCES REmpty)
                        {| before := rev (pre ++ head); after := tail |})).
  { rewrite rev_app_distr. subst head tail. vm_compute. eexists. left. reflexivity. }
  destruct Hin as [y Hy].
  exact (String_match_finds flags_i _ (pre ++ head) tail y Hy).
Qed.

Lemma research_nudge_triggers pre :
  first_match RESEARCH_PATTERNS (pre ++ getResearchNudge) <> None.
Proof.
  apply (first_match_exists RESEARCH_PATTERNS (nth 1 RESEARCH_PATTERNS (fun _ => None)));
    [right; left; reflexivity|].
  rewrite research_nudge_split, app_assoc.
  match goal with
  | |- _ ((pre ++ ?h) ++ ?t) <> None => set (head := h); set (tail := t)
  end.
  assert (Hin : exists y,
             In y (ends flags_i (nth 1 RESEARCH_SOURCES REmpty)
                        {| before := rev (pre ++ head); after := tail |})).
  { rewrite rev_app_distr. subst head tail. vm_compute. eexists. left. reflexivity. }
  destruct Hin as [y Hy].
  exact (String_match_finds flags_i _ (pre ++ head) tail y Hy).
Qed.

Lemma nudges_have_no_backtick :
  no_backtick getSearchNudge = true /\ no_backtick getResearchNudge = true.
Proof. split; vm_compute; reflexivity. Qed.

Section Facts.

Variable RegExp_new : str -> option RegExpObject.
Variable config : PerplexityConfig.
Variable env : Env.

(** X9.  The hook does not tell a nudge from what the user wrote: the
    nudge texts hold trigger phrases themselves, so a message whose last
    segment is a nudge of an earlier call gets one more nudge from every
    further call, whatever the user's text is. *)
Theorem hook_scans_its_own_nudge l clock0 input0 mid0 m0 clock input mid before_nudge w :
  isConfigured config = true ->
  detection_enabled config = true ->
  declared_patterns config = PatArray l ->
  parts w = before_nudge ++ [nudge_part clock0 input0 mid0 m0] ->
  no_backtick (join [newline] (map part_text (filter is_text before_nudge))) = true ->
  exists m,
    parts (snd (chat_message RegExp_new config env clock input mid w))
    = parts w ++ [nudge_part clock input mid m].
Proof.
  intros Hconf Hen Hpat Hparts Hclean.
  set (nudgeText := match type m0 with
                    | research => getResearchNudge
                    | search => getSearchNudge
                    end).
  set (texts := map part_text (filter is_text before_nudge)) in *.
  assert (Htext : map part_text (filter is_text (parts w)) = texts ++ [nudgeText]).
  { rewrite Hparts, filter_app, map_app. reflexivity. }
  assert (Hmsg : exists pre,
             join [newline] (map part_text (filter is_text (parts w))) = pre ++ nudgeText
             /\ no_backtick pre = true).
  { rewrite Htext, join_last. destruct texts as [|a texts'] eqn:E.
    - exists []. split; reflexivity.
    - exists (join [newline] (a :: texts') ++ [newline]). split.
      + rewrite <- app_assoc. reflexivity.
      + unfold no_backtick in *. rewrite forallb_app, Hclean. reflexivity. }
  destruct Hmsg as (pre & Hmsg & Hpre).
  assert (Hnb : no_backtick nudgeText = true).
  { unfold nudgeText. destruct (type m0); apply nudges_have_no_backtick. }
  assert (Hcleaned : removeCodeBlocks (pre ++ nudgeText) = pre ++ nudgeText).
  { apply removeCodeBlocks_plain. unfold no_backtick in *.
    rewrite forallb_app, Hpre, Hnb. reflexivity. }
  assert (Hfound : exists m,
             scan_patterns (valid_patterns RegExp_new l) (pre ++ nudgeText) = Some m).
  { unfold scan_patterns.
    destruct (first_match RESEARCH_PATTERNS (pre ++ nudgeText)) as [t|] eqn:E1;
      [eexists; reflexivity|].
    destruct (first_match (valid_patterns RegExp_new l) (pre ++ nudgeText)) as [t|];
      [eexists; reflexivity|].
    destruct (first_match SEARCH_PATTERNS (pre ++ nudgeText)) as [t|] eqn:E3;
      [eexists; reflexivity|].
    exfalso. unfold nudgeText in E1, E3. destruct (type m0).
    - exact (search_nudge_triggers pre E3).
    - exact (research_nudge_triggers pre E1). }
  destruct Hfound as [m Hm]. exists m.
  pose proof (proj1 (process_message_parts RegExp_new config env clock input mid w)) as Hp.
  cbv zeta in Hp.
  assert (Hne : Nat.eqb (length (filter is_text (parts w))) 0 = false).
  { rewrite Hparts, filter_app, length_app. cbn [filter nudge_part is_text length].
    apply Nat.eqb_neq. lia. }
  assert (Htrim : truthy (trim (join [newline] (map part_text (filter is_text (parts w)))))
                  = true).
  { rewrite Hmsg. apply (trim_keeps 60%N).
    - apply in_or_app. right. unfold nudgeText. destruct (type m0); left; reflexivity.
    - reflexivity. }
  rewrite Hne, Htrim in Hp. cbn [negb andb] in Hp.
  rewrite (detected_spec RegExp_new config _ w), Hmsg in Hp.
  rewrite (detectKeywords_run RegExp_new config l _ w Hen Hpat) in Hp.
  cbn [fst] in Hp. rewrite Hcleaned, Hm in Hp.
  unfold chat_message, try_catch. rewrite Hconf. cbn [negb].
  destruct (process_message RegExp_new config env clock input mid w) as [[[]|e] w1] eqn:E.
  - cbn [snd] in Hp |- *. exact Hp.
  - pose proof (proj2 (process_message_parts RegExp_new config env clock input mid w) e) as Ht.
    rewrite E in Ht. cbn [fst snd] in Ht. specialize (Ht eq_refl).
    cbn [snd] in Hp. rewrite Ht in Hp.
    exfalso. apply (f_equal (@length Part)) in Hp. rewrite length_app in Hp.
    cbn [length] in Hp. lia.
Qed.

End Facts.

End RerunFacts.

(** ** The further properties on concrete inputs *)

Module Exercises.
Import JS RegExp JSON Host Effect Config Keywords Markdown Plugin Installer Samples.
Import Text Matching Observed ConfigFile Documents Fixtures.
Import EditFacts CleaningFacts CommentFacts AnswerFacts HookFacts SettingsFacts.
Import StepFacts HostConfigFacts PluginArrayFacts CliFacts CaseFacts RerunFacts.
Local Open Scope string_scope.
Local Open Scope list_scope.

Lemma literal_engine_sound : engine_sound literal_engine.
Proof.
  intros pattern r s m Hr Hm. unfold literal_engine in Hr.
  destruct (forallb _ pattern); [|discriminate]. injection Hr as <-.
  exact (String_match_occurs _ _ _ _ Hm).
Qed.

Lemma literal_engine_caseless : engine_caseless literal_engine.
Proof.
  intros pattern r s t Hr H. unfold literal_engine in Hr.
  destruct (forallb _ pattern); [|discriminate]. injection Hr as <-.
  apply String_match_same; [apply flags_i_blind | exact H].
Qed.

Lemma removeCodeBlocks_leaves_plain_text_witness :
  removeCodeBlocks (lit "run " ++ [backtick] ++ lit "look up" ++ [backtick] ++ lit " now")
  = lit "run  now".
Proof.
  apply (proj1 (removeCodeBlocks_leaves_plain_text
                  [Plain (lit "run "); InlineCode (lit "look up"); Plain (lit " now")]
                  eq_refl)).
Defined.

Lemma removeCodeBlocks_keeps_unclosed_witness :
  removeCodeBlocks (lit "a " ++ repeat backtick 3 ++ lit " look up")
  = lit "a " ++ repeat backtick 3 ++ lit " look up".
Proof.
  apply (removeCodeBlocks_keeps_unclosed (lit "a ") (lit " look up") 3 eq_refl eq_refl).
  repeat constructor.
Defined.

Lemma comment_free_text_unchanged_witness :
  stripJsoncComments host_json = host_json /\ stripJsonComments host_json = host_json.
Proof. apply (comment_free_text_unchanged host_json); reflexivity. Defined.

(** The address of a string value is cut at its two slashes. *)
Lemma line_comment_stripped_witness :
  let before_mark := lit "{ " ++ q "url" ++ lit ": " ++ [dquote] ++ lit "https:" in
  let cut := lit "example.com/a" ++ [dquote] ++ lit "," in
  let following := [newline] ++ lit "}" in
  stripJsoncComments (before_mark ++ [slash; slash] ++ cut ++ following)
  = before_mark ++ following
  /\ stripJsonComments (before_mark ++ [slash; slash] ++ cut ++ following)
     = before_mark ++ following.
Proof.
  cbv zeta.
  apply (line_comment_stripped
           (lit "{ " ++ q "url" ++ lit ": " ++ [dquote] ++ lit "https:")
           (lit "example.com/a" ++ [dquote] ++ lit ",")
           ([newline] ++ lit "}")); reflexivity.
Defined.

Lemma block_comment_stripped_witness :
  let body := lit " two
 lines " in
  stripJsoncComments (lit "{ " ++ [slash; star] ++ body ++ [star; slash] ++ lit " }")
  = lit "{  }"
  /\ stripJsonComments (lit "{ " ++ [slash; star] ++ body ++ [star; slash] ++ lit " }")
     = lit "{  }".
Proof.
  cbv zeta.
  apply (block_comment_stripped (lit "{ ") (lit " two
 lines ") (lit " }")); reflexivity.
Defined.

Lemma matched_text_comes_from_message_witness :
  let message := lit "search " ++ [backtick] ++ lit "x" ++ [backtick] ++ lit " the web" in
  let m := {| type := search; matchedText := lit "search  the web" |} in
  fst (detectKeywords literal_engine plain_config message empty_world) = Normal (Some m)
  /\ occurs_in (matchedText m) (removeCodeBlocks message)
  /\ subsequence (matchedText m) message.
Proof.
  cbv zeta.
  assert (H : fst (detectKeywords literal_engine plain_config
                     (lit "search " ++ [backtick] ++ lit "x" ++ [backtick] ++ lit " the web")
                     empty_world)
              = Normal (Some {| type := search; matchedText := lit "search  the web" |})).
  { vm_compute. reflexivity. }
  split; [exact H|].
  exact (matched_text_comes_from_message literal_engine plain_config _ empty_world _
           literal_engine_sound H).
Defined.

Lemma hook_inert_without_key_witness :
  chat_message literal_engine (loadConfig file_without_key debug_env) debug_env
               sample_clock sample_input (lit "msg_1") (world_with "search the web")
  = (Normal tt, world_with "search the web").
Proof.
  apply (proj2 (hook_inert_without_key literal_engine file_without_key debug_env
                  sample_clock sample_input (lit "msg_1") (world_with "search the web")
                  (or_introl eq_refl) (or_introl eq_refl))).
Defined.

Lemma hook_console_without_debug_witness :
  console (snd (chat_message literal_engine (custom_config ["("; "rust"]) no_env
                             sample_clock sample_input (lit "msg_1")
                             (world_with "hello there")))
  = [WarnInvalidPattern (lit "(")].
Proof.
  exact (hook_console_without_debug literal_engine (custom_config ["("; "rust"]) no_env
           [lit "("; lit "rust"] sample_clock sample_input (lit "msg_1")
           (world_with "hello there") eq_refl eq_refl).
Defined.

Lemma ill_typed_patterns_silence_hook_witness :
  chat_message literal_engine ill_typed_config no_env sample_clock sample_input
               (lit "msg_1") (world_with "search the web")
  = (Normal tt, world_with "search the web").
Proof.
  apply (proj2 (proj2 (ill_typed_patterns_silence_hook literal_engine ill_typed_config
                         no_env sample_clock sample_input (lit "msg_1")
                         (world_with "search the web") eq_refl))).
  reflexivity.
Defined.

Lemma settings_json_shadows_jsonc_witness :
  loadConfigFile home settings_parse shadowed_fs
  = (empty_object, Some (path_join home "perplexity.json"))
  /\ loadConfigFile home settings_parse jsonc_only_fs = (file_with_key, None).
Proof.
  destruct (settings_json_shadows_jsonc home settings_parse shadowed_fs) as (Hjson & _ & _).
  destruct (settings_json_shadows_jsonc home settings_parse jsonc_only_fs)
    as (_ & Hjsonc & _).
  split.
  - rewrite (Hjson settings_broken); vm_compute; reflexivity.
  - rewrite (Hjsonc settings_jsonc); vm_compute; reflexivity.
Defined.

Lemma detection_on_by_default_witness :
  fst (detectKeywords literal_engine (loadConfig file_with_key no_env)
                      (lit "look up rust") empty_world)
  = Normal (Some {| type := search; matchedText := lit "look up" |}).
Proof.
  rewrite (proj2 (detection_on_by_default literal_engine file_with_key no_env
                    (lit "look up rust") empty_world)
                 ltac:(discriminate) [] eq_refl).
  vm_compute. reflexivity.
Defined.


Lemma install_touches_four_files_witness :
  fst (install home sample_parse key_options None no_answers
               (files [(lit "/home/u/notes.txt", lit "mine")]))
      (lit "/home/u/notes.txt")
  = Some (lit "mine").
Proof.
  rewrite (install_touches_four_files home sample_parse key_options None no_answers
             (files [(lit "/home/u/notes.txt", lit "mine")]) (lit "/home/u/notes.txt"));
    [reflexivity | | | |]; vm_compute; discriminate.
Defined.

Lemma declined_install_still_writes_settings_witness :
  install home sample_parse asking_options None no_answers configured_fs
  = (writeFileSync (PERPLEXITY_CONFIG_PATH home) (settings_document (lit "pplx-new"))
                   configured_fs,
     0%Z).
Proof.
  exact (declined_install_still_writes_settings home sample_parse asking_options None
           no_answers configured_fs eq_refl eq_refl eq_refl eq_refl).
Defined.

Lemma install_without_key_witness :
  let once := fst (install home sample_parse no_key_options None no_answers
                           (fun _ => None)) in
  once (PERPLEXITY_CONFIG_PATH home) = None
  /\ once (path_join home "opencode.json") = None
  /\ once (AGENTS_MD_PATH home) = Some (trim PERPLEXITY_AGENTS_INSTRUCTIONS ++ [newline]).
Proof.
  cbv zeta.
  destruct (install_without_key home sample_parse no_key_options None no_answers
              (fun _ => None) eq_refl) as [Hsettings Hrest].
  split; [exact Hsettings|]. split.
  - apply (Hrest eq_refl). vm_compute. discriminate.
  - vm_compute. reflexivity.
Defined.

Lemma fresh_install_is_stable_witness :
  let parse := parse_only (stringify (new_host_config (lit "pplx-new")))
                          (new_host_config (lit "pplx-new")) in
  let once := fst (install home parse key_options None no_answers (fun _ => None)) in
  once (path_join home "opencode.json")
  = Some (stringify (new_host_config (lit "pplx-new")))
  /\ (forall path,
        fst (install home parse key_options None no_answers once) path = once path).
Proof.
  cbv zeta.
  destruct (fresh_install_is_stable home
              (parse_only (stringify (new_host_config (lit "pplx-new")))
                          (new_host_config (lit "pplx-new")))
              key_options None no_answers (fun _ => None)
              eq_refl eq_refl eq_refl eq_refl)
    as (_ & Hhost & _ & _ & Htwice).
  - vm_compute. reflexivity.
  - split; [exact Hhost | exact Htwice].
Defined.

Lemma json_plugin_appended_witness :
  let path := path_join home "opencode.json" in
  exists fields',
    addPluginToConfig (parse_only host_json (JObject host_fields)) path
                      (files [(path, host_json)])
    = (writeFileSync path (stringify (JObject fields')) (files [(path, host_json)]), true)
    /\ lookup (lit "plugin") fields'
       = Some (JArray [JString (lit "other-plugin"); JString PLUGIN_NAME])
    /\ lookup (lit "theme") fields' = Some (JString (lit "dark")).
Proof.
  cbv zeta.
  destruct (json_plugin_appended (parse_only host_json (JObject host_fields))
              (path_join home "opencode.json") host_json host_fields
              [JString (lit "other-plugin")]
              (files [(path_join home "opencode.json", host_json)])
              ltac:(vm_compute; reflexivity) ltac:(vm_compute; reflexivity)
              ltac:(vm_compute; reflexivity) ltac:(vm_compute; reflexivity)
              (or_introl eq_refl))
    as (fields' & Hrun & Hplugin & Hother).
  exists fields'. split; [exact Hrun|]. split; [exact Hplugin|].
    rewrite Hother; [reflexivity | vm_compute; discriminate].
Defined.

Lemma plugin_value_must_be_array_witness :
  let path := path_join home "opencode.json" in
  let f := files [(path, host_plugin_string)] in
  addPluginToConfig
    (parse_only host_plugin_string
                (JObject [(lit "plugin", JString (lit "other-plugin"))]))
    path f
  = (f, false).
Proof.
  cbv zeta.
  apply (plugin_value_must_be_array _ (path_join home "opencode.json") host_plugin_string
           [(lit "plugin", JString (lit "other-plugin"))] (JString (lit "other-plugin")));
    try (vm_compute; reflexivity).
  intros items. discriminate.
Defined.

Lemma mcp_server_added_witness :
  let path := path_join home "opencode.json" in
  exists fields' servers',
    addMcpServerToConfig (parse_only host_json (JObject host_fields)) path
                         (lit "pplx-new") (files [(path, host_json)])
    = (writeFileSync path (stringify (JObject fields')) (files [(path, host_json)]), true)
    /\ lookup (lit "mcp") fields' = Some (JObject servers')
    /\ lookup (lit "perplexity") servers' = Some (mcp_entry (lit "pplx-new"))
    /\ lookup (lit "theme") fields' = Some (JString (lit "dark")).
Proof.
  cbv zeta.
  destruct (mcp_server_added (parse_only host_json (JObject host_fields))
              (path_join home "opencode.json") host_json host_fields []
              (lit "pplx-new") (files [(path_join home "opencode.json", host_json)])
              ltac:(vm_compute; reflexivity) ltac:(vm_compute; reflexivity)
              (or_intror (conj eq_refl eq_refl)) eq_refl)
    as (fields' & servers' & Hrun & Hmcp & Hentry & _ & Hother & _).
  exists fields', servers'. split; [exact Hrun|]. split; [exact Hmcp|].
    split; [exact Hentry|]. rewrite Hother; [reflexivity | vm_compute; discriminate].
Defined.

Lemma jsonc_plugin_inserted_after_brace_witness :
  let path := path_join home "opencode.jsonc" in
  let parse := parse_only (stripJsoncComments host_jsonc) (JObject theme_fields) in
  addPluginToConfig parse path (files [(path, host_jsonc)])
  = (writeFileSync path (lit "  " ++ lit "{" ++ plugin_line ++ host_jsonc_rest)
                   (files [(path, host_jsonc)]),
     true).
Proof.
  cbv zeta.
  apply (jsonc_plugin_inserted_after_brace
           (parse_only (stripJsoncComments host_jsonc) (JObject theme_fields))
           (path_join home "opencode.jsonc") (lit "  ") host_jsonc_rest
           (JObject theme_fields)
           (JObject (assign (lit "plugin") (JArray [JString PLUGIN_NAME]) theme_fields)));
    vm_compute; reflexivity.
Defined.

Lemma jsonc_without_leading_brace_unchanged_witness :
  let path := path_join home "opencode.jsonc" in
  let parse := parse_only (stripJsoncComments host_jsonc_commented) (JObject theme_fields) in
  let run := addPluginToConfig parse path (files [(path, host_jsonc_commented)]) in
  snd run = true /\ fst run path = Some host_jsonc_commented.
Proof.
  cbv zeta.
  destruct (jsonc_without_leading_brace_unchanged
              (parse_only (stripJsoncComments host_jsonc_commented) (JObject theme_fields))
              (path_join home "opencode.jsonc") host_jsonc_commented
              (JObject theme_fields)
              (JObject (assign (lit "plugin") (JArray [JString PLUGIN_NAME]) theme_fields))
              (files [(path_join home "opencode.jsonc", host_jsonc_commented)])
              ltac:(vm_compute; reflexivity) ltac:(vm_compute; reflexivity)
              ltac:(vm_compute; reflexivity) ltac:(vm_compute; reflexivity)
              ltac:(vm_compute; reflexivity) ltac:(vm_compute; reflexivity)
              ltac:(vm_compute; reflexivity))
    as [Hrun Hsame].
  split.
  - rewrite Hrun. reflexivity.
  - rewrite Hsame. vm_compute. reflexivity.
Defined.

Lemma jsonc_plugin_added_to_array_witness :
  let path := path_join home "opencode.jsonc" in
  let parse := parse_only (stripJsoncComments host_array) (JObject host_array_fields) in
  addPluginToConfig parse path (files [(path, host_array)])
  = (writeFileSync path
       (host_array_before ++ host_array_opening ++ q "other-plugin" ++ lit ","
        ++ [newline] ++ lit "    " ++ quoted PLUGIN_NAME ++ [newline] ++ lit "  "
        ++ lit "]" ++ host_array_after)
       (files [(path, host_array)]),
     true).
Proof.
  cbv zeta.
  destruct (jsonc_plugin_added_to_array
              (parse_only (stripJsoncComments host_array) (JObject host_array_fields))
              (path_join home "opencode.jsonc") host_array_before [] (lit " ")
              (q "other-plugin") host_array_after (JObject host_array_fields)
              (JObject (assign (lit "plugin")
                               (JArray [JString (lit "other-plugin"); JString PLUGIN_NAME])
                               host_array_fields))
              (files [(path_join home "opencode.jsonc", host_array)])
              ltac:(vm_compute; reflexivity) ltac:(vm_compute; reflexivity)
              eq_refl eq_refl ltac:(vm_compute; reflexivity)
              ltac:(vm_compute; reflexivity) ltac:(vm_compute; reflexivity)
              ltac:(vm_compute; reflexivity) ltac:(vm_compute; reflexivity))
    as [Hrun Hshape].
  rewrite Hrun. vm_compute. reflexivity.
Defined.

Lemma detection_ignores_letter_case_witness :
  same_answer
    (fst (detectKeywords literal_engine (custom_config ["rust"])
            (lit "Look Up RUST") empty_world))
    (fst (detectKeywords literal_engine (custom_config ["rust"])
            (lit "look up rust") empty_world)).
Proof.
  apply (detection_ignores_letter_case literal_engine (custom_config ["rust"])
           (lit "Look Up RUST") (lit "look up rust") empty_world empty_world
           literal_engine_caseless).
  reflexivity.
Defined.

Lemma hook_scans_its_own_nudge_witness :
  exists m,
    parts (snd (chat_message literal_engine plain_config no_env later_clock sample_input
                             (lit "msg_1") nudged_world))
    = parts nudged_world ++ [nudge_part later_clock sample_input (lit "msg_1") m].
Proof.
  apply (hook_scans_its_own_nudge literal_engine plain_config no_env []
           sample_clock sample_input (lit "msg_1")
           {| type := search; matchedText := lit "look up" |}
           later_clock sample_input (lit "msg_1") [user_part "look up rust"]
           nudged_world); reflexivity.
Defined.

(** A configuration directory that cannot be made: the promise of
    [install] is rejected at its first step, and nothing has been written. *)
Example install_rejected_when_mkdir_throws :
  let faults := {| Cli.mkdir_throws := true; Cli.read_throws := fun _ => false;
                   Cli.write_throws := fun _ => false |} in
  let f := files [(path_join home "opencode.json", host_json)] in
  Cli.main home (parse_only host_json (JObject host_fields)) faults
           [lit "install"; lit "--no-tui"; lit "--api-key"; lit "pplx-new"]
           None no_answers f
  = (f, Cli.uncaught).
Proof. reflexivity. Qed.

(** A host configuration that cannot be written: the two steps fail inside
    their [try], the run goes on to AGENTS.md and ends with status 0. *)
Example install_completes_when_host_config_is_read_only :
  let path := path_join home "opencode.json" in
  let faults := {| Cli.mkdir_throws := false; Cli.read_throws := fun _ => false;
                   Cli.write_throws := str_eqb path |} in
  let f := files [(path, host_json)] in
  let run := Cli.main home (parse_only host_json (JObject host_fields)) faults
                      [lit "install"; lit "--no-tui"; lit "--api-key"; lit "pplx-new"]
                      None no_answers f in
  snd run = Cli.exit 0
  /\ fst run path = Some host_json
  /\ fst run (PERPLEXITY_CONFIG_PATH home) = Some (settings_document (lit "pplx-new"))
  /\ fst run (AGENTS_MD_PATH home) = Some (trim PERPLEXITY_AGENTS_INSTRUCTIONS ++ [newline]).
Proof. repeat split; vm_compute; reflexivity. Qed.

End Exercises.
